(** * grpc-scan: a shallow embedding of the discovery engine

    The development follows the Go sources:
    - the scanner (module [Scanner]): [checkService], [checkMethod],
      [detectServiceType], [tryReflection], [checkStandardServices],
      [loadEnhancedWordlist], [wordlistBruteForce], [smartBruteForce],
      [generateSmartPatterns], [deduplicatePatterns], [addService],
      [addMethod], [Run], [handleDirectTesting] and the parsing of the
      call argument of [handleDirectCall];
    - the earlier stand-alone scanner (module [Legacy]):
      [loadServicePathsFromFile], [loadCommonMethodsFromFile],
      [generateVersionedServicePaths], [fuzzServiceVersions],
      [mapMethodsForVersionedService], [appendBasicMethodsForServiceName],
      [getHighPriorityMethods], [uniqueStrings], [contains],
      [discoverServicesViaReflection], [checkStandardServices],
      [checkHealthService], [checkForVulnerabilities],
      [bruteForceServices], [generatePotentialServiceNames];
    - the multi-target detector (module [Detect]): [checkGRPCService] and
      the collection of targets of [runDetectCommand].

    Go strings are byte strings and are modelled by [string] (a list of
    8-bit characters); [strings.ToLower] and [strings.TrimSpace] read them
    as UTF-8, as Go does (modules [utf8] and [unicode]).  A call
    [conn.Invoke(ctx, fullMethod, nil, nil)] is modelled by its outcome, a
    value of [InvokeResult]; a connection is a function from the full
    method path to that outcome, and a goroutine sees one such function per
    call it makes, so a server may answer the same path differently over
    time.  The shared [ScanResult] is passed explicitly; every call of
    [addService] or [addMethod] is one atomic step, and the order in which
    goroutines take the mutex is a [schedule].  A scan that is given no
    thread, or a negative number of them, does not return: [Run] has an
    [Outcome].  Printing, logging and the progress counters are left
    out. *)

From Stdlib Require Import ZArith Lia Bool Ascii String List Permutation.
From Stdlib Require Import DecimalString DecimalNat.
From stdpp Require Import gmap strings list fin_maps.

Local Open Scope string_scope.
Local Open Scope list_scope.
Local Open Scope stdpp_scope.
Local Open Scope Z_scope.

(** ** Package unicode/utf8 *)

Module utf8.

Definition RuneError : Z := 65533.   (* U+FFFD *)
Definition RuneSelf : Z := 128.
Definition MaxRune : Z := 1114111.   (* U+10FFFF *)

Definition byteOf (c : ascii) : Z := Z.of_nat (nat_of_ascii c).
Definition charOf (b : Z) : ascii := ascii_of_nat (Z.to_nat b).

(** What the table [first] says of a leading byte: the size of the
    sequence and the range accepted for its second byte; [None] for a byte
    that starts no sequence of two bytes or more. *)
Definition first (s0 : Z) : option (nat * Z * Z) :=
  if (194 <=? s0) && (s0 <=? 223) then Some (2%nat, 128, 191)        (* C2..DF *)
  else if s0 =? 224 then Some (3%nat, 160, 191)                      (* E0 *)
  else if (225 <=? s0) && (s0 <=? 236) then Some (3%nat, 128, 191)   (* E1..EC *)
  else if s0 =? 237 then Some (3%nat, 128, 159)                      (* ED *)
  else if (238 <=? s0) && (s0 <=? 239) then Some (3%nat, 128, 191)   (* EE..EF *)
  else if s0 =? 240 then Some (4%nat, 144, 191)                      (* F0 *)
  else if (241 <=? s0) && (s0 <=? 243) then Some (4%nat, 128, 191)   (* F1..F3 *)
  else if s0 =? 244 then Some (4%nat, 128, 143)                      (* F4 *)
  else None.

Definition continuation (b : Z) : bool := (128 <=? b) && (b <=? 191).

(** [DecodeRuneInString]: the first rune of [s] and its width in bytes; a
    byte that starts no valid sequence is [RuneError] of width 1. *)
Definition DecodeRuneInString (s : string) : Z * nat :=
  match s with
  | EmptyString => (RuneError, 0%nat)
  | String c0 rest =>
      let s0 := byteOf c0 in
      if s0 <? RuneSelf then (s0, 1%nat)
      else
        match first s0 with
        | None => (RuneError, 1%nat)
        | Some (sz, lo, hi) =>
            match rest with
            | EmptyString => (RuneError, 1%nat)
            | String c1 rest1 =>
                let s1 := byteOf c1 in
                if (s1 <? lo) || (hi <? s1) then (RuneError, 1%nat)
                else if (sz <=? 2)%nat
                then (Z.lor (Z.shiftl (Z.land s0 31) 6) (Z.land s1 63), 2%nat)
                else
                  match rest1 with
                  | EmptyString => (RuneError, 1%nat)
                  | String c2 rest2 =>
                      let s2 := byteOf c2 in
                      if negb (continuation s2) then (RuneError, 1%nat)
                      else if (sz <=? 3)%nat
                      then (Z.lor (Z.shiftl (Z.land s0 15) 12)
                              (Z.lor (Z.shiftl (Z.land s1 63) 6) (Z.land s2 63)),
                            3%nat)
                      else
                        match rest2 with
                        | EmptyString => (RuneError, 1%nat)
                        | String c3 _ =>
                            let s3 := byteOf c3 in
                            if negb (continuation s3) then (RuneError, 1%nat)
                            else (Z.lor (Z.shiftl (Z.land s0 7) 18)
                                    (Z.lor (Z.shiftl (Z.land s1 63) 12)
                                       (Z.lor (Z.shiftl (Z.land s2 63) 6)
                                              (Z.land s3 63))),
                                  4%nat)
                        end
                  end
            end
        end
  end.

Definition encode3 (r : Z) : string :=
  String (charOf (Z.lor 224 (Z.shiftr r 12)))
    (String (charOf (Z.lor 128 (Z.land (Z.shiftr r 6) 63)))
       (String (charOf (Z.lor 128 (Z.land r 63))) EmptyString)).

(** [AppendRune] on an empty buffer: the UTF-8 encoding of [r]; a rune out
    of range or a surrogate half is written as [RuneError]. *)
Definition EncodeRune (r : Z) : string :=
  if (0 <=? r) && (r <=? 127) then String (charOf r) EmptyString
  else if (0 <=? r) && (r <=? 2047)
  then String (charOf (Z.lor 192 (Z.shiftr r 6)))
         (String (charOf (Z.lor 128 (Z.land r 63))) EmptyString)
  else if (r <? 0) || (MaxRune <? r) || ((55296 <=? r) && (r <=? 57343))
  then encode3 RuneError
  else if r <=? 65535 then encode3 r
  else String (charOf (Z.lor 240 (Z.shiftr r 18)))
         (String (charOf (Z.lor 128 (Z.land (Z.shiftr r 12) 63)))
            (String (charOf (Z.lor 128 (Z.land (Z.shiftr r 6) 63)))
               (String (charOf (Z.lor 128 (Z.land r 63))) EmptyString))).

End utf8.

(** ** Package unicode *)

Module unicode.

(** The lower-case mappings of the letters above U+007F (the simple
    mappings of the Unicode Character Database 15.0, the table of Go 1.21
    to 1.25), as runs [(lo, hi, stride, delta)]: every [stride]-th rune
    from [lo] to [hi] is mapped to itself plus [delta]. *)
Definition lowerRuns : list (Z * Z * Z * Z) :=
  [ (192, 214, 1, 32); (216, 222, 1, 32); (256, 302, 2, 1);
    (304, 304, 1, -199); (306, 310, 2, 1); (313, 327, 2, 1);
    (330, 374, 2, 1); (376, 376, 1, -121); (377, 381, 2, 1);
    (385, 385, 1, 210); (386, 388, 2, 1); (390, 390, 1, 206);
    (391, 391, 1, 1); (393, 394, 1, 205); (395, 395, 1, 1);
    (398, 398, 1, 79); (399, 399, 1, 202); (400, 400, 1, 203);
    (401, 401, 1, 1); (403, 403, 1, 205); (404, 404, 1, 207);
    (406, 406, 1, 211); (407, 407, 1, 209); (408, 408, 1, 1);
    (412, 412, 1, 211); (413, 413, 1, 213); (415, 415, 1, 214);
    (416, 420, 2, 1); (422, 422, 1, 218); (423, 423, 1, 1);
    (425, 425, 1, 218); (428, 428, 1, 1); (430, 430, 1, 218);
    (431, 431, 1, 1); (433, 434, 1, 217); (435, 437, 2, 1);
    (439, 439, 1, 219); (440, 440, 1, 1); (444, 444, 1, 1); (452, 452, 1, 2);
    (453, 453, 1, 1); (455, 455, 1, 2); (456, 456, 1, 1); (458, 458, 1, 2);
    (459, 475, 2, 1); (478, 494, 2, 1); (497, 497, 1, 2); (498, 500, 2, 1);
    (502, 502, 1, -97); (503, 503, 1, -56); (504, 542, 2, 1);
    (544, 544, 1, -130); (546, 562, 2, 1); (570, 570, 1, 10795);
    (571, 571, 1, 1); (573, 573, 1, -163); (574, 574, 1, 10792);
    (577, 577, 1, 1); (579, 579, 1, -195); (580, 580, 1, 69);
    (581, 581, 1, 71); (582, 590, 2, 1); (880, 882, 2, 1); (886, 886, 1, 1);
    (895, 895, 1, 116); (902, 902, 1, 38); (904, 906, 1, 37);
    (908, 908, 1, 64); (910, 911, 1, 63); (913, 929, 1, 32);
    (931, 939, 1, 32); (975, 975, 1, 8); (984, 1006, 2, 1);
    (1012, 1012, 1, -60); (1015, 1015, 1, 1); (1017, 1017, 1, -7);
    (1018, 1018, 1, 1); (1021, 1023, 1, -130); (1024, 1039, 1, 80);
    (1040, 1071, 1, 32); (1120, 1152, 2, 1); (1162, 1214, 2, 1);
    (1216, 1216, 1, 15); (1217, 1229, 2, 1); (1232, 1326, 2, 1);
    (1329, 1366, 1, 48); (4256, 4293, 1, 7264); (4295, 4295, 1, 7264);
    (4301, 4301, 1, 7264); (5024, 5103, 1, 38864); (5104, 5109, 1, 8);
    (7312, 7354, 1, -3008); (7357, 7359, 1, -3008); (7680, 7828, 2, 1);
    (7838, 7838, 1, -7615); (7840, 7934, 2, 1); (7944, 7951, 1, -8);
    (7960, 7965, 1, -8); (7976, 7983, 1, -8); (7992, 7999, 1, -8);
    (8008, 8013, 1, -8); (8025, 8031, 2, -8); (8040, 8047, 1, -8);
    (8072, 8079, 1, -8); (8088, 8095, 1, -8); (8104, 8111, 1, -8);
    (8120, 8121, 1, -8); (8122, 8123, 1, -74); (8124, 8124, 1, -9);
    (8136, 8139, 1, -86); (8140, 8140, 1, -9); (8152, 8153, 1, -8);
    (8154, 8155, 1, -100); (8168, 8169, 1, -8); (8170, 8171, 1, -112);
    (8172, 8172, 1, -7); (8184, 8185, 1, -128); (8186, 8187, 1, -126);
    (8188, 8188, 1, -9); (8486, 8486, 1, -7517); (8490, 8490, 1, -8383);
    (8491, 8491, 1, -8262); (8498, 8498, 1, 28); (8544, 8559, 1, 16);
    (8579, 8579, 1, 1); (9398, 9423, 1, 26); (11264, 11311, 1, 48);
    (11360, 11360, 1, 1); (11362, 11362, 1, -10743);
    (11363, 11363, 1, -3814); (11364, 11364, 1, -10727);
    (11367, 11371, 2, 1); (11373, 11373, 1, -10780);
    (11374, 11374, 1, -10749); (11375, 11375, 1, -10783);
    (11376, 11376, 1, -10782); (11378, 11378, 1, 1); (11381, 11381, 1, 1);
    (11390, 11391, 1, -10815); (11392, 11490, 2, 1); (11499, 11501, 2, 1);
    (11506, 11506, 1, 1); (42560, 42604, 2, 1); (42624, 42650, 2, 1);
    (42786, 42798, 2, 1); (42802, 42862, 2, 1); (42873, 42875, 2, 1);
    (42877, 42877, 1, -35332); (42878, 42886, 2, 1); (42891, 42891, 1, 1);
    (42893, 42893, 1, -42280); (42896, 42898, 2, 1); (42902, 42920, 2, 1);
    (42922, 42922, 1, -42308); (42923, 42923, 1, -42319);
    (42924, 42924, 1, -42315); (42925, 42925, 1, -42305);
    (42926, 42926, 1, -42308); (42928, 42928, 1, -42258);
    (42929, 42929, 1, -42282); (42930, 42930, 1, -42261);
    (42931, 42931, 1, 928); (42932, 42946, 2, 1); (42948, 42948, 1, -48);
    (42949, 42949, 1, -42307); (42950, 42950, 1, -35384);
    (42951, 42953, 2, 1); (42960, 42960, 1, 1); (42966, 42968, 2, 1);
    (42997, 42997, 1, 1); (65313, 65338, 1, 32); (66560, 66599, 1, 40);
    (66736, 66771, 1, 40); (66928, 66938, 1, 39); (66940, 66954, 1, 39);
    (66956, 66962, 1, 39); (66964, 66965, 1, 39); (68736, 68786, 1, 64);
    (71840, 71871, 1, 32); (93760, 93791, 1, 32); (125184, 125217, 1, 34) ].

Definition ToLower (r : Z) : Z :=
  if r <=? 127
  then if (65 <=? r) && (r <=? 90) then r + 32 else r
  else
    match List.find (fun run =>
                       let '(lo, hi, stride, _) := run in
                       (lo <=? r) && (r <=? hi) && ((r - lo) mod stride =? 0))
                    lowerRuns with
    | Some (_, _, _, delta) => r + delta
    | None => r
    end.

(** [IsSpace]: the Latin-1 switch, then the table [White_Space]. *)
Definition IsSpace (r : Z) : bool :=
  if (0 <=? r) && (r <=? 255)
  then ((9 <=? r) && (r <=? 13)) || (r =? 32) || (r =? 133) || (r =? 160)
  else (r =? 5760) || ((8192 <=? r) && (r <=? 8202))
       || ((8232 <=? r) && (r <=? 8233)) || (r =? 8239) || (r =? 8287)
       || (r =? 12288).

End unicode.

(** ** Package strings (the functions the scanner uses) *)

Module strings.

(** The loop of [ToLower] for a string of ASCII bytes only: the letters
    [A] to [Z] are lower-cased byte by byte. *)
Definition lowerByte (c : ascii) : ascii :=
  let n := nat_of_ascii c in
  if ((65 <=? n) && (n <=? 90))%nat then ascii_of_nat (n + 32) else c.

Fixpoint lowerASCII (s : string) : string :=
  match s with
  | EmptyString => EmptyString
  | String c s' => String (lowerByte c) (lowerASCII s')
  end.

Fixpoint isASCII (s : string) : bool :=
  match s with
  | EmptyString => true
  | String c s' => (nat_of_ascii c <? 128)%nat && isASCII s'
  end.

(** [Map mapping s]: the runes of [s], read as [range s] reads them (a
    byte that starts no valid sequence is [utf8.RuneError]), are mapped and
    written again; a rune mapped to a negative value is dropped.  [pending]
    counts the bytes of the rune just read that are still to be passed. *)
Fixpoint mapFrom (mapping : Z -> Z) (pending : nat) (s : string) : string :=
  match s with
  | EmptyString => EmptyString
  | String _ rest =>
      match pending with
      | S pending' => mapFrom mapping pending' rest
      | O =>
          let '(c, width) := utf8.DecodeRuneInString s in
          let r := mapping c in
          (if r <? 0 then EmptyString else utf8.EncodeRune r)
          +:+ mapFrom mapping (width - 1) rest
      end
  end.

Definition Map (mapping : Z -> Z) (s : string) : string := mapFrom mapping 0 s.

(** [ToLower]: a string of ASCII bytes is lower-cased byte by byte, any
    other string rune by rune with [unicode.ToLower]. *)
Definition ToLower (s : string) : string :=
  if isASCII s then lowerASCII s else Map unicode.ToLower s.

Fixpoint HasPrefix (s prefix : string) {struct prefix} : bool :=
  match prefix with
  | EmptyString => true
  | String p prefix' =>
      match s with
      | EmptyString => false
      | String c s' => if Ascii.eqb c p then HasPrefix s' prefix' else false
      end
  end.

Fixpoint skip (n : nat) (s : string) : string :=
  match n, s with
  | O, _ => s
  | S _, EmptyString => EmptyString
  | S n', String _ s' => skip n' s'
  end.

Definition TrimPrefix (s prefix : string) : string :=
  if HasPrefix s prefix then skip (String.length prefix) s else s.

Fixpoint Contains (s substr : string) : bool :=
  HasPrefix s substr ||
  match s with
  | EmptyString => false
  | String _ s' => Contains s' substr
  end.

(** [s[:n]] *)
Fixpoint upTo (n : nat) (s : string) : string :=
  match n, s with
  | S n', String c s' => String c (upTo n' s')
  | _, _ => EmptyString
  end.

(** [Index] returns -1 when [substr] does not occur. *)
Fixpoint Index (s substr : string) : Z :=
  if HasPrefix s substr then 0
  else match s with
       | EmptyString => -1
       | String _ s' => let i := Index s' substr in
                        if i <? 0 then -1 else i + 1
       end.

(** [Replace s old new 1]: only the first occurrence is replaced. *)
Fixpoint Replace1 (s old new : string) : string :=
  if HasPrefix s old then new +:+ skip (String.length old) s
  else match s with
       | EmptyString => EmptyString
       | String c s' => String c (Replace1 s' old new)
       end.

Fixpoint HasSuffix (s suffix : string) : bool :=
  String.eqb s suffix ||
  match s with
  | EmptyString => false
  | String _ s' => HasSuffix s' suffix
  end.

(** The runes that [unicode.IsSpace] accepts, in UTF-8: the six ASCII
    bytes, U+0085, U+00A0, U+1680, U+2000 to U+200A, U+2028, U+2029, U+202F,
    U+205F and U+3000. *)
Definition whiteSpace : list string :=
  [ String "009" "";
    String "010" "";
    String "011" "";
    String "012" "";
    String "013" "";
    String "032" "";
    String "194" (String "133" "");
    String "194" (String "160" "");
    String "225" (String "154" (String "128" ""));
    String "226" (String "128" (String "128" ""));
    String "226" (String "128" (String "129" ""));
    String "226" (String "128" (String "130" ""));
    String "226" (String "128" (String "131" ""));
    String "226" (String "128" (String "132" ""));
    String "226" (String "128" (String "133" ""));
    String "226" (String "128" (String "134" ""));
    String "226" (String "128" (String "135" ""));
    String "226" (String "128" (String "136" ""));
    String "226" (String "128" (String "137" ""));
    String "226" (String "128" (String "138" ""));
    String "226" (String "128" (String "168" ""));
    String "226" (String "128" (String "169" ""));
    String "226" (String "128" (String "175" ""));
    String "226" (String "129" (String "159" ""));
    String "227" (String "128" (String "128" "")) ].

(** The width of the white-space rune that [s] starts with, or ends with;
    0 when there is none. *)
Definition leadingSpace (s : string) : nat :=
  match List.find (HasPrefix s) whiteSpace with
  | Some space => String.length space
  | None => 0%nat
  end.

Definition trailingSpace (s : string) : nat :=
  match List.find (HasSuffix s) whiteSpace with
  | Some space => String.length space
  | None => 0%nat
  end.

(** [TrimLeftFunc(s, unicode.IsSpace)] and [TrimRightFunc(s, unicode.IsSpace)]:
    white-space runes are cut one by one; [fuel] bounds their number, and a
    string has no more runes than bytes. *)
Fixpoint trimLeft (fuel : nat) (s : string) : string :=
  match fuel with
  | O => s
  | S fuel' =>
      match leadingSpace s with
      | O => s
      | width => trimLeft fuel' (skip width s)
      end
  end.

Fixpoint trimRight (fuel : nat) (s : string) : string :=
  match fuel with
  | O => s
  | S fuel' =>
      match trailingSpace s with
      | O => s
      | width => trimRight fuel' (upTo (String.length s - width) s)
      end
  end.

Definition TrimLeftSpace (s : string) : string := trimLeft (String.length s) s.

Definition TrimRightSpace (s : string) : string := trimRight (String.length s) s.

(** [TrimSpace]: all leading and trailing white space removed, as defined
    by Unicode. *)
Definition TrimSpace (s : string) : string := TrimRightSpace (TrimLeftSpace s).

(** [Split s sep] for a one-byte separator: all the fields, at least one. *)
Fixpoint Split (s : string) (sep : ascii) : list string :=
  match s with
  | EmptyString => [EmptyString]
  | String c s' =>
      if Ascii.eqb c sep then EmptyString :: Split s' sep
      else match Split s' sep with
           | h :: t => String c h :: t
           | [] => [String c EmptyString]
           end
  end.

(** [SplitN s sep 2] for a one-byte separator: cut at the first one. *)
Fixpoint SplitN2 (s : string) (sep : ascii) : list string :=
  match s with
  | EmptyString => [EmptyString]
  | String c s' =>
      if Ascii.eqb c sep then [EmptyString; s']
      else match SplitN2 s' sep with
           | h :: t => String c h :: t
           | [] => [String c EmptyString]
           end
  end.

(** [LastIndex] returns -1 when [substr] does not occur. *)
Fixpoint LastIndex (s substr : string) : Z :=
  match s with
  | EmptyString => if HasPrefix s substr then 0 else -1
  | String _ s' =>
      let i := LastIndex s' substr in
      if 0 <=? i then i + 1
      else if HasPrefix s substr then 0 else -1
  end.

Definition TrimSuffix (s suffix : string) : string :=
  if HasSuffix s suffix
  then upTo (String.length s - String.length suffix) s
  else s.

(** The last element of [Split s sep]; [Split] never returns an empty
    slice. *)
Definition lastField (s : string) (sep : ascii) : string :=
  List.last (Split s sep) EmptyString.

End strings.

(** ** gRPC status codes and the outcome of one invocation *)

Module codes.
Inductive Code : Set :=
| OK | Canceled | Unknown | InvalidArgument | DeadlineExceeded | NotFound
| AlreadyExists | PermissionDenied | ResourceExhausted | FailedPrecondition
| Aborted | OutOfRange | Unimplemented | Internal | Unavailable | DataLoss
| Unauthenticated.

Definition eqb (a b : Code) : bool :=
  match a, b with
  | OK, OK | Canceled, Canceled | Unknown, Unknown
  | InvalidArgument, InvalidArgument | DeadlineExceeded, DeadlineExceeded
  | NotFound, NotFound | AlreadyExists, AlreadyExists
  | PermissionDenied, PermissionDenied
  | ResourceExhausted, ResourceExhausted
  | FailedPrecondition, FailedPrecondition | Aborted, Aborted
  | OutOfRange, OutOfRange | Unimplemented, Unimplemented
  | Internal, Internal | Unavailable, Unavailable | DataLoss, DataLoss
  | Unauthenticated, Unauthenticated => true
  | _, _ => false
  end.
End codes.

(** The error value returned by [conn.Invoke]:
    - [NoError]: [err == nil];
    - [StatusError c m]: [status.FromError(err)] yields [ok = true], code [c]
      and message [m];
    - [PlainError t]: [status.FromError(err)] yields [ok = false], and
      [err.Error()] is [t]. *)
Inductive InvokeResult : Type :=
| NoError
| StatusError (code : codes.Code) (message : string)
| PlainError (text : string).

(** [conn.Invoke(ctx, fullMethod, nil, nil)] *)
Definition ClientConn : Type := string -> InvokeResult.

Definition fullMethodOf (service method : string) : string :=
  "/" +:+ service +:+ "/" +:+ method.

(** What the reflection stream does when the scanner opens it, sends one
    [list_services] request and receives once:
    - [OpenFailed]: [client.ServerReflectionInfo(ctx)] returns an error;
    - [SendFailed]: [stream.Send(req)] returns an error;
    - [RecvFailed err]: [stream.Recv()] returns the error [err];
    - [Received listResp]: a response arrives; [listResp] is
      [resp.GetListServicesResponse()], [None] for nil, otherwise the names
      of [listResp.GetService()] in order. *)
Inductive ReflectionStream : Type :=
| OpenFailed
| SendFailed
| RecvFailed (err : InvokeResult)
| Received (listResp : option (list string)).

(** A text file read line by line: [os.Open] fails with [err], or
    [bufio.Scanner] yields [lines] and then reports [scanErr]; or there is
    no file at [path]: [os.Stat] says so and [os.Open] fails with [err]. *)
Inductive TextFile : Type :=
| CannotOpen (err : string)
| FileLines (lines : list string) (scanErr : option string)
| NotFound (path err : string).

(** A result or an error text. *)
Inductive Result (A : Type) : Type :=
| Ok (a : A)
| Failed (err : string).
Arguments Ok {A} a.
Arguments Failed {A} err.

(** ** The scanner *)

Module Scanner.

Record ScanResult : Type := mkScanResult {
  Target : string;
  AvailableServices : list string;
  MethodsFound : gmap string (list string);
  ReflectionEnabled : bool;
  ScanMode : string;
  Timestamp : string
}.

(** The value built in [main] before the scan starts. *)
Definition newScanResult (target timestamp : string) : ScanResult :=
  mkScanResult target [] ∅ false "" timestamp.

Definition setServices (r : ScanResult) (l : list string) : ScanResult :=
  mkScanResult (Target r) l (MethodsFound r) (ReflectionEnabled r)
               (ScanMode r) (Timestamp r).

Definition setMethods (r : ScanResult) (m : gmap string (list string)) : ScanResult :=
  mkScanResult (Target r) (AvailableServices r) m (ReflectionEnabled r)
               (ScanMode r) (Timestamp r).

Definition setReflectionEnabled (r : ScanResult) (b : bool) : ScanResult :=
  mkScanResult (Target r) (AvailableServices r) (MethodsFound r) b
               (ScanMode r) (Timestamp r).

Definition setScanMode (r : ScanResult) (mode : string) : ScanResult :=
  mkScanResult (Target r) (AvailableServices r) (MethodsFound r)
               (ReflectionEnabled r) mode (Timestamp r).

Record ServicePattern : Type := mkServicePattern {
  PService : string;
  PMethods : list string
}.

Record WordlistEntry : Type := mkWordlistEntry {
  Service : string;
  Methods : list string
}.

Definition commonPatterns : list ServicePattern :=
  [ mkServicePattern "grpc.health.v1.Health" ["Check"; "Watch"];
    mkServicePattern "grpc.reflection.v1alpha.ServerReflection" ["ServerReflectionInfo"];
    mkServicePattern "grpc.reflection.v1.ServerReflection" ["ServerReflectionInfo"];
    mkServicePattern "helloworld.Greeter" ["SayHello"];
    mkServicePattern "ping.PingService" ["Ping"; "Check"; "Health"];
    mkServicePattern "echo.EchoService" ["Echo"; "Stream"];
    mkServicePattern "user" ["Get"; "List"; "Create"; "Update"; "Delete"; "Login"; "Logout"];
    mkServicePattern "auth" ["Login"; "Logout"; "Verify"; "Refresh"; "Authenticate"];
    mkServicePattern "product" ["Get"; "List"; "Create"; "Update"; "Delete"; "Search"];
    mkServicePattern "order" ["Get"; "List"; "Create"; "Update"; "Delete"; "Process"] ].

(** *** Thread-safe result updates

    Both functions run under [resultMutex], so each call is one atomic
    step on the shared [ScanResult]. *)

Definition addService (r : ScanResult) (service source : string) : ScanResult :=
  if existsb (fun existing => String.eqb existing service) (AvailableServices r)
  then r
  else setServices r (AvailableServices r ++ [service]).

Definition addMethod (r : ScanResult) (service method : string) : ScanResult :=
  let found :=
    match MethodsFound r !! service with
    | None => <[service := []]> (MethodsFound r)
    | Some _ => MethodsFound r
    end in
  let existingMethods := default [] (found !! service) in
  if existsb (fun existing => String.eqb existing method) existingMethods
  then setMethods r found
  else setMethods r (<[service := existingMethods ++ [method]]> found).

(** One locked update of the shared result. *)
Inductive Update : Type :=
| AddService (service source : string)
| AddMethod (service method : string).

Definition applyUpdate (r : ScanResult) (u : Update) : ScanResult :=
  match u with
  | AddService service source => addService r service source
  | AddMethod service method => addMethod r service method
  end.

Definition applyUpdates (r : ScanResult) (us : list Update) : ScanResult :=
  foldl applyUpdate r us.

(** [checkService] checks if a service exists by trying a method. *)
Definition checkService (conn : ClientConn) (service method : string) : bool :=
  let fullMethod := fullMethodOf service method in
  match conn fullMethod with
  | NoError => true
  | PlainError _ => false
  | StatusError code message =>
      if codes.eqb code codes.Unimplemented
         && strings.Contains (strings.ToLower message) "unknown service"
      then false
      else if codes.eqb code codes.Unimplemented
              && strings.Contains (strings.ToLower message) "unknown method"
      then true
      else match code with
           | codes.InvalidArgument | codes.FailedPrecondition
           | codes.Unauthenticated | codes.PermissionDenied
           | codes.Internal => true
           | _ => false
           end
  end.

(** [checkMethod] checks if a specific method exists. *)
Definition checkMethod (conn : ClientConn) (service method : string) : bool :=
  let fullMethod := fullMethodOf service method in
  match conn fullMethod with
  | NoError => true
  | PlainError _ => false
  | StatusError code _ =>
      match code with
      | codes.InvalidArgument | codes.FailedPrecondition
      | codes.Unauthenticated | codes.PermissionDenied
      | codes.Internal => true
      | _ => false
      end
  end.

(** [detectServiceType]: is the endpoint a gRPC service, and what kind. *)
Definition detectServiceType (conn : ClientConn) : bool * string :=
  match conn "/grpc.health.v1.Health/Check" with
  | NoError => (true, "gRPC service with health check")
  | PlainError errStr =>
      if strings.Contains errStr "HTTP" then (false, "HTTP/REST service")
      else if strings.Contains errStr "connection refused"
           then (false, "No service listening on this port")
           else (false, "Unknown service type")
  | StatusError code message =>
      match code with
      | codes.Unimplemented =>
          if strings.Contains message "unknown service"
          then (true, "gRPC service (health check not implemented)")
          else (true, "gRPC service")
      | codes.Unavailable => (false, "Service unavailable")
      | codes.Internal => (true, "gRPC service")
      | _ => (true, "gRPC service")
      end
  end.

(** [tryReflection]: server reflection for service discovery. *)
Definition tryReflection (r : ScanResult) (stream : ReflectionStream)
  : bool * ScanResult :=
  match stream with
  | OpenFailed => (false, r)
  | SendFailed => (false, r)
  | RecvFailed _ => (false, r)
  | Received None => (false, r)
  | Received (Some services) =>
      (true,
       applyUpdates (setReflectionEnabled r true)
                    (map (fun name => AddService name "reflection") services))
  end.

(** The calls one goroutine makes on the shared connection, in order:
    [calls k] answers its [k]-th invocation. *)
Definition Calls : Type := nat -> ClientConn.

(** The loop [for _, method := range methods] around [checkMethod] and
    [addMethod]; call number [k] is the first one it makes. *)
Fixpoint checkMethods (calls : Calls) (k : nat) (service : string)
         (methods : list string) : list Update :=
  match methods with
  | [] => []
  | method :: rest =>
      (if checkMethod (calls k) service method
       then [AddMethod service method] else [])
      ++ checkMethods calls (S k) service rest
  end.

(** The loop of [checkStandardServices] over [commonPatterns[:3]].
    [pattern.Methods[0]] needs a method; every common pattern has one. *)
Fixpoint standardPatterns (calls : Calls) (k : nat)
         (patterns : list ServicePattern) : list Update :=
  match patterns with
  | [] => []
  | pattern :: rest =>
      match PMethods pattern with
      | [] => []
      | first :: _ =>
          if checkService (calls k) (PService pattern) first
          then AddService (PService pattern) "standard"
               :: checkMethods calls (S k) (PService pattern) (PMethods pattern)
               ++ standardPatterns calls (S k + length (PMethods pattern)) rest
          else standardPatterns calls (S k) rest
      end
  end.

(** [checkStandardServices]; [healthClient.Check] is call number [k]. *)
Definition checkStandardServices (calls : Calls) (k : nat) : list Update :=
  (match calls k "/grpc.health.v1.Health/Check" with
   | NoError => [AddService "grpc.health.v1.Health" "standard";
                 AddMethod "grpc.health.v1.Health" "Check"]
   | _ => []
   end)
  ++ standardPatterns calls (S k) (take 3 commonPatterns).

(** *** The enhanced wordlist *)

(** The body of the [for scanner.Scan()] loop. *)
Definition scanLine (acc : list WordlistEntry * list string) (text : string)
  : list WordlistEntry * list string :=
  let '(entries, globalMethods) := acc in
  let line := strings.TrimSpace text in
  if String.eqb line "" || strings.HasPrefix line "#" || strings.HasPrefix line "//"
  then acc
  else if strings.HasPrefix line "*"
  then (entries, globalMethods ++ [strings.TrimPrefix line "*"])
  else if strings.Contains line ":"
  then
    let parts := strings.SplitN2 line ":"%char in
    let service := strings.TrimSpace (nth 0 parts "") in
    let methodList := strings.Split (nth 1 parts "") ","%char in
    let methods :=
      List.filter (fun method => negb (String.eqb method ""))
                  (map strings.TrimSpace methodList) in
    (entries ++ [mkWordlistEntry service methods], globalMethods)
  else (entries ++ [mkWordlistEntry line []], globalMethods).

Definition loadEnhancedWordlist (file : TextFile)
  : Result (list WordlistEntry * list string) :=
  match file with
  | CannotOpen err => Failed ("failed to open wordlist: " +:+ err)
  | NotFound _ err => Failed ("failed to open wordlist: " +:+ err)
  | FileLines lines scanErr =>
      let parsed := foldl scanLine ([], []) lines in
      match scanErr with
      | Some err => Failed ("error reading wordlist: " +:+ err)
      | None => Ok parsed
      end
  end.

(** *** Default methods of [wordlistBruteForce] *)

Definition builtinDefaultMethods : list string :=
  ["Get"; "List"; "Create"; "Update"; "Delete";
   "Find"; "Search"; "Query"; "Check"; "Ping"].



(** The block "combine default methods with global methods from
    wordlist": with at least one global method the variable ends up
    holding the keys of [methodSet] in the order [rangeOrder] in which
    the [range] loop visited them. *)
Definition defaultMethodsOf (rangeOrder globalMethods : list string) : list string :=
  if (0 <? Z.of_nat (length globalMethods))
  then rangeOrder
  else builtinDefaultMethods.

(** *** The goroutine of [wordlistBruteForce] *)

Definition patternsOf (service : string) : list string :=
  service ::
  (if negb (strings.Contains service ".") && negb (strings.HasSuffix service "Service")
   then [ service +:+ "Service";
          strings.ToLower service +:+ "." +:+ service +:+ "Service";
          "api." +:+ service;
          strings.ToLower service +:+ ".v1." +:+ service +:+ "Service" ]
   else []).

(** The loop over [patterns]; it stops at the first pattern whose service
    answers.  [len(methodsToTry) > 0] is tested before any call. *)
Fixpoint tryPatterns (calls : Calls) (k : nat) (methodsToTry patterns : list string)
  : list Update :=
  match patterns with
  | [] => []
  | pattern :: rest =>
      match methodsToTry with
      | [] => tryPatterns calls k methodsToTry rest
      | first :: _ =>
          if checkService (calls k) pattern first
          then AddService pattern "wordlist"
               :: checkMethods calls (S k) pattern methodsToTry
          else tryPatterns calls (S k) methodsToTry rest
      end
  end.

Definition wordlistWorker (calls : Calls) (defaultMethods : list string)
           (e : WordlistEntry) : list Update :=
  let methodsToTry :=
    if (Z.of_nat (length (Methods e)) =? 0) then defaultMethods else Methods e in
  tryPatterns calls 0 methodsToTry (patternsOf (Service e)).

(** *** Smart patterns *)

Definition generateMethodsForService (serviceName : string)
           (baseMethods : list string) : list string :=
  let lower := strings.ToLower serviceName in
  baseMethods
  ++ (if String.eqb lower "user" || String.eqb lower "account"
      then ["Login"; "Logout"; "Register"; "Authenticate"; "GetProfile"]
      else if String.eqb lower "auth"
      then ["Login"; "Logout"; "Verify"; "Refresh"; "ValidateToken"]
      else if String.eqb lower "file" || String.eqb lower "storage"
      then ["Upload"; "Download"; "Delete"; "GetMetadata"]
      else if String.eqb lower "payment"
      then ["Process"; "Refund"; "GetStatus"; "Capture"]
      else [])
  ++ ["Get" +:+ serviceName].

Fixpoint dedupFrom (seen : gmap string bool) (patterns : list ServicePattern)
  : list ServicePattern :=
  match patterns with
  | [] => []
  | p :: rest =>
      if negb (default false (seen !! PService p))
      then p :: dedupFrom (<[PService p := true]> seen) rest
      else dedupFrom seen rest
  end.

Definition deduplicatePatterns (patterns : list ServicePattern) : list ServicePattern :=
  dedupFrom ∅ patterns.

Definition generateSmartPatterns : list ServicePattern :=
  let serviceNames :=
    ["User"; "Auth"; "Account"; "Profile";
     "Product"; "Order"; "Payment"; "Cart";
     "File"; "Storage"; "Media"; "Document";
     "Notification"; "Email"; "Message";
     "Search"; "Query"; "Config"; "Settings";
     "Admin"; "Management"; "System"] in
  let commonMethods :=
    ["Get"; "List"; "Create"; "Update"; "Delete";
     "Find"; "Search"; "Count"; "Exists";
     "Validate"; "Check"; "Verify"] in
  deduplicatePatterns
    (commonPatterns ++
     flat_map (fun name =>
       let methods := generateMethodsForService name commonMethods in
       [ mkServicePattern (strings.ToLower name) methods;
         mkServicePattern (name +:+ "Service") methods;
         mkServicePattern (strings.ToLower name +:+ "." +:+ name +:+ "Service") methods;
         mkServicePattern ("api." +:+ name) methods;
         mkServicePattern (strings.ToLower name +:+ ".v1." +:+ name +:+ "Service") methods ])
       serviceNames).

(** The goroutine of [smartBruteForce].  [p.Methods[0]] needs a method;
    every generated pattern has one ([generateSmartPatterns_have_methods]). *)
Definition smartWorker (calls : Calls) (p : ServicePattern) : list Update :=
  match PMethods p with
  | [] => []
  | first :: _ =>
      if checkService (calls 0%nat) (PService p) first
      then AddService (PService p) "bruteforce"
           :: checkMethods calls 1 (PService p) (PMethods p)
      else []
  end.

(** *** Goroutines and the result mutex

    Every goroutine is the list of locked updates it performs.  A
    [schedule] names, step by step, the goroutine that takes the mutex
    next; steps naming a goroutine that has finished (or none) are
    skipped, and when the schedule ends the goroutines still running
    finish one after the other. *)
Fixpoint interleave (schedule : list nat) (workers : list (list Update))
  : list Update :=
  match schedule with
  | [] => concat workers
  | i :: rest =>
      match workers !! i with
      | Some (u :: us) => u :: interleave rest (<[i := us]> workers)
      | _ => interleave rest workers
      end
  end.

(** *** [Run] *)

(** What the scan meets outside the program, and the number of threads
    it is started with. *)
Record Env : Type := mkEnv {
  dialError : option string;     (* [grpc.DialContext] *)
  connected : bool;              (* [waitForConnection] *)
  calls : Calls;                 (* calls of the main goroutine *)
  reflection : ReflectionStream;
  wordlistFile : TextFile;
  rangeOrder : list string;      (* visit order of [range methodSet] *)
  workerCalls : nat -> Calls;    (* calls of the [i]-th goroutine *)
  threads : Z;                   (* [s.threads], the flag [-threads] *)
  schedule : list nat
}.

(** How a call ends: it returns (with its error, if any), it panics, or
    it waits for ever. *)
Inductive Outcome : Type :=
| Returns (err : option string)
| Panics
| Blocks.

(** The semaphore of the brute-force loops:
    [make(chan struct{}, s.threads)] panics when [s.threads] is negative;
    when it is 0 the channel has no buffer, and the first
    [semaphore <- struct{}{}] waits for a receiver that does not exist,
    since the goroutine that would receive is started after the send.
    [None]: every one of the [jobs] goroutines is started.  With few
    threads not every order of the goroutines can arise; a [schedule] may
    be any order, so what holds for all schedules holds for those that
    do. *)
Definition semaphore (threads : Z) (jobs : nat) : option Outcome :=
  if threads <? 0 then Some Panics
  else if (threads =? 0) && (0 <? Z.of_nat jobs) then Some Blocks
  else None.

(** [wordlistBruteForce]; its only error is the loader's. *)
Definition wordlistBruteForce (env : Env) (r : ScanResult)
  : Outcome * ScanResult :=
  match loadEnhancedWordlist (wordlistFile env) with
  | Failed err => (Returns (Some err), r)
  | Ok (entries, globalMethods) =>
      let defaultMethods := defaultMethodsOf (rangeOrder env) globalMethods in
      match semaphore (threads env) (length entries) with
      | Some stopped => (stopped, r)
      | None =>
          let workers :=
            imap (fun i e => wordlistWorker (workerCalls env i) defaultMethods e)
                 entries in
          (Returns None, applyUpdates r (interleave (schedule env) workers))
      end
  end.

(** [smartBruteForce] has no result: [Returns None] is its plain return. *)
Definition smartBruteForce (env : Env) (r : ScanResult) : Outcome * ScanResult :=
  let patterns := generateSmartPatterns in
  match semaphore (threads env) (length patterns) with
  | Some stopped => (stopped, r)
  | None =>
      let workers :=
        imap (fun i p => smartWorker (workerCalls env i) p) patterns in
      (Returns None, applyUpdates r (interleave (schedule env) workers))
  end.

(** [Run]: how the call ends, and [s.result] at that moment. *)
Definition Run (wordlist : string) (env : Env) (r : ScanResult)
  : Outcome * ScanResult :=
  match dialError env with
  | Some err => (Returns (Some ("failed to connect: " +:+ err)), r)
  | None =>
      if negb (connected env) then (Returns (Some "connection failed"), r)
      else
        let '(isGRPC, _) := detectServiceType (calls env 0%nat) in
        if negb isGRPC then (Returns (Some "not a gRPC service"), r)
        else
          let '(reflected, r1) := tryReflection r (reflection env) in
          let r2 := if reflected then setScanMode r1 "reflection" else r1 in
          let r3 := applyUpdates r2 (checkStandardServices (calls env) 1) in
          if negb (ReflectionEnabled r3)
             || (Z.of_nat (length (AvailableServices r3)) <=? 1)
          then
            if negb (String.eqb wordlist "")
            then
              match wordlistBruteForce env (setScanMode r3 "wordlist") with
              | (Returns (Some err), r4) =>
                  (Returns (Some ("wordlist brute force failed: " +:+ err)), r4)
              | stopped => stopped
              end
            else smartBruteForce env (setScanMode r3 "bruteforce")
          else if String.eqb (ScanMode r3) ""
          then (Returns None, setScanMode r3 "standard")
          else (Returns None, r3)
  end.

(** *** Direct testing *)

(** The loop "test each service" of [handleDirectTesting]. *)
Fixpoint directServices (calls : Calls) (k : nat) (serviceList methodList : list string)
  : list Update :=
  match serviceList with
  | [] => []
  | service :: rest =>
      if String.eqb service "" then directServices calls k rest methodList
      else
        let testMethods :=
          if (Z.of_nat (length methodList) =? 0)
          then ["Get"; "List"; "Create"; "Update"; "Delete"; "Check"; "Ping"]
          else methodList in
        match testMethods with
        | [] => []
        | first :: _ =>
            if checkService (calls k) service first
            then AddService service "direct"
                 :: checkMethods calls (S k) service testMethods
                 ++ directServices calls (S k + length testMethods) rest methodList
            else directServices calls (S k) rest methodList
        end
  end.

(** [handleDirectTesting]; [None] when it ends the program with
    [log.Fatalf] (the dial or the connection fails). *)
Definition handleDirectTesting (env : Env) (services methods : string) (r : ScanResult)
  : option ScanResult :=
  match dialError env with
  | Some _ => None
  | None =>
      if negb (connected env) then None
      else
        let serviceList :=
          if negb (String.eqb services "")
          then map strings.TrimSpace (strings.Split services ","%char) else [] in
        let methodList :=
          if negb (String.eqb methods "")
          then map strings.TrimSpace (strings.Split methods ","%char) else [] in
        let r1 := setScanMode r "direct" in
        let serviceList :=
          if (Z.of_nat (length serviceList) =? 0) && (0 <? Z.of_nat (length methodList))
          then serviceList ++ map PService commonPatterns
          else serviceList in
        Some (applyUpdates r1 (directServices (calls env) 0 serviceList methodList))
  end.

(** *** Direct call *)

(** The first block of [handleDirectCall]: the call is cut at the first
    [/], or else at the last dot; [Failed] stands for [log.Fatalf]. *)
Definition parseCall (call : string) : Result (string * string) :=
  let parsed :=
    if strings.Contains call "/"
    then
      let parts := strings.SplitN2 call "/"%char in
      Ok (nth 0 parts "",
          if (1 <? Z.of_nat (length parts)) then nth 1 parts "" else "")
    else if strings.Contains call "."
    then
      let lastDot := strings.LastIndex call "." in
      Ok (strings.upTo (Z.to_nat lastDot) call,
          strings.skip (Z.to_nat (lastDot + 1)) call)
    else Failed "Invalid call format. Use Service/Method or Service.Method" in
  match parsed with
  | Ok (service, method) =>
      if String.eqb method ""
      then Failed "Method name is required in call format"
      else Ok (service, method)
  | Failed err => Failed err
  end.

End Scanner.

(** ** The earlier stand-alone scanner *)

Module Legacy.

Record ScanResult : Type := mkScanResult {
  Target : string;
  AvailableServices : list string;
  HealthStatus : gmap string string;
  ReflectionEnabled : bool;
  MethodsFound : gmap string (list string);
  Errors : gmap string string;
  Vulnerabilities : list string
}.

Definition newScanResult (target : string) : ScanResult :=
  mkScanResult target [] ∅ false ∅ ∅ [].

Definition setServices (r : ScanResult) (l : list string) : ScanResult :=
  mkScanResult (Target r) l (HealthStatus r) (ReflectionEnabled r)
               (MethodsFound r) (Errors r) (Vulnerabilities r).

Definition setMethods (r : ScanResult) (m : gmap string (list string)) : ScanResult :=
  mkScanResult (Target r) (AvailableServices r) (HealthStatus r)
               (ReflectionEnabled r) m (Errors r) (Vulnerabilities r).

Definition setReflectionEnabled (r : ScanResult) (b : bool) : ScanResult :=
  mkScanResult (Target r) (AvailableServices r) (HealthStatus r) b
               (MethodsFound r) (Errors r) (Vulnerabilities r).

(** [contains]: is [item] in [slice]? *)
Fixpoint contains (slice : list string) (item : string) : bool :=
  match slice with
  | [] => false
  | s :: rest => if String.eqb s item then true else contains rest item
  end.

Fixpoint uniqueFrom (seen : gmap string bool) (input : list string) : list string :=
  match input with
  | [] => []
  | item :: rest =>
      if negb (default false (seen !! item))
      then item :: uniqueFrom (<[item := true]> seen) rest
      else uniqueFrom seen rest
  end.

(** [uniqueStrings] removes duplicate strings from a slice. *)
Definition uniqueStrings (input : list string) : list string :=
  uniqueFrom ∅ input.

(** The body of the [for scanner.Scan()] loop of
    [loadServicePathsFromFile]. *)
Definition scanServiceLine (services : list string) (text : string) : list string :=
  let line := strings.TrimSpace text in
  if String.eqb line "" || strings.HasPrefix line "#" then services
  else
    let idx := strings.Index line "#" in
    let line := if (0 <? idx)
                then strings.TrimSpace (strings.upTo (Z.to_nat idx) line)
                else line in
    services ++ [line].

(** [loadServicePathsFromFile]; a file that does not exist is reported by
    [os.Stat] before [os.Open] is tried. *)
Definition loadServicePathsFromFile (file : TextFile) : Result (list string) :=
  match file with
  | NotFound path _ => Failed ("service paths file not found: " +:+ path)
  | CannotOpen err => Failed ("failed to open service paths file: " +:+ err)
  | FileLines lines scanErr =>
      let services := foldl scanServiceLine [] lines in
      match scanErr with
      | Some err => Failed ("error reading service paths file: " +:+ err)
      | None => Ok services
      end
  end.

(** *** Version fuzzing *)

(** [%d] of a number that is not negative. *)
Definition decimal (i : nat) : string :=
  NilEmpty.string_of_uint (Nat.to_uint i).

(** [fmt.Sprintf(".v%d.", i)] for [i >= 1]. *)
Definition versionPattern (i : nat) : string :=
  ".v" +:+ decimal i +:+ ".".

(** The values of a loop [for i := 1; i <= maxVersion; i++]. *)
Definition versionsUpTo (maxVersion : Z) : list nat :=
  seq 1 (Z.to_nat maxVersion).

(** The inner loop: the first pattern [.vI.] the path contains is
    replaced once by [.vV.], and the loop breaks. *)
Fixpoint replaceVersion (servicePath : string) (v : nat) (candidates : list nat)
  : string :=
  match candidates with
  | [] => servicePath
  | i :: rest =>
      if strings.Contains servicePath (versionPattern i)
      then strings.Replace1 servicePath (versionPattern i) (versionPattern v)
      else replaceVersion servicePath v rest
  end.

(** The outer loop over [v]. *)
Fixpoint versionedPaths (servicePath : string) (maxVersion : Z) (vs : list nat)
  : list string :=
  match vs with
  | [] => []
  | v :: rest =>
      let versionedPath := replaceVersion servicePath v (versionsUpTo maxVersion) in
      (if negb (String.eqb versionedPath servicePath) then [versionedPath] else [])
      ++ versionedPaths servicePath maxVersion rest
  end.

Definition generateVersionedServicePaths (servicePath : string) (maxVersion : Z)
  : list string :=
  if negb (strings.Contains servicePath ".v1.")
     && negb (strings.Contains servicePath ".v2.")
     && negb (strings.Contains servicePath ".v3.")
  then [servicePath]
  else versionedPaths servicePath maxVersion (versionsUpTo maxVersion)
       ++ [servicePath].

Fixpoint fuzzServiceVersions (servicePaths : list string) (maxVersion : Z)
  : list string :=
  match servicePaths with
  | [] => []
  | path :: rest =>
      generateVersionedServicePaths path maxVersion
      ++ fuzzServiceVersions rest maxVersion
  end.

(** *** Reflection *)

(** [discoverServicesViaReflection]; a nil stream is [OpenFailed]. *)
Definition discoverServicesViaReflection (stream : ReflectionStream)
           (r : ScanResult) : bool * ScanResult :=
  match stream with
  | OpenFailed => (false, r)
  | SendFailed => (false, r)
  | RecvFailed err =>
      match err with
      | StatusError code message =>
          if codes.eqb code codes.Unimplemented
             && strings.Contains (strings.ToLower message) "unknown service"
          then (false, r)
          else (false, r)
      | _ => (false, r)
      end
  | Received None => (false, r)
  | Received (Some discoveredServices) =>
      let r' :=
        if (0 <? Z.of_nat (length discoveredServices))
        then foldl (fun r serviceName =>
                      if negb (contains (AvailableServices r) serviceName)
                      then setServices r (AvailableServices r ++ [serviceName])
                      else r)
                   r discoveredServices
        else r in
      ((0 <? Z.of_nat (length discoveredServices)), r')
  end.

(** The reflection block of [main]. *)
Definition mainReflection (stream : ReflectionStream) (r : ScanResult) : ScanResult :=
  match stream with
  | OpenFailed => setReflectionEnabled r false
  | _ =>
      let '(actuallyWorked, r') := discoverServicesViaReflection stream r in
      setReflectionEnabled r' actuallyWorked
  end.

(** *** Probing one standard service *)

Record Probe : Type := mkProbe {
  serviceFound : bool;
  foundMethods : list string;
  serviceExplicitlyNotFound : bool
}.

(** The loop [for _, method := range methods] of [checkStandardServices];
    call number [k] is its first. *)
Fixpoint probeMethods (calls : nat -> ClientConn) (k : nat) (servicePath : string)
         (methods : list string) (p : Probe) : Probe :=
  match methods with
  | [] => p
  | method :: rest =>
      let continue := probeMethods calls (S k) servicePath rest in
      match calls k (fullMethodOf servicePath method) with
      | NoError =>
          mkProbe true (foundMethods p ++ [method]) (serviceExplicitlyNotFound p)
      | PlainError _ => continue p
      | StatusError code message =>
          let errMsg := strings.ToLower message in
          if (codes.eqb code codes.Unimplemented || codes.eqb code codes.NotFound)
             && strings.Contains errMsg "service"
             && strings.Contains errMsg "unknown service"
          then mkProbe (serviceFound p) (foundMethods p) true
          else if codes.eqb code codes.Unimplemented
                  && strings.Contains errMsg "method"
                  && strings.Contains errMsg "unknown method"
          then continue (mkProbe true (foundMethods p) (serviceExplicitlyNotFound p))
          else if codes.eqb code codes.Unavailable
          then continue p
          else
            match code with
            | codes.InvalidArgument | codes.FailedPrecondition
            | codes.OutOfRange | codes.Unauthenticated
            | codes.PermissionDenied | codes.Internal =>
                continue (mkProbe true (foundMethods p ++ [method])
                                  (serviceExplicitlyNotFound p))
            | _ => continue p
            end
      end
  end.

(** The locked block "add to available services if found". *)
Definition recordService (r : ScanResult) (servicePath : string)
           (found : list string) : ScanResult :=
  let r1 :=
    if negb (contains (AvailableServices r) servicePath)
    then setServices r (AvailableServices r ++ [servicePath])
    else r in
  if (0 <? Z.of_nat (length found))
  then
    let existing := default [] (MethodsFound r1 !! servicePath) in
    setMethods r1 (<[servicePath := uniqueStrings (existing ++ found)]> (MethodsFound r1))
  else r1.

(** One service path of [checkStandardServices], with its [methods]. *)
Definition checkStandardService (calls : nat -> ClientConn) (servicePath : string)
           (methods : list string) (r : ScanResult) : ScanResult :=
  let p := probeMethods calls 0 servicePath methods (mkProbe false [] false) in
  if serviceExplicitlyNotFound p then r
  else if serviceFound p then recordService r servicePath (foundMethods p)
  else r.

(** The locked block of [checkHealthService] after a successful check. *)
Definition recordHealth (r : ScanResult) : ScanResult :=
  let r1 :=
    if negb (contains (AvailableServices r) "grpc.health.v1.Health")
    then setServices r (AvailableServices r ++ ["grpc.health.v1.Health"])
    else r in
  let existing := default [] (MethodsFound r1 !! "grpc.health.v1.Health") in
  if negb (contains existing "Check")
  then setMethods r1 (<["grpc.health.v1.Health" := existing ++ ["Check"]]> (MethodsFound r1))
  else setMethods r1 (<["grpc.health.v1.Health" := existing]> (MethodsFound r1)).

(** One locked update of the shared result. *)
Inductive Update : Type :=
| RecordService (servicePath : string) (found : list string)
| RecordHealth
| RecordReflection (stream : ReflectionStream).

Definition applyUpdate (r : ScanResult) (u : Update) : ScanResult :=
  match u with
  | RecordService servicePath found => recordService r servicePath found
  | RecordHealth => recordHealth r
  | RecordReflection stream => mainReflection stream r
  end.

(** *** The other loaders and helpers *)

(** The body of the [for scanner.Scan()] loop of
    [loadCommonMethodsFromFile]. *)
Definition scanMethodLine (methods : list string) (text : string) : list string :=
  let line := strings.TrimSpace text in
  if String.eqb line "" || strings.HasPrefix line "#" then methods
  else methods ++ [line].

Definition loadCommonMethodsFromFile (file : TextFile) : Result (list string) :=
  match file with
  | NotFound path _ => Failed ("common methods file not found: " +:+ path)
  | CannotOpen err => Failed ("failed to open common methods file: " +:+ err)
  | FileLines lines scanErr =>
      let methods := foldl scanMethodLine [] lines in
      match scanErr with
      | Some err => Failed ("error reading common methods file: " +:+ err)
      | None => Ok methods
      end
  end.

Definition highPriority : gmap string bool :=
  list_to_map
    (map (fun m => (m, true))
       ["Get"; "List"; "Create"; "Update"; "Delete";
        "GetById"; "GetByName"; "Search"; "Count";
        "Ping"; "Check"; "Status"; "Health"; "Version";
        "Login"; "Logout"; "Authorize"; "Validate";
        "GetConfig"; "SetConfig"; "GetSettings"]).

(** One of the two loops of [getHighPriorityMethods]: the methods that
    [keep] accepts are appended while the result is shorter than [limit]. *)
Fixpoint appendWhile (keep : string -> bool) (limit : Z)
         (result methods : list string) : list string :=
  match methods with
  | [] => result
  | method :: rest =>
      if keep method && (Z.of_nat (length result) <? limit)
      then appendWhile keep limit (result ++ [method]) rest
      else appendWhile keep limit result rest
  end.

Definition getHighPriorityMethods (methods : list string) (limit : Z) : list string :=
  let result :=
    appendWhile (fun m => default false (highPriority !! m)) limit [] methods in
  if (Z.of_nat (length result) <? limit)
  then appendWhile (fun m => negb (default false (highPriority !! m))) limit result methods
  else result.

(** The loop "look for v1 through v10". *)
Fixpoint findVersionIndex (servicePath : string) (candidates : list nat) : Z :=
  match candidates with
  | [] => -1
  | i :: rest =>
      let idx := strings.Index servicePath (versionPattern i) in
      if (0 <=? idx) then idx else findVersionIndex servicePath rest
  end.

(** [mapMethodsForVersionedService]; [rangeOrder] is the order in which
    [for ... := range methodsMap] visits the entries.  [nil] is []. *)
Definition mapMethodsForVersionedService (servicePath : string)
           (methodsMap : gmap string (list string))
           (rangeOrder : list (string * list string)) : list string :=
  match methodsMap !! servicePath with
  | Some methods => methods
  | None =>
      let versionIndex := findVersionIndex servicePath (seq 1 10) in
      if (versionIndex <? 0) then []
      else
        let prefix := strings.upTo (Z.to_nat versionIndex) servicePath in
        let suffix := strings.skip (Z.to_nat (versionIndex + 4)) servicePath in
        match List.find (fun entry => strings.HasPrefix (fst entry) prefix
                                      && strings.HasSuffix (fst entry) suffix)
                        rangeOrder with
        | Some entry => snd entry
        | None => []
        end
  end.

Definition appendBasicMethodsForServiceName (serviceName : string)
           (methods : list string) : list string :=
  let lower := strings.ToLower serviceName in
  methods
  ++ ["Get" +:+ serviceName; "List" +:+ serviceName +:+ "s";
      "Create" +:+ serviceName; "Update" +:+ serviceName; "Delete" +:+ serviceName]
  ++ (if String.eqb lower "user"
      then ["Login"; "Logout"; "Register"; "VerifyEmail"; "ResetPassword"]
      else if String.eqb lower "auth"
      then ["Login"; "Logout"; "Refresh"; "Validate"; "GenerateToken"]
      else if String.eqb lower "file"
      then ["Upload"; "Download"; "Delete"; "List"; "GetInfo"]
      else if String.eqb lower "payment"
      then ["Process"; "Refund"; "GetStatus"; "CalculateTotal"]
      else []).

(** The methods [checkStandardServices] probes for one service path. *)
Definition methodsToProbe (servicePath : string)
           (standardMethods : gmap string (list string))
           (rangeOrder : list (string * list string))
           (commonMethods : list string) (fuzzMethods : bool) (methodLimit : Z)
  : list string :=
  let methods := mapMethodsForVersionedService servicePath standardMethods rangeOrder in
  let methods :=
    if (Z.of_nat (length methods) =? 0)
    then
      if strings.Contains servicePath ".v"
      then appendBasicMethodsForServiceName
             (strings.TrimSuffix (strings.lastField servicePath "."%char) "Service")
             ["Get"]
      else ["Get"]
    else methods in
  if fuzzMethods && (0 <? Z.of_nat (length commonMethods))
  then
    uniqueStrings
      (methods ++
       (if (0 <? methodLimit) && (methodLimit <? Z.of_nat (length commonMethods))
        then getHighPriorityMethods commonMethods methodLimit
        else commonMethods))
  else methods.

(** [checkStandardServices]: the service paths are probed one after the
    other; [callsFor i] answers the calls made for the [i]-th path. *)
Fixpoint standardServicesFrom (i : nat) (callsFor : nat -> nat -> ClientConn)
         (standardServicePaths : list string)
         (standardMethods : gmap string (list string))
         (rangeOrder : list (string * list string))
         (commonMethods : list string) (fuzzMethods : bool) (methodLimit : Z)
         (r : ScanResult) : ScanResult :=
  match standardServicePaths with
  | [] => r
  | servicePath :: rest =>
      standardServicesFrom (S i) callsFor rest standardMethods rangeOrder
        commonMethods fuzzMethods methodLimit
        (checkStandardService (callsFor i) servicePath
           (methodsToProbe servicePath standardMethods rangeOrder
                           commonMethods fuzzMethods methodLimit) r)
  end.

Definition checkStandardServices := standardServicesFrom 0.

(** The test "determine if we need to enable brute force mode
    automatically" of [main]. *)
Definition shouldBruteForce (bruteForce autoEnableBruteForce reflectionEnabled : bool)
           (services : list string) : bool :=
  let n := Z.of_nat (length services) in
  if autoEnableBruteForce && negb reflectionEnabled && (n =? 0) then true
  else if autoEnableBruteForce && (n =? 0) then true
  else if autoEnableBruteForce && negb reflectionEnabled && (n <=? 1) then true
  else bruteForce.

(** *** Health *)

Definition setHealthStatus (r : ScanResult) (h : gmap string string) : ScanResult :=
  mkScanResult (Target r) (AvailableServices r) h (ReflectionEnabled r)
               (MethodsFound r) (Errors r) (Vulnerabilities r).

Definition setErrors (r : ScanResult) (e : gmap string string) : ScanResult :=
  mkScanResult (Target r) (AvailableServices r) (HealthStatus r) (ReflectionEnabled r)
               (MethodsFound r) e (Vulnerabilities r).

Definition setVulnerabilities (r : ScanResult) (v : list string) : ScanResult :=
  mkScanResult (Target r) (AvailableServices r) (HealthStatus r) (ReflectionEnabled r)
               (MethodsFound r) (Errors r) v.

(** [checkHealthService]: [health service] is what
    [healthClient.Check] answers for [service], the error text or the
    status name. *)
Definition checkHealthService (health : string -> Result string) (r : ScanResult)
  : ScanResult :=
  let r1 :=
    match health "" with
    | Failed err => setErrors r (<["health_check" := err]> (Errors r))
    | Ok status => recordHealth (setHealthStatus r (<["" := status]> (HealthStatus r)))
    end in
  foldl (fun r serviceName =>
           match health serviceName with
           | Failed _ => r
           | Ok status => setHealthStatus r (<[serviceName := status]> (HealthStatus r))
           end)
        r1 (AvailableServices r1).

(** *** Vulnerability flags *)

Definition sensitive (service : string) : bool :=
  strings.Contains (strings.ToLower service) "debug"
  || strings.Contains (strings.ToLower service) "admin"
  || strings.Contains (strings.ToLower service) "internal".

(** [checkForVulnerabilities]; [healthOrder] is the order in which
    [range result.HealthStatus] visits the entries. *)
Definition checkForVulnerabilities (healthOrder : list (string * string))
           (r : ScanResult) : ScanResult :=
  let exposed :=
    map (fun service => "Potentially sensitive service exposed: " +:+ service)
        (List.filter sensitive (AvailableServices r)) in
  let reflection :=
    if ReflectionEnabled r
    then ["Server reflection is enabled, which may expose service details"]
    else [] in
  let notServing :=
    map (fun entry =>
           (if String.eqb (fst entry) "" then "Overall server" else fst entry)
           +:+ " reported non-serving health status: " +:+ snd entry)
        (List.filter (fun entry => negb (String.eqb (snd entry) "SERVING")) healthOrder) in
  setVulnerabilities r (Vulnerabilities r ++ exposed ++ reflection ++ notServing).

(** *** Brute force *)

Definition focusedMethods : list string :=
  ["Get"; "List"; "Create"; "Update"; "Delete";
   "Check"; "Ping"; "Status"; "Health"; "Echo";
   "Login"; "Verify"; "Find"; "Search"; "Count"].

(** The first loop of the goroutine: it stops at the first answer that
    does not deny the service. *)
Fixpoint focusedLoop (calls : nat -> ClientConn) (k : nat) (servicePath : string)
         (methods : list string) : bool * list string :=
  match methods with
  | [] => (false, [])
  | method :: rest =>
      match calls k (fullMethodOf servicePath method) with
      | NoError => (true, [method])
      | PlainError _ => focusedLoop calls (S k) servicePath rest
      | StatusError code message =>
          let errMsg := strings.ToLower message in
          if (codes.eqb code codes.Unimplemented || codes.eqb code codes.NotFound)
             && strings.Contains errMsg "service"
             && (strings.Contains errMsg "not found"
                 || strings.Contains errMsg "does not exist"
                 || strings.Contains errMsg "doesn't exist"
                 || strings.Contains errMsg "unknown")
          then focusedLoop calls (S k) servicePath rest
          else (true,
                match code with
                | codes.InvalidArgument | codes.FailedPrecondition
                | codes.OutOfRange | codes.Unauthenticated
                | codes.PermissionDenied => [method]
                | _ => []
                end)
      end
  end.

Definition specificMethodsFor (servicePath : string) : list string :=
  let serviceLower := strings.ToLower servicePath in
  let serviceType :=
    strings.TrimSpace
      (strings.TrimSuffix
         (strings.TrimSuffix
            (strings.TrimSuffix
               (strings.ToLower (strings.lastField servicePath "."%char)) "service")
            "server")
         "api") in
  if strings.Contains serviceLower "user" || String.eqb serviceType "user"
  then ["GetUser"; "CreateUser"; "UpdateUser"; "DeleteUser";
        "Login"; "Logout"; "Register"; "VerifyEmail"; "ResetPassword"]
  else if strings.Contains serviceLower "product" || String.eqb serviceType "product"
  then ["GetProduct"; "ListProducts"; "CreateProduct"; "UpdateProduct"; "DeleteProduct";
        "SearchProducts"; "GetProductDetails"; "GetProductByID"]
  else if strings.Contains serviceLower "auth" || String.eqb serviceType "auth"
  then ["Login"; "Logout"; "Authenticate"; "Authorize"; "ValidateToken";
        "RefreshToken"; "GenerateToken"; "VerifyCredentials"]
  else if strings.Contains serviceLower "ping" || String.eqb serviceType "ping"
  then ["Ping"; "Echo"; "Check"; "Status"; "Health"; "IsAlive"]
  else if strings.Contains serviceLower "hello" || String.eqb serviceType "hello"
  then ["SayHello"; "Hello"; "Greet"; "StreamHello"]
  else [].

(** The second loop: the methods specific to the kind of service. *)
Fixpoint specificLoop (calls : nat -> ClientConn) (k : nat) (servicePath : string)
         (methods : list string) : list string :=
  match methods with
  | [] => []
  | method :: rest =>
      (match calls k (fullMethodOf servicePath method) with
       | NoError => [method]
       | PlainError _ => []
       | StatusError code _ =>
           match code with
           | codes.InvalidArgument | codes.FailedPrecondition
           | codes.Unauthenticated | codes.PermissionDenied
           | codes.Internal => [method]
           | _ => []
           end
       end)
      ++ specificLoop calls (S k) servicePath rest
  end.

(** The goroutine of [bruteForceServices] for one candidate: the locked
    update it performs, if any.  The calls of the second loop are numbered
    after those of the first. *)
Definition bruteForceWorker (calls : nat -> ClientConn) (servicePath : string)
  : list Update :=
  let '(serviceFound, methodsFound) := focusedLoop calls 0 servicePath focusedMethods in
  if serviceFound && (0 <? Z.of_nat (length methodsFound))
  then
    let methodsFound :=
      methodsFound
      ++ specificLoop calls (length focusedMethods) servicePath
                      (specificMethodsFor servicePath) in
    [RecordService servicePath methodsFound]
  else [].

(** *** Candidate names *)

(** [strings.ToUpper(word[:1])]: an ASCII byte is upper-cased; a byte
    above 127 is not valid UTF-8 on its own and comes out as the
    replacement character U+FFFD (three bytes). *)
Definition upperFirstByte (c : ascii) : string :=
  let n := nat_of_ascii c in
  if (n <? 128)%nat
  then String (if ((97 <=? n) && (n <=? 122))%nat then ascii_of_nat (n - 32) else c)
              EmptyString
  else String (ascii_of_nat 239) (String (ascii_of_nat 191)
         (String (ascii_of_nat 189) EmptyString)).

(** [strings.ToUpper(word[:1]) + word[1:]] for a word that is not empty. *)
Definition capitalized (word : string) : string :=
  match word with
  | EmptyString => EmptyString
  | String c rest => upperFirstByte c +:+ rest
  end.

Definition generateDomainSpecificServices : list string :=
  [ "auth.AuthService"; "auth.Authentication"; "auth.Authorization";
    "identity.IdentityService"; "identity.UserIdentity";
    "account.AccountService"; "account.UserAccount";
    "iam.IAMService"; "iam.IdentityService";
    "sso.SSOService"; "oauth.OAuthService" ]
  ++ [ "user.UserService"; "user.UserManagement"; "user.UserProfile";
       "profile.ProfileService"; "profile.UserProfile";
       "member.MemberService"; "member.MemberManagement";
       "customer.CustomerService"; "customer.CustomerProfile" ]
  ++ [ "product.ProductService"; "product.ProductCatalog"; "product.ProductInventory";
       "catalog.CatalogService"; "catalog.ProductCatalog";
       "inventory.InventoryService"; "inventory.StockManagement";
       "order.OrderService"; "order.OrderManagement"; "order.OrderProcessing";
       "cart.CartService"; "cart.ShoppingCart"; "cart.CartManagement";
       "basket.BasketService"; "basket.ShoppingBasket";
       "checkout.CheckoutService"; "checkout.PaymentProcessing";
       "payment.PaymentService"; "payment.TransactionService";
       "shipping.ShippingService"; "shipping.DeliveryService";
       "pricing.PricingService"; "pricing.PriceCalculation" ]
  ++ [ "content.ContentService"; "content.ContentManagement";
       "media.MediaService"; "media.MediaManagement";
       "file.FileService"; "file.FileStorage"; "file.FileManagement";
       "storage.StorageService"; "storage.BlobStorage";
       "image.ImageService"; "image.ImageProcessing";
       "video.VideoService"; "video.VideoStreaming";
       "document.DocumentService"; "document.DocumentManagement" ]
  ++ [ "notification.NotificationService"; "notification.NotificationDelivery";
       "email.EmailService"; "email.EmailDelivery";
       "sms.SMSService"; "sms.TextMessageService";
       "message.MessageService"; "message.MessageDelivery";
       "chat.ChatService"; "chat.ChatRoom"; "chat.LiveChat";
       "push.PushNotificationService"; "push.PushDelivery" ]
  ++ [ "health.HealthService"; "health.HealthCheck";
       "metrics.MetricsService"; "metrics.MetricsCollection";
       "logging.LoggingService"; "logging.LogManagement";
       "monitoring.MonitoringService"; "monitoring.SystemMonitor";
       "diagnostics.DiagnosticsService"; "diagnostics.SystemDiagnostics";
       "status.StatusService"; "status.ServiceStatus";
       "ping.PingService"; "ping.ConnectivityCheck" ]
  ++ [ "search.SearchService"; "search.SearchEngine";
       "query.QueryService"; "query.QueryProcessor";
       "discovery.DiscoveryService"; "discovery.ServiceDiscovery";
       "lookup.LookupService"; "lookup.DataLookup";
       "recommendation.RecommendationService"; "recommendation.Recommender";
       "suggestion.SuggestionService"; "suggestion.AutoSuggest" ]
  ++ [ "config.ConfigService"; "config.ConfigurationManagement";
       "settings.SettingsService"; "settings.UserSettings";
       "system.SystemService"; "system.SystemManagement";
       "platform.PlatformService"; "platform.ServicePlatform";
       "registry.RegistryService"; "registry.ServiceRegistry";
       "proxy.ProxyService"; "proxy.GrpcProxy";
       "gateway.GatewayService"; "gateway.ApiGateway" ].

Definition packagePrefixes : list string :=
  [""; "grpc."; "api."; "service."; "rpc."; "pb."; "proto.";
   "com."; "io."; "org."; "net."; "app."].

Definition serviceSuffixes : list string :=
  [""; "Service"; "API"; "Server"; "Handler"; "Provider";
   "Manager"; "Controller"; "Client"].

Definition knownServices : list string :=
  [ "grpc.reflection.v1alpha.ServerReflection";
    "grpc.reflection.v1.ServerReflection";
    "grpc.health.v1.Health";
    "grpc.gateway.example.HelloService";
    "helloworld.Greeter";
    "routeguide.RouteGuide";
    "example.HelloService";
    "example.EchoService";
    "example.UserService";
    "auth.AuthService";
    "user.UserService";
    "product.ProductService";
    "order.OrderService";
    "payment.PaymentService";
    "ping.PingService";
    "test.TestService" ].

Definition twoLevelPrefixes : list string :=
  [ "api.internal."; "app.services."; "internal.service."; "service.api.";
    "grpc.service."; "api.service."; "rpc.handlers." ].

(** The candidates one word of the wordlist gives, in the order in which
    the loop body appends them. *)
Definition candidatesOfWord (word : string) : list string :=
  let wordCapitalized := capitalized word in
  map (fun suffix => word +:+ suffix) serviceSuffixes
  ++ flat_map (fun prefix =>
       flat_map (fun suffix =>
         if String.eqb prefix "" && String.eqb suffix "" then []
         else (prefix +:+ word +:+ suffix)
              :: (if negb (String.eqb word wordCapitalized)
                  then [prefix +:+ wordCapitalized +:+ suffix] else []))
         serviceSuffixes)
       packagePrefixes
  ++ [ word +:+ ".v1." +:+ wordCapitalized +:+ "Service";
       word +:+ ".v2." +:+ wordCapitalized +:+ "Service";
       "v1." +:+ word +:+ "." +:+ wordCapitalized +:+ "Service";
       "v1." +:+ wordCapitalized +:+ "Service";
       "api." +:+ word +:+ ".v1." +:+ wordCapitalized +:+ "Service" ]
  ++ flat_map (fun prefix =>
       flat_map (fun suffix =>
         [prefix +:+ word +:+ suffix; prefix +:+ wordCapitalized +:+ suffix])
         serviceSuffixes)
       twoLevelPrefixes.

Definition generatePotentialServiceNames (wordlist : list string) : list string :=
  uniqueStrings
    (knownServices
     ++ flat_map (fun word => if String.eqb word "" then [] else candidatesOfWord word)
                 wordlist
     ++ generateDomainSpecificServices).

(** [bruteForceServices]: one goroutine per candidate; [order] lists the
    goroutines in the order in which they reach their locked update.  What
    is modelled is [result] when the function returns, which it does for a
    [concurrency] of 1 or more; with 0 or a negative value it stops at its
    semaphore before any goroutine is started, as [Scanner.semaphore]
    describes, and [result] stays as it was. *)
Definition bruteForceServices (callsFor : nat -> nat -> ClientConn) (order : list nat)
           (wordlist : list string) (r : ScanResult) : ScanResult :=
  let potentialServices := generatePotentialServiceNames wordlist in
  let workers :=
    imap (fun i servicePath => bruteForceWorker (callsFor i) servicePath)
         potentialServices in
  foldl applyUpdate r (flat_map (fun i => default [] (workers !! i)) order).

End Legacy.

(** ** The multi-target detector (cmd_detect.go) *)

Module connectivity.
Inductive State : Set := Idle | Connecting | Ready | TransientFailure | Shutdown.

Definition String (s : State) : string :=
  match s with
  | Idle => "IDLE"
  | Connecting => "CONNECTING"
  | Ready => "READY"
  | TransientFailure => "TRANSIENT_FAILURE"
  | Shutdown => "SHUTDOWN"
  end.
End connectivity.

Module Detect.

Record DetectResult : Type := mkDetectResult {
  Target : string;
  IsGRPC : bool;
  Error : string;
  Latency : Z;
  Timestamp : Z
}.

(** [grpc.DialContext(ctx, target, ..., grpc.WithBlock())]: an error with
    its text, or a connection in some state. *)
Inductive DialResult : Type :=
| DialError (text : string)
| Dialed (state : connectivity.State) (conn : ClientConn).

(** [now] is the clock at entry; [since] is [time.Since(startTime)] at
    the return that is taken. *)
Definition checkGRPCService (dial : string -> DialResult) (now since : Z)
           (target : string) : DetectResult :=
  let result := mkDetectResult target false "" 0 now in
  let target := if negb (strings.Contains target ":") then target +:+ ":443" else target in
  match dial target with
  | DialError text =>
      mkDetectResult (Target result) (IsGRPC result) text since (Timestamp result)
  | Dialed state conn =>
      match state with
      | connectivity.TransientFailure | connectivity.Shutdown =>
          mkDetectResult (Target result) (IsGRPC result)
                         ("Connection failed: " +:+ connectivity.String state)
                         since (Timestamp result)
      | _ =>
          match conn "/grpc.health.v1.Health/Check" with
          | NoError =>
              mkDetectResult (Target result) true (Error result) since (Timestamp result)
          | StatusError _ _ =>
              mkDetectResult (Target result) true (Error result) since (Timestamp result)
          | PlainError _ =>
              mkDetectResult (Target result) (IsGRPC result) "Non-gRPC response"
                             since (Timestamp result)
          end
      end
  end.

(** The loop of [runDetectCommand] that reads targets from a file or from
    standard input. *)
Definition scanTargetLine (targets : list string) (text : string) : list string :=
  let line := strings.TrimSpace text in
  if negb (String.eqb line "") && negb (strings.HasPrefix line "#")
  then targets ++ [line] else targets.

(** The block "collect targets" of [runDetectCommand]: [targetsFile] is
    read when its name is given, standard input when nothing else is;
    [Failed] stands for [log.Fatalf]. *)
Definition collectTargets (singleTarget targetsFile : string)
           (file stdin : TextFile) : Result (list string) :=
  let targets := if negb (String.eqb singleTarget "") then [singleTarget] else [] in
  let fromFile :=
    if negb (String.eqb targetsFile "")
    then
      match file with
      | CannotOpen err => Failed ("Failed to open targets file: " +:+ err)
      | NotFound _ err => Failed ("Failed to open targets file: " +:+ err)
      | FileLines lines (Some err) => Failed ("Error reading targets file: " +:+ err)
      | FileLines lines None => Ok (foldl scanTargetLine targets lines)
      end
    else Ok targets in
  match fromFile with
  | Failed err => Failed err
  | Ok targets =>
      let fromStdin :=
        if (Z.of_nat (length targets) =? 0)
           && String.eqb targetsFile "" && String.eqb singleTarget ""
        then
          match stdin with
          | CannotOpen err => Failed ("Error reading from stdin: " +:+ err)
          | NotFound _ err => Failed ("Error reading from stdin: " +:+ err)
          | FileLines lines (Some err) => Failed ("Error reading from stdin: " +:+ err)
          | FileLines lines None => Ok (foldl scanTargetLine targets lines)
          end
        else Ok targets in
      match fromStdin with
      | Failed err => Failed err
      | Ok targets =>
          if (Z.of_nat (length targets) =? 0)
          then Failed "No targets provided. Use -target, -targets, or provide input via stdin"
          else Ok targets
      end
  end.

End Detect.

(** ** Reference definitions *)

(** The specification's "deduplicated while preserving first occurrence":
    every element is kept where it occurs first. *)
Fixpoint firstOccurrences (l : list string) : list string :=
  match l with
  | [] => []
  | x :: rest => x :: filter (fun y => y <> x) (firstOccurrences rest)
  end.

(** The "no duplicates" invariant of a result: the service list and every
    method list hold each name at most once. *)
Definition NoDuplicates (services : list string)
           (methods : gmap string (list string)) : Prop :=
  NoDup services /\ map_Forall (fun _ ms => NoDup ms) methods.

(** "Referential integrity": every key of the method map is a service. *)
Definition KeysAreServices (services : list string)
           (methods : gmap string (list string)) : Prop :=
  forall service, service ∈ dom methods -> service ∈ services.

Definition Clean (r : Scanner.ScanResult) : Prop :=
  NoDuplicates (Scanner.AvailableServices r) (Scanner.MethodsFound r).

Definition LegacyClean (r : Legacy.ScanResult) : Prop :=
  NoDuplicates (Legacy.AvailableServices r) (Legacy.MethodsFound r).

Definition Integrity (r : Scanner.ScanResult) : Prop :=
  KeysAreServices (Scanner.AvailableServices r) (Scanner.MethodsFound r).

Definition LegacyIntegrity (r : Legacy.ScanResult) : Prop :=
  KeysAreServices (Legacy.AvailableServices r) (Legacy.MethodsFound r).

(** A goroutine's updates are guarded by the services [known] so far when
    every [AddMethod] names a service that is known or that the goroutine
    itself added earlier. *)
Fixpoint guardedBy (known : list string) (us : list Scanner.Update) : Prop :=
  match us with
  | [] => True
  | Scanner.AddService service _ :: rest => guardedBy (service :: known) rest
  | Scanner.AddMethod service _ :: rest => service ∈ known /\ guardedBy known rest
  end.

(** Every way the goroutines can take turns: at each step one goroutine
    that has an update left performs it. *)
Inductive Interleaving : list (list Scanner.Update) -> list Scanner.Update -> Prop :=
| Interleaving_done workers :
    Forall (fun w => w = []) workers -> Interleaving workers []
| Interleaving_step workers i u us t :
    workers !! i = Some (u :: us) ->
    Interleaving (<[i := us]> workers) t ->
    Interleaving workers (u :: t).

(** The number of places at which [substr] occurs in [s]. *)
Fixpoint countOccurrences (s substr : string) : nat :=
  ((if strings.HasPrefix s substr then 1 else 0) +
   match s with
   | EmptyString => 0
   | String _ s' => countOccurrences s' substr
   end)%nat.

(** The number of version segments [.vN.], [1 <= N <= maxVersion], of a
    service path, counted with their places. *)
Definition versionSegments (maxVersion : Z) (servicePath : string) : nat :=
  sum_list_with (fun i => countOccurrences servicePath (Legacy.versionPattern i))
                (Legacy.versionsUpTo maxVersion).

Definition singleVersioned (maxVersion : Z) (servicePath : string) : Prop :=
  (versionSegments maxVersion servicePath <= 1)%nat.

(** The candidate paths as a set. *)
Definition candidateSet (paths : list string) : gset string := list_to_set paths.

Fixpoint noDot (s : string) : bool :=
  match s with
  | EmptyString => true
  | String c s' => negb (Ascii.eqb c ".") && noDot s'
  end.

(** A server that answers every call the same way. *)
Definition constConn (answer : InvokeResult) : ClientConn := fun _ => answer.

(** The Kelvin sign U+212A, in UTF-8 the bytes E2 84 AA. *)
Definition kelvinSign : string := String "226" (String "132" (String "170" "")).

(** The letters U+00DC and U+00FC (U with diaeresis, capital and small) and
    U+0130 (capital I with dot above), in UTF-8. *)
Definition capitalUDiaeresis : string := String "195" (String "156" "").
Definition smallUDiaeresis : string := String "195" (String "188" "").
Definition capitalIDotAbove : string := String "196" (String "176" "").

(** A closed port: the dial fails with the text of the context error. *)
Definition refusedDial : string -> Detect.DialResult :=
  fun _ => Detect.DialError "context deadline exceeded".

(** *** A sample target

    A server with the health service and [user.UserService], whose
    [Login] asks for credentials; reflection is not installed. *)
Definition sampleServer : ClientConn := fun fullMethod =>
  if String.eqb fullMethod "/grpc.health.v1.Health/Check" then NoError
  else if String.eqb fullMethod "/user.UserService/Login"
  then StatusError codes.Unauthenticated "missing token"
  else if strings.HasPrefix fullMethod "/user.UserService/"
  then StatusError codes.Unimplemented "unknown method"
  else StatusError codes.Unimplemented "unknown service".

Definition sampleEnv : Scanner.Env :=
  Scanner.mkEnv None true (fun _ => sampleServer)
    (RecvFailed (StatusError codes.Unimplemented
                   "unknown service grpc.reflection.v1alpha.ServerReflection"))
    (FileLines ["# users"; ""; "User:Login,Register"; "*GetById"] None)
    ["GetById"; "Get"; "List"; "Create"; "Update"; "Delete";
     "Find"; "Search"; "Query"; "Check"; "Ping"]
    (fun _ _ => sampleServer)
    10
    [0; 0; 0]%nat.

(** The sample target with a reflection service that lists nothing. *)
Definition emptyReflectionEnv : Scanner.Env :=
  Scanner.mkEnv None true (fun _ => sampleServer) (Received (Some []))
    (FileLines ["User:Login,Register"] None) [] (fun _ _ => sampleServer) 10 [].

(** An answer that says nothing about the path: no gRPC status at all, or
    the status UNAVAILABLE. *)
Definition inconclusive (answer : InvokeResult) : bool :=
  match answer with
  | PlainError _ => true
  | StatusError codes.Unavailable _ => true
  | _ => false
  end.

(** The same scan under another order of the goroutines. *)
Definition withSchedule (env : Scanner.Env) (schedule : list nat) : Scanner.Env :=
  Scanner.mkEnv (Scanner.dialError env) (Scanner.connected env) (Scanner.calls env)
                (Scanner.reflection env) (Scanner.wordlistFile env)
                (Scanner.rangeOrder env) (Scanner.workerCalls env)
                (Scanner.threads env) schedule.

(** Two results that list the same services and methods. *)
Definition sameLists (r r' : Scanner.ScanResult) : Prop :=
  Scanner.AvailableServices r = Scanner.AvailableServices r' /\
  Scanner.MethodsFound r = Scanner.MethodsFound r'.

(** The methods recorded for a service; none when the key is missing. *)
Definition methodsOf (r : Scanner.ScanResult) (service : string) : list string :=
  default [] (Scanner.MethodsFound r !! service).

(** Two results with the same services, the same keys and the same
    methods under every key, in whatever order. *)
Definition sameContents (r r' : Scanner.ScanResult) : Prop :=
  (forall x, x ∈ Scanner.AvailableServices r <-> x ∈ Scanner.AvailableServices r') /\
  (forall s, s ∈ dom (Scanner.MethodsFound r) <-> s ∈ dom (Scanner.MethodsFound r')) /\
  (forall s m, m ∈ methodsOf r s <-> m ∈ methodsOf r' s).

(** The updates [tryReflection] performs. *)
Definition reflectionUpdates (stream : ReflectionStream) : list Scanner.Update :=
  match stream with
  | Received (Some services) =>
      map (fun name => Scanner.AddService name "reflection") services
  | _ => []
  end.

(** The sample target with a reflection service that lists two services. *)
Definition reflectingEnv : Scanner.Env :=
  Scanner.mkEnv None true (fun _ => sampleServer)
    (Received (Some ["grpc.health.v1.Health"; "user.UserService"]))
    (FileLines [] None) [] (fun _ _ => sampleServer) 10 [].

(** A string that does not start with white space. *)
Definition startsSolid (s : string) : Prop := strings.leadingSpace s = 0%nat.

(** * Theorems *)


(** ** A scan of the sample target *)

Example Run_sample :
  let '(err, r) := Scanner.Run "users.txt" sampleEnv
                               (Scanner.newScanResult "localhost:50051" "") in
  err = Scanner.Returns None /\
  Scanner.AvailableServices r = ["grpc.health.v1.Health"; "user.UserService"] /\
  Scanner.MethodsFound r !! "grpc.health.v1.Health" = Some ["Check"] /\
  Scanner.MethodsFound r !! "user.UserService" = Some ["Login"] /\
  Scanner.ReflectionEnabled r = false /\
  Scanner.ScanMode r = "wordlist".
Proof. vm_compute. repeat split. Qed.

(** The flag set by [tryReflection] on an empty list is the flag of the
    finished scan. *)
Example Run_empty_reflection :
  let '(err, r) := Scanner.Run "users.txt" emptyReflectionEnv
                               (Scanner.newScanResult "localhost:50051" "") in
  err = Scanner.Returns None /\
  Scanner.ReflectionEnabled r = true /\
  Scanner.AvailableServices r = ["grpc.health.v1.Health"; "user.UserService"] /\
  Scanner.ScanMode r = "wordlist".
Proof. vm_compute. repeat split. Qed.

(** Every smart pattern has a first method to probe. *)
Lemma generateSmartPatterns_have_methods :
  Forall (fun p => Scanner.PMethods p <> []) Scanner.generateSmartPatterns.
Proof.
  apply Forall_forall. intros p Hp.
  assert (H : forallb (fun p => negb (Nat.eqb (length (Scanner.PMethods p)) 0))
                      Scanner.generateSmartPatterns = true) by (vm_compute; reflexivity).
  rewrite forallb_forall in H. apply list_elem_of_In in Hp. specialize (H p Hp).
  intros E. now rewrite E in H.
Qed.

(** ** The method oracle of the scanner *)

Section Oracle.
Variable conn : ClientConn.
Variables service method : string.

Lemma checkService_status code message :
  conn (fullMethodOf service method) = StatusError code message ->
  Scanner.checkService conn service method =
    if codes.eqb code codes.Unimplemented
       && strings.Contains (strings.ToLower message) "unknown service"
    then false
    else if codes.eqb code codes.Unimplemented
            && strings.Contains (strings.ToLower message) "unknown method"
    then true
    else match code with
         | codes.InvalidArgument | codes.FailedPrecondition
         | codes.Unauthenticated | codes.PermissionDenied
         | codes.Internal => true
         | _ => false
         end.
Proof. intros H. unfold Scanner.checkService. now rewrite H. Qed.

(** C1 (amended): a probe answered UNIMPLEMENTED with a message that
    contains neither "unknown service" nor "unknown method" (substring
    match on the message lower-cased by [strings.ToLower]) makes
    [checkService] return false: the service is not classified as present
    by that probe.  On UNIMPLEMENTED [checkService] returns true exactly
    when the lower-cased message contains "unknown method" and does not
    contain "unknown service". *)
Theorem checkService_unimplemented_unqualified (message : string) :
  conn (fullMethodOf service method) = StatusError codes.Unimplemented message ->
  (strings.Contains (strings.ToLower message) "unknown service" = false ->
   strings.Contains (strings.ToLower message) "unknown method" = false ->
   Scanner.checkService conn service method = false) /\
  (Scanner.checkService conn service method = true <->
   strings.Contains (strings.ToLower message) "unknown service" = false /\
   strings.Contains (strings.ToLower message) "unknown method" = true).
Proof.
  intros Hresp. rewrite (checkService_status _ _ Hresp). simpl.
  destruct (strings.Contains (strings.ToLower message) "unknown service");
    destruct (strings.Contains (strings.ToLower message) "unknown method");
    simpl; split; try done; split; try done; intros [? ?]; done.
Qed.

Lemma checkService_unknown_method (message : string) :
  conn (fullMethodOf service method) = StatusError codes.Unimplemented message ->
  strings.Contains (strings.ToLower message) "unknown service" = false ->
  strings.Contains (strings.ToLower message) "unknown method" = true ->
  Scanner.checkService conn service method = true.
Proof.
  intros Hresp Hsvc Hmeth.
  rewrite (checkService_status _ _ Hresp), Hsvc, Hmeth.
  reflexivity.
Qed.

Lemma checkService_unknown_service (message : string) :
  conn (fullMethodOf service method) = StatusError codes.Unimplemented message ->
  strings.Contains (strings.ToLower message) "unknown service" = true ->
  Scanner.checkService conn service method = false.
Proof.
  intros Hresp Hsvc.
  rewrite (checkService_status _ _ Hresp), Hsvc.
  reflexivity.
Qed.

(** Whatever confirms a method also confirms its service. *)
Lemma checkMethod_checkService :
  (forall message,
      conn (fullMethodOf service method) <> StatusError codes.Unimplemented message) ->
  Scanner.checkMethod conn service method = true ->
  Scanner.checkService conn service method = true.
Proof.
  unfold Scanner.checkMethod, Scanner.checkService.
  destruct (conn (fullMethodOf service method)) as [|code message|text];
    intros Hne H; try done.
  destruct code; simpl in *; try done.
Qed.
End Oracle.

Lemma checkService_unimplemented_unqualified_witness :
  let conn := constConn (StatusError codes.Unimplemented "not implemented") in
  Scanner.checkService conn "pkg.UserService" "Get" = false /\
  (Scanner.checkService conn "pkg.UserService" "Get" = true <->
   strings.Contains (strings.ToLower "not implemented") "unknown service" = false /\
   strings.Contains (strings.ToLower "not implemented") "unknown method" = true).
Proof.
  destruct (checkService_unimplemented_unqualified
              (constConn (StatusError codes.Unimplemented "not implemented"))
              "pkg.UserService" "Get" "not implemented" eq_refl) as [Hfalse Hiff].
  split; [apply Hfalse; reflexivity | exact Hiff].
Defined.

(** The message is lower-cased as Go does it, letter by letter over all of
    Unicode: the Kelvin sign (U+212A) becomes [k], and an UNIMPLEMENTED
    answer whose message is "unknown method" written with it confirms the
    service. *)
Example checkService_kelvin_sign :
  strings.ToLower ("un" +:+ kelvinSign +:+ "nown method") = "unknown method" /\
  Scanner.checkService
    (constConn (StatusError codes.Unimplemented
                            ("un" +:+ kelvinSign +:+ "nown method")))
    "pkg.UserService" "Get" = true.
Proof. split; reflexivity. Qed.

(** C1 as stated fails: the terse UNIMPLEMENTED answer meets both
    conditions on the message, [checkService] does not return true, and the
    wordlist goroutine records nothing for the entry. *)
Lemma checkService_unimplemented_not_present :
  let conn := constConn (StatusError codes.Unimplemented "not implemented") in
  strings.Contains (strings.ToLower "not implemented") "unknown service" = false /\
  strings.Contains (strings.ToLower "not implemented") "unknown method" = false /\
  Scanner.checkService conn "pkg.UserService" "Get" <> true /\
  Scanner.wordlistWorker (fun _ => conn) Scanner.builtinDefaultMethods
    (Scanner.mkWordlistEntry "pkg.UserService" ["Get"]) = [].
Proof. repeat split; try reflexivity. discriminate. Qed.

(** C4: on OUT_OF_RANGE both [checkService] and [checkMethod] of the
    scanner return false, so neither the service nor the method is
    recorded; the stand-alone scanner's [checkStandardServices] counts the
    same answer as service found and method confirmed. *)
Theorem out_of_range_not_confirmed :
  let conn := constConn (StatusError codes.OutOfRange "index out of range") in
  Scanner.checkService conn "pkg.UserService" "GetUser" = false /\
  Scanner.checkMethod conn "pkg.UserService" "GetUser" = false /\
  Scanner.wordlistWorker (fun _ => conn) Scanner.builtinDefaultMethods
    (Scanner.mkWordlistEntry "pkg.UserService" ["GetUser"]) = [] /\
  Legacy.probeMethods (fun _ => conn) 0 "pkg.UserService" ["GetUser"]
                      (Legacy.mkProbe false [] false)
  = Legacy.mkProbe true ["GetUser"] false.
Proof. repeat split; reflexivity. Qed.

(** The answer does not depend on the path, the message or the call. *)
Lemma out_of_range_rejected conn service method message :
  conn (fullMethodOf service method) = StatusError codes.OutOfRange message ->
  Scanner.checkService conn service method = false /\
  Scanner.checkMethod conn service method = false.
Proof.
  intros H. unfold Scanner.checkService, Scanner.checkMethod. now rewrite H.
Qed.

(** ** The transport probe *)

(** C3 as stated fails: a health check answered UNAVAILABLE carries a gRPC
    status, and [detectServiceType] says "not gRPC". *)
Lemma detectServiceType_unavailable :
  Scanner.detectServiceType
    (constConn (StatusError codes.Unavailable "upstream connect error"))
  = (false, "Service unavailable").
Proof. reflexivity. Qed.

(** C3 (amended): [detectServiceType] classifies the peer as gRPC exactly
    when the health check succeeds or fails with a gRPC status other than
    UNAVAILABLE; [checkGRPCService] classifies it as gRPC exactly when the
    dial succeeds, the connection is neither in TRANSIENT_FAILURE nor in
    SHUTDOWN, and the health check succeeds or fails with any gRPC status,
    UNAVAILABLE included. *)
Theorem is_grpc_classification :
  (forall conn : ClientConn,
      fst (Scanner.detectServiceType conn) = true <->
      (conn "/grpc.health.v1.Health/Check" = NoError \/
       exists code message,
         conn "/grpc.health.v1.Health/Check" = StatusError code message /\
         code <> codes.Unavailable)) /\
  (forall dial now since target,
      Detect.IsGRPC (Detect.checkGRPCService dial now since target) = true <->
      exists state conn,
        dial (if negb (strings.Contains target ":") then target +:+ ":443" else target)
        = Detect.Dialed state conn /\
        state <> connectivity.TransientFailure /\
        state <> connectivity.Shutdown /\
        (conn "/grpc.health.v1.Health/Check" = NoError \/
         exists code message,
           conn "/grpc.health.v1.Health/Check" = StatusError code message)).
Proof.
  split.
  - intros conn. unfold Scanner.detectServiceType.
    destruct (conn "/grpc.health.v1.Health/Check") as [|code message|text].
    + simpl. split; [intros _; now left | done].
    + split.
      * intros H. right. exists code, message. split; [done|].
        intros ->. simpl in H. discriminate.
      * intros [Hno | (c & m & Heq & Hne)]; [discriminate|].
        injection Heq as <- <-.
        destruct code; try done;
          destruct (strings.Contains message "unknown service"); done.
    + split.
      * intros H.
        destruct (strings.Contains text "HTTP");
          [|destruct (strings.Contains text "connection refused")];
          simpl in H; discriminate.
      * intros [Hno | (c & m & Heq & _)]; discriminate.
  - intros dial now since target. unfold Detect.checkGRPCService.
    set (target' := if negb (strings.Contains target ":") then _ else _).
    destruct (dial target') as [text|state conn] eqn:Hdial.
    + simpl. split; [discriminate | intros (s & c & Heq & _); discriminate].
    + split.
      * intros H. exists state, conn. split; [done|].
        destruct state; simpl in H; try discriminate;
          (split; [done|split; [done|]]);
          destruct (conn "/grpc.health.v1.Health/Check") as [|code message|text];
          simpl in H; try discriminate; eauto.
      * intros (s & c & Heq & Hs1 & Hs2 & Hr). injection Heq as <- <-.
        destruct state; try done;
          destruct Hr as [-> | (code & message & ->)]; reflexivity.
Qed.

(** ** The multi-target detector *)

(** C10: when a failed dial reports a non-empty error text, the result of
    [checkGRPCService] has [IsGRPC = true] exactly when [Error] is empty, and
    [Latency] holds the time elapsed at the return, on every path: a failed
    dial gives [IsGRPC = false] with the dial's error text, a connection in
    state TRANSIENT_FAILURE or SHUTDOWN gives [IsGRPC = false] with the error
    "Connection failed: " and the state, an answer to the health check that
    is no gRPC status gives [IsGRPC = false] with the error "Non-gRPC
    response", and every other answer gives [IsGRPC = true] with no error. *)
Theorem checkGRPCService_error_iff_not_grpc
        (dial : string -> Detect.DialResult) (now since : Z) (target : string) :
  (forall t text, dial t = Detect.DialError text -> text <> "") ->
  let dialed :=
    if negb (strings.Contains target ":") then target +:+ ":443" else target in
  let result := Detect.checkGRPCService dial now since target in
  (Detect.IsGRPC result = true <-> Detect.Error result = "") /\
  Detect.Latency result = since /\
  (forall text,
      dial dialed = Detect.DialError text ->
      Detect.IsGRPC result = false /\ Detect.Error result = text /\
      Detect.Error result <> "") /\
  (forall state conn,
      dial dialed = Detect.Dialed state conn ->
      state = connectivity.TransientFailure \/ state = connectivity.Shutdown ->
      Detect.IsGRPC result = false /\
      Detect.Error result = "Connection failed: " +:+ connectivity.String state /\
      Detect.Error result <> "") /\
  (forall state conn,
      dial dialed = Detect.Dialed state conn ->
      state <> connectivity.TransientFailure -> state <> connectivity.Shutdown ->
      match conn "/grpc.health.v1.Health/Check" with
      | PlainError _ =>
          Detect.IsGRPC result = false /\ Detect.Error result = "Non-gRPC response"
      | _ => Detect.IsGRPC result = true /\ Detect.Error result = ""
      end) /\
  Detect.Target result = target /\ Detect.Timestamp result = now.
Proof.
  intros Hdial dialed result. subst result. unfold Detect.checkGRPCService.
  fold dialed.
  destruct (dial dialed) as [text|state conn] eqn:Hd.
  - simpl. split; [|split; [reflexivity|]].
    { split; [discriminate|]. intros ->. now apply Hdial in Hd. }
    split; [|split; [discriminate | split; [discriminate | done]]].
    intros text' [= <-]. split; [done|]. split; [done|]. now apply Hdial in Hd.
  - assert (Hcases :
      state = connectivity.TransientFailure \/ state = connectivity.Shutdown \/
      (state <> connectivity.TransientFailure /\ state <> connectivity.Shutdown)).
    { destruct state; auto; right; right; split; discriminate. }
    destruct Hcases as [-> | [-> | [Hne1 Hne2]]].
    + simpl. split; [split; discriminate|]. split; [reflexivity|].
      split; [discriminate|]. split; [|split; [|done]].
      * intros state conn' [= <- <-] _. split; [done|]. split; [done | discriminate].
      * intros state conn' [= <- <-] H. congruence.
    + simpl. split; [split; discriminate|]. split; [reflexivity|].
      split; [discriminate|]. split; [|split; [|done]].
      * intros state conn' [= <- <-] _. split; [done|]. split; [done | discriminate].
      * intros state conn' [= <- <-] _ H. congruence.
    + assert (Hbody :
        match state with
        | connectivity.TransientFailure | connectivity.Shutdown =>
            Detect.mkDetectResult target false
              ("Connection failed: " +:+ connectivity.String state) since now
        | _ =>
            match conn "/grpc.health.v1.Health/Check" with
            | NoError => Detect.mkDetectResult target true "" since now
            | StatusError _ _ => Detect.mkDetectResult target true "" since now
            | PlainError _ =>
                Detect.mkDetectResult target false "Non-gRPC response" since now
            end
        end
        = match conn "/grpc.health.v1.Health/Check" with
          | PlainError _ =>
              Detect.mkDetectResult target false "Non-gRPC response" since now
          | _ => Detect.mkDetectResult target true "" since now
          end).
      { destruct state; try congruence;
          now destruct (conn "/grpc.health.v1.Health/Check"). }
      simpl. rewrite Hbody.
      split; [|split; [|split; [discriminate|split; [|split]]]].
      * destruct (conn "/grpc.health.v1.Health/Check"); simpl;
          split; (reflexivity || discriminate).
      * now destruct (conn "/grpc.health.v1.Health/Check").
      * intros state' conn' [= <- <-] [H|H]; congruence.
      * intros state' conn' [= <- <-] _ _.
        now destruct (conn "/grpc.health.v1.Health/Check").
      * now destruct (conn "/grpc.health.v1.Health/Check").
Qed.

Lemma checkGRPCService_error_iff_not_grpc_witness :
  let result := Detect.checkGRPCService refusedDial 0 2000000000 "closed.example" in
  (Detect.IsGRPC result = true <-> Detect.Error result = "") /\
  Detect.Latency result = 2000000000 /\
  Detect.IsGRPC result = false /\
  Detect.Error result = "context deadline exceeded".
Proof.
  assert (Hdial : forall t text, refusedDial t = Detect.DialError text -> text <> "").
  { intros t text H. unfold refusedDial in H. injection H as <-. discriminate. }
  destruct (checkGRPCService_error_iff_not_grpc
              refusedDial 0 2000000000 "closed.example" Hdial)
    as (Hiff & Hlatency & Hfailed & _).
  destruct (Hfailed "context deadline exceeded" eq_refl) as (Hgrpc & Herror & _).
  exact (conj Hiff (conj Hlatency (conj Hgrpc Herror))).
Defined.

Example checkGRPCService_default_port :
  Detect.checkGRPCService
    (fun t => if String.eqb t "grpc.example:443"
              then Detect.Dialed connectivity.Ready
                     (constConn (StatusError codes.Unimplemented "unknown service grpc.health.v1.Health"))
              else Detect.DialError "dial failed")
    7 12 "grpc.example"
  = Detect.mkDetectResult "grpc.example" true "" 12 7.
Proof. reflexivity. Qed.

(** ** The reflection probe *)

Lemma applyUpdates_ReflectionEnabled us : forall r,
  Scanner.ReflectionEnabled (Scanner.applyUpdates r us) = Scanner.ReflectionEnabled r.
Proof.
  unfold Scanner.applyUpdates.
  induction us as [|u us IH]; intros r; [reflexivity|].
  simpl. rewrite IH. destruct u as [service source|service method]; simpl.
  - unfold Scanner.addService. now destruct (existsb _ _).
  - unfold Scanner.addMethod. now destruct (existsb _ _).
Qed.

(** [tryReflection] switches the flag on for every list response. *)
Lemma tryReflection_enabled_iff r stream :
  Scanner.ReflectionEnabled r = false ->
  Scanner.ReflectionEnabled (snd (Scanner.tryReflection r stream)) = true <->
  exists services, stream = Received (Some services).
Proof.
  intros Hr. destruct stream as [| |err|[services|]]; simpl.
  - rewrite Hr. split; [discriminate | intros [? ?]; discriminate].
  - rewrite Hr. split; [discriminate | intros [? ?]; discriminate].
  - rewrite Hr. split; [discriminate | intros [? ?]; discriminate].
  - rewrite applyUpdates_ReflectionEnabled. simpl. split; eauto.
  - rewrite Hr. split; [discriminate | intros [? ?]; discriminate].
Qed.

(** The stand-alone scanner sets the flag exactly for a non-empty list. *)
Lemma mainReflection_enabled_iff r stream :
  Legacy.ReflectionEnabled (Legacy.mainReflection stream r) = true <->
  exists services, stream = Received (Some services) /\ services <> [].
Proof.
  destruct stream as [| |err|[services|]]; simpl.
  - split; [discriminate | intros (? & ? & _); discriminate].
  - split; [discriminate | intros (? & ? & _); discriminate].
  - assert (Hfalse : Legacy.ReflectionEnabled (Legacy.mainReflection (RecvFailed err) r)
                     = false).
    { destruct err as [|code message|text]; try reflexivity.
      simpl. destruct (_ && _); reflexivity. }
    change (Legacy.ReflectionEnabled (Legacy.mainReflection (RecvFailed err) r) = true
            <-> exists services, RecvFailed err = Received (Some services) /\ services <> []).
    rewrite Hfalse.
    split; [discriminate | intros (? & ? & _); discriminate].
  - destruct services as [|s l]; simpl.
    + split; [discriminate | intros (? & Heq & Hne)].
      injection Heq as <-. done.
    + split; [intros _; eexists; split; [reflexivity | discriminate] | reflexivity].
  - split; [discriminate | intros (? & ? & _); discriminate].
Qed.

(** C2: a reflection stream that opens and answers ListServices with zero
    services makes [tryReflection] return true and set
    [ReflectionEnabled = true]; the stand-alone scanner's reflection block
    leaves the flag false on the same stream. *)
Theorem tryReflection_empty_list_enabled :
  (forall r : Scanner.ScanResult,
      Scanner.tryReflection r (Received (Some []))
      = (true, Scanner.setReflectionEnabled r true)) /\
  (forall r : Legacy.ScanResult,
      Legacy.ReflectionEnabled (Legacy.mainReflection (Received (Some [])) r) = false).
Proof. split; intros r; reflexivity. Qed.

(** ** The wordlist loader *)

Lemma scanLine_ignored acc text :
  strings.TrimSpace text = "" \/
  strings.HasPrefix (strings.TrimSpace text) "#" = true \/
  strings.HasPrefix (strings.TrimSpace text) "//" = true ->
  Scanner.scanLine acc text = acc.
Proof.
  intros H. unfold Scanner.scanLine. destruct acc as [entries globalMethods].
  destruct H as [-> | [-> | ->]]; [reflexivity | |].
  - now rewrite orb_true_r.
  - now rewrite orb_true_r.
Qed.

(** Blank lines and lines that start with [#] or [//] change nothing. *)
Lemma loadEnhancedWordlist_skips before text after :
  strings.TrimSpace text = "" \/
  strings.HasPrefix (strings.TrimSpace text) "#" = true \/
  strings.HasPrefix (strings.TrimSpace text) "//" = true ->
  Scanner.loadEnhancedWordlist (FileLines (before ++ text :: after) None)
  = Scanner.loadEnhancedWordlist (FileLines (before ++ after) None).
Proof.
  intros H. unfold Scanner.loadEnhancedWordlist.
  rewrite !foldl_app. simpl. now rewrite (scanLine_ignored _ _ H).
Qed.

(** C9: the loader keeps an inline trailing comment.  A line of the
    bundled wordlist, an entry followed by [# Account management], is read
    as one service name that still holds the blanks and the comment, and
    differs from what the bare entry gives; a comment after a method list
    ends up in the last method.  The loader of the stand-alone scanner
    cuts the same line at the [#]. *)
Theorem loadEnhancedWordlist_keeps_inline_comment :
  Scanner.loadEnhancedWordlist
    (FileLines
       ["account.v1.AccountService                # Account management"] None)
  = Ok
      ([Scanner.mkWordlistEntry
          "account.v1.AccountService                # Account management" []], [])
  /\
  Scanner.loadEnhancedWordlist (FileLines ["account.v1.AccountService"] None)
  = Ok ([Scanner.mkWordlistEntry "account.v1.AccountService" []], [])
  /\
  Scanner.loadEnhancedWordlist
    (FileLines ["UserService:Login,Register # accounts"] None)
  = Ok ([Scanner.mkWordlistEntry "UserService" ["Login"; "Register # accounts"]], [])
  /\
  Legacy.loadServicePathsFromFile
    (FileLines
       ["account.v1.AccountService                # Account management"] None)
  = Ok ["account.v1.AccountService"].
Proof. repeat split; reflexivity. Qed.

(** ** Lists without duplicates *)

Lemma existsb_eqb_elem_of (l : list string) (x : string) :
  existsb (fun existing => String.eqb existing x) l = true <-> x ∈ l.
Proof.
  rewrite existsb_exists, list_elem_of_In. split.
  - intros (y & Hin & Heq). apply String.eqb_eq in Heq. now subst.
  - intros Hin. exists x. split; [done | apply String.eqb_refl].
Qed.

Lemma contains_elem_of (slice : list string) (item : string) :
  Legacy.contains slice item = true <-> item ∈ slice.
Proof.
  induction slice as [|s rest IH]; simpl.
  - split; [discriminate | intros H; inversion H].
  - rewrite elem_of_cons. destruct (String.eqb_spec s item) as [->|Hne].
    + split; auto.
    + rewrite IH. split; [auto | intros [->|H]; done].
Qed.

Lemma NoDup_snoc_fresh (l : list string) (x : string) :
  NoDup l -> x ∉ l -> NoDup (l ++ [x]).
Proof.
  intros Hl Hx. apply NoDup_app. repeat split; [done | | apply NoDup_singleton].
  intros y Hy Hyx. apply list_elem_of_singleton in Hyx. now subst.
Qed.

Lemma uniqueFrom_spec (input : list string) : forall seen : gmap string bool,
  NoDup (Legacy.uniqueFrom seen input) /\
  forall x, x ∈ Legacy.uniqueFrom seen input <->
            x ∈ input /\ default false (seen !! x) = false.
Proof.
  induction input as [|item rest IH]; intros seen; simpl.
  - split; [constructor|]. intros x. split; [intros H; inversion H|].
    intros [H _]. inversion H.
  - destruct (default false (seen !! item)) eqn:Hseen; simpl.
    + destruct (IH seen) as [Hnd Hin]. split; [done|].
      intros x. rewrite Hin, elem_of_cons. split; [tauto|].
      intros [[->|Hx] Hs]; [congruence | tauto].
    + destruct (IH (<[item := true]> seen)) as [Hnd Hin]. split.
      * constructor; [|done]. rewrite Hin, lookup_insert_eq. simpl.
        intros [_ ?]. discriminate.
      * intros x. rewrite !elem_of_cons, Hin.
        destruct (decide (x = item)) as [->|Hne].
        -- split; [auto | intros _; now left].
        -- rewrite lookup_insert_ne by done. tauto.
Qed.

Lemma uniqueStrings_NoDup input : NoDup (Legacy.uniqueStrings input).
Proof. apply uniqueFrom_spec. Qed.

Lemma uniqueStrings_elem_of input x : x ∈ Legacy.uniqueStrings input <-> x ∈ input.
Proof.
  unfold Legacy.uniqueStrings.
  destruct (uniqueFrom_spec input ∅) as [_ ->].
  rewrite lookup_empty. simpl. tauto.
Qed.



Lemma firstOccurrences_filter (Q : string -> Prop) `{!forall x, Decision (Q x)}
      (l : list string) :
  firstOccurrences (filter Q l) = filter Q (firstOccurrences l).
Proof.
  induction l as [|x l IH]; simpl; [done|].
  rewrite filter_cons. destruct (decide (Q x)) as [HQ|HQ]; simpl.
  - rewrite filter_cons_True by done. f_equal.
    rewrite IH, !list_filter_filter. apply list_filter_iff. tauto.
  - rewrite filter_cons_False by done.
    rewrite IH, list_filter_filter. apply list_filter_iff.
    intros y. split; [|tauto]. intros Hy. split; [done|]. now intros ->.
Qed.

(** [uniqueStrings] keeps every string where it occurs first. *)
Lemma uniqueFrom_filter (input : list string) : forall seen : gmap string bool,
  Legacy.uniqueFrom seen input
  = firstOccurrences (filter (fun x => default false (seen !! x) = false) input).
Proof.
  induction input as [|item rest IH]; intros seen; simpl; [done|].
  rewrite filter_cons.
  destruct (default false (seen !! item)) eqn:Hseen; simpl.
  - apply IH.
  - f_equal.
    rewrite IH, <- firstOccurrences_filter, list_filter_filter.
    f_equal. apply list_filter_iff. intros y.
    destruct (decide (y = item)) as [->|Hne].
    + rewrite lookup_insert_eq. simpl. split; [done | tauto].
    + rewrite lookup_insert_ne by done. tauto.
Qed.

Lemma uniqueStrings_firstOccurrences input :
  Legacy.uniqueStrings input = firstOccurrences input.
Proof.
  unfold Legacy.uniqueStrings. rewrite uniqueFrom_filter. f_equal.
  induction input as [|x l IH]; [done|].
  rewrite filter_cons_True by (now rewrite lookup_empty). now f_equal.
Qed.

(** ** The default methods of the wordlist scan *)







(** ** No duplicates in the result *)

Section ScannerNoDuplicates.
Import Scanner.

Lemma Clean_new target timestamp : Clean (newScanResult target timestamp).
Proof. split; [constructor | apply map_Forall_empty]. Qed.

Lemma addService_Clean r service source : Clean r -> Clean (addService r service source).
Proof.
  intros [Hs Hm]. unfold addService.
  destruct (existsb _ _) eqn:Hex; [done|].
  split; [|done]. simpl. apply NoDup_snoc_fresh; [done|].
  rewrite <- existsb_eqb_elem_of. now rewrite Hex.
Qed.

Lemma addMethod_Clean r service method : Clean r -> Clean (addMethod r service method).
Proof.
  intros [Hs Hm]. unfold addMethod.
  set (found := match MethodsFound r !! service with
                | Some _ => MethodsFound r
                | None => <[service := []]> (MethodsFound r)
                end).
  assert (Hfound : map_Forall (fun _ ms => NoDup ms) found).
  { unfold found. destruct (MethodsFound r !! service); [done|].
    apply map_Forall_insert_2; [constructor | done]. }
  assert (Hex : NoDup (default [] (found !! service))).
  { destruct (found !! service) as [ms|] eqn:Hl; simpl; [|constructor].
    exact (Hfound _ _ Hl). }
  destruct (existsb _ _) eqn:Hin; split; simpl; try done.
  apply map_Forall_insert_2; [|done].
  apply NoDup_snoc_fresh; [done|].
  rewrite <- existsb_eqb_elem_of. now rewrite Hin.
Qed.

Lemma applyUpdate_Clean r u : Clean r -> Clean (applyUpdate r u).
Proof.
  destruct u; simpl; [apply addService_Clean | apply addMethod_Clean].
Qed.

Lemma applyUpdates_Clean us : forall r, Clean r -> Clean (applyUpdates r us).
Proof.
  unfold applyUpdates. induction us as [|u us IH]; intros r Hr; [done|].
  simpl. apply IH. now apply applyUpdate_Clean.
Qed.

(** [Run] only changes the lists through [addService] and [addMethod]. *)
Lemma Run_preserves (P : ScanResult -> Prop) :
  (forall r us, P r -> P (applyUpdates r us)) ->
  (forall r mode, P r -> P (setScanMode r mode)) ->
  (forall r b, P r -> P (setReflectionEnabled r b)) ->
  forall wordlist env r, P r -> P (snd (Run wordlist env r)).
Proof.
  intros Hup Hmode Hflag wordlist env r Hr. unfold Run.
  destruct (dialError env); [done|].
  destruct (connected env); [|done]. simpl negb. cbv iota.
  destruct (detectServiceType (calls env 0%nat)) as [[|] kind]; [|done].
  simpl negb. cbv iota.
  assert (Hrefl : P (snd (tryReflection r (reflection env)))).
  { destruct (reflection env) as [| | |[services|]]; simpl; auto. }
  destruct (tryReflection r (reflection env)) as [reflected r1]. simpl in Hrefl.
  set (r2 := if reflected then setScanMode r1 "reflection" else r1).
  assert (Hr2 : P r2) by (unfold r2; destruct reflected; auto).
  set (r3 := applyUpdates r2 (checkStandardServices (calls env) 1)).
  assert (Hr3 : P r3) by (unfold r3; auto).
  destruct (negb (ReflectionEnabled r3) || _).
  - destruct (negb (String.eqb wordlist "")).
    + unfold wordlistBruteForce.
      destruct (loadEnhancedWordlist (wordlistFile env)) as [[entries globals]|err];
        [|simpl; auto].
      destruct (semaphore _ _) as [[[err|]| |]|]; simpl; auto.
    + unfold smartBruteForce.
      destruct (semaphore _ _) as [[[err|]| |]|]; simpl; auto.
  - destruct (String.eqb (ScanMode r3) ""); simpl; auto.
Qed.

Lemma Run_Clean wordlist env r : Clean r -> Clean (snd (Run wordlist env r)).
Proof.
  apply Run_preserves; [|done|done].
  intros r' us. apply applyUpdates_Clean.
Qed.

Lemma handleDirectTesting_Clean env services methods r :
  Clean r -> from_option Clean True (handleDirectTesting env services methods r).
Proof.
  intros Hr. unfold handleDirectTesting.
  destruct (dialError env); [done|]. destruct (connected env); [|done].
  simpl. now apply applyUpdates_Clean.
Qed.

End ScannerNoDuplicates.

Section LegacyNoDuplicates.
Import Legacy.

Lemma appendService_NoDup (services : list string) (name : string) :
  NoDup services ->
  NoDup (if negb (contains services name) then services ++ [name] else services).
Proof.
  intros Hs. destruct (contains services name) eqn:Hc; simpl; [done|].
  apply NoDup_snoc_fresh; [done|]. rewrite <- contains_elem_of. now rewrite Hc.
Qed.

Lemma recordService_Clean r servicePath found :
  LegacyClean r -> LegacyClean (recordService r servicePath found).
Proof.
  intros [Hs Hm]. unfold recordService.
  set (r1 := if negb (contains (AvailableServices r) servicePath) then _ else r).
  assert (H1 : LegacyClean r1).
  { unfold r1. pose proof (appendService_NoDup _ servicePath Hs) as Happ.
    destruct (contains (AvailableServices r) servicePath); simpl in *; [done|].
    split; done. }
  destruct (0 <? _); [|done]. destruct H1 as [Hs1 Hm1]. split; [done|]. simpl.
  apply map_Forall_insert_2; [apply uniqueStrings_NoDup | done].
Qed.

Lemma recordHealth_Clean r : LegacyClean r -> LegacyClean (recordHealth r).
Proof.
  intros [Hs Hm]. unfold recordHealth.
  set (r1 := if negb (contains (AvailableServices r) "grpc.health.v1.Health")
             then _ else r).
  assert (H1 : LegacyClean r1).
  { unfold r1. pose proof (appendService_NoDup _ "grpc.health.v1.Health" Hs) as Happ.
    destruct (contains (AvailableServices r) "grpc.health.v1.Health");
      simpl in *; [done|]. split; done. }
  destruct H1 as [Hs1 Hm1].
  assert (Hex : NoDup (default [] (MethodsFound r1 !! "grpc.health.v1.Health"))).
  { destruct (MethodsFound r1 !! "grpc.health.v1.Health") as [ms|] eqn:Hl;
      simpl; [|constructor]. exact (Hm1 _ _ Hl). }
  destruct (contains _ "Check") eqn:Hc; simpl; split; simpl; try done;
    apply map_Forall_insert_2; try done.
  apply NoDup_snoc_fresh; [done|]. rewrite <- contains_elem_of. now rewrite Hc.
Qed.

Lemma mainReflection_Clean stream r :
  LegacyClean r -> LegacyClean (mainReflection stream r).
Proof.
  intros Hr.
  assert (Hd : LegacyClean (snd (discoverServicesViaReflection stream r))).
  { destruct stream as [| |err|[services|]]; simpl; try done.
    - destruct err as [|code message|text]; try done.
      destruct (_ && _); done.
    - destruct (0 <? _); [|done]. clear -Hr.
      revert r Hr. induction services as [|name l IH]; intros r Hr; [done|].
      simpl. apply IH. destruct Hr as [Hs Hm].
      pose proof (appendService_NoDup _ name Hs) as Happ.
      destruct (contains (AvailableServices r) name); simpl in *; split; done. }
  unfold mainReflection.
  destruct stream as [| |err|listResp]; try done;
    destruct (discoverServicesViaReflection _ r) as [worked r']; exact Hd.
Qed.

Lemma legacy_applyUpdate_Clean r u : LegacyClean r -> LegacyClean (applyUpdate r u).
Proof.
  destruct u; simpl;
    [apply recordService_Clean | apply recordHealth_Clean | apply mainReflection_Clean].
Qed.

End LegacyNoDuplicates.

(** C5: whatever the order in which the locked updates of a scan reach the
    result, the service list holds no name twice and no method list holds a
    method twice; this covers every sequence of [addService] and
    [addMethod] calls, every result of [Run] and of direct testing, every
    sequence of the stand-alone scanner's locked updates, and
    [uniqueStrings]. *)
Theorem no_duplicates :
  (forall target timestamp (us : list Scanner.Update),
      let r := Scanner.applyUpdates (Scanner.newScanResult target timestamp) us in
      NoDuplicates (Scanner.AvailableServices r) (Scanner.MethodsFound r)) /\
  (forall wordlist env target timestamp,
      let r := snd (Scanner.Run wordlist env (Scanner.newScanResult target timestamp)) in
      NoDuplicates (Scanner.AvailableServices r) (Scanner.MethodsFound r)) /\
  (forall env services methods target timestamp,
      from_option Clean True
        (Scanner.handleDirectTesting env services methods
           (Scanner.newScanResult target timestamp))) /\
  (forall target (us : list Legacy.Update),
      let r := foldl Legacy.applyUpdate (Legacy.newScanResult target) us in
      NoDuplicates (Legacy.AvailableServices r) (Legacy.MethodsFound r)) /\
  (forall input, NoDup (Legacy.uniqueStrings input)).
Proof.
  assert (Hlegacy : forall (us : list Legacy.Update) r,
             LegacyClean r -> LegacyClean (foldl Legacy.applyUpdate r us)).
  { induction us as [|u us IH]; intros r Hr; [done|].
    simpl. apply IH. now apply legacy_applyUpdate_Clean. }
  split; [|split; [|split; [|split]]].
  - intros. apply applyUpdates_Clean, Clean_new.
  - intros. apply Run_Clean, Clean_new.
  - intros. apply handleDirectTesting_Clean, Clean_new.
  - intros. apply Hlegacy. split; [constructor | apply map_Forall_empty].
  - apply uniqueStrings_NoDup.
Qed.

(** ** Referential integrity of the result *)

Section ScannerIntegrity.
Import Scanner.

Lemma addService_services r service source x :
  x ∈ AvailableServices (addService r service source) <->
  x = service \/ x ∈ AvailableServices r.
Proof.
  unfold addService. destruct (existsb _ _) eqn:Hex; simpl.
  - apply existsb_eqb_elem_of in Hex. split; [auto | intros [->|H]; done].
  - rewrite elem_of_app, list_elem_of_singleton. tauto.
Qed.

Lemma addService_methods r service source :
  MethodsFound (addService r service source) = MethodsFound r.
Proof. unfold addService. now destruct (existsb _ _). Qed.

Lemma addMethod_services r service method :
  AvailableServices (addMethod r service method) = AvailableServices r.
Proof. unfold addMethod. now destruct (existsb _ _). Qed.

Lemma addMethod_keys r service method x :
  x ∈ dom (MethodsFound (addMethod r service method)) <->
  x = service \/ x ∈ dom (MethodsFound r).
Proof.
  unfold addMethod.
  set (found := match MethodsFound r !! service with
                | Some _ => MethodsFound r
                | None => <[service := []]> (MethodsFound r)
                end).
  assert (Hfound : x ∈ dom found <-> x = service \/ x ∈ dom (MethodsFound r)).
  { unfold found. destruct (MethodsFound r !! service) as [ms|] eqn:Hl.
    - split; [auto | intros [->|H]; [|done]]. apply elem_of_dom. eauto.
    - now rewrite dom_insert_L, elem_of_union, elem_of_singleton. }
  destruct (existsb _ _); simpl; [done|].
  rewrite dom_insert_L, elem_of_union, elem_of_singleton. tauto.
Qed.

Lemma guardedBy_mono us : forall known known',
  (forall x, x ∈ known -> x ∈ known') -> guardedBy known us -> guardedBy known' us.
Proof.
  induction us as [|[service source|service method] us IH];
    intros known known' Hsub; simpl; [done| |].
  - apply IH. intros x. rewrite !elem_of_cons. intros [->|H]; auto.
  - intros [Hin Hrest]. split; [auto | eapply IH; eauto].
Qed.

Lemma guardedBy_app us1 us2 known :
  guardedBy known us1 -> guardedBy known us2 -> guardedBy known (us1 ++ us2).
Proof.
  revert known. induction us1 as [|[service source|service method] us1 IH];
    intros known H1 H2; simpl in *; [done| |].
  - apply IH; [done|]. eapply guardedBy_mono; [|exact H2].
    intros x Hx. now right.
  - destruct H1 as [Hin H1]. split; [done | now apply IH].
Qed.

Lemma guardedBy_concat workers known :
  Forall (guardedBy known) workers -> guardedBy known (concat workers).
Proof.
  induction 1 as [|w workers Hw _ IH]; simpl; [done|]. now apply guardedBy_app.
Qed.

(** One guarded step keeps the invariant and what is left stays guarded. *)
Lemma guarded_step r u us :
  Integrity r -> guardedBy (AvailableServices r) (u :: us) ->
  Integrity (applyUpdate r u) /\
  guardedBy (AvailableServices (applyUpdate r u)) us /\
  (forall x, x ∈ AvailableServices r -> x ∈ AvailableServices (applyUpdate r u)).
Proof.
  intros Hint Hg. destruct u as [service source|service method]; simpl in *.
  - repeat split.
    + intros x. rewrite addService_methods, addService_services. auto.
    + eapply guardedBy_mono; [|exact Hg]. intros x.
      rewrite elem_of_cons, addService_services. tauto.
    + intros x. rewrite addService_services. auto.
  - destruct Hg as [Hin Hg]. repeat split.
    + intros x. rewrite addMethod_keys, addMethod_services.
      intros [->|Hx]; auto.
    + now rewrite addMethod_services.
    + now rewrite addMethod_services.
Qed.

Lemma guarded_run us : forall r,
  Integrity r -> guardedBy (AvailableServices r) us ->
  Integrity (applyUpdates r us).
Proof.
  unfold applyUpdates. induction us as [|u us IH]; intros r Hint Hg; [done|].
  destruct (guarded_step r u us Hint Hg) as (Hint' & Hg' & _).
  simpl. now apply IH.
Qed.

(** However the goroutines take turns, guarded goroutines keep the
    invariant. *)
Lemma guarded_interleave schedule : forall workers r,
  Integrity r -> Forall (guardedBy (AvailableServices r)) workers ->
  Integrity (applyUpdates r (interleave schedule workers)).
Proof.
  induction schedule as [|i schedule IH]; intros workers r Hint Hall; simpl.
  - apply guarded_run; [done | now apply guardedBy_concat].
  - destruct (workers !! i) as [[|u us]|] eqn:Hi; try now apply IH.
    pose proof (Forall_lookup_1 _ _ _ _ Hall Hi) as Hg.
    destruct (guarded_step r u us Hint Hg) as (Hint' & Hg' & Hsub).
    change (Integrity (applyUpdates (applyUpdate r u)
                                    (interleave schedule (<[i := us]> workers)))).
    apply IH; [done|]. apply Forall_insert; [|done].
    eapply Forall_impl; [exact Hall|]. intros w. now apply guardedBy_mono.
Qed.

Lemma guardedBy_AddService service source us known :
  guardedBy (service :: known) us -> guardedBy known (AddService service source :: us).
Proof. done. Qed.

Lemma checkMethods_guarded calls methods : forall k service known,
  service ∈ known -> guardedBy known (checkMethods calls k service methods).
Proof.
  induction methods as [|method rest IH]; intros k service known Hin; simpl; [done|].
  destruct (checkMethod _ _ _); simpl; auto.
Qed.

Lemma tryPatterns_guarded calls methodsToTry patterns : forall k known,
  guardedBy known (tryPatterns calls k methodsToTry patterns).
Proof.
  induction patterns as [|pattern rest IH]; intros k known; simpl; [done|].
  destruct methodsToTry as [|first others]; [apply IH|].
  destruct (checkService _ _ _); [|apply IH].
  apply guardedBy_AddService, checkMethods_guarded. now left.
Qed.

Lemma wordlistWorker_guarded calls defaultMethods e known :
  guardedBy known (wordlistWorker calls defaultMethods e).
Proof. apply tryPatterns_guarded. Qed.

Lemma smartWorker_guarded calls p known : guardedBy known (smartWorker calls p).
Proof.
  unfold smartWorker. destruct (PMethods p) as [|first others]; [done|].
  destruct (checkService _ _ _); [|done].
  apply guardedBy_AddService, checkMethods_guarded. now left.
Qed.

Lemma standardPatterns_guarded calls patterns : forall k known,
  guardedBy known (standardPatterns calls k patterns).
Proof.
  induction patterns as [|pattern rest IH]; intros k known; simpl; [done|].
  destruct (PMethods pattern) as [|first others]; [done|].
  destruct (checkService _ _ _); [|apply IH].
  apply guardedBy_AddService, guardedBy_app; [|apply IH].
  apply checkMethods_guarded. now left.
Qed.

Lemma checkStandardServices_guarded calls k known :
  guardedBy known (checkStandardServices calls k).
Proof.
  unfold checkStandardServices. apply guardedBy_app.
  - destruct (calls k _); simpl; try done. split; [now left | done].
  - apply standardPatterns_guarded.
Qed.

Lemma reflection_guarded services known :
  guardedBy known (map (fun name => AddService name "reflection") services).
Proof. revert known. induction services as [|s l IH]; intros known; simpl; auto. Qed.

Lemma Forall_imap_guarded {A} (f : nat -> A -> list Update) (l : list A) known :
  (forall i x, guardedBy known (f i x)) -> Forall (guardedBy known) (imap f l).
Proof.
  intros Hf. apply Forall_forall. intros w Hw.
  apply elem_of_lookup_imap in Hw as (i & x & -> & _). apply Hf.
Qed.

Lemma Run_Integrity wordlist env r :
  Integrity r -> Integrity (snd (Run wordlist env r)).
Proof.
  intros Hr. unfold Run.
  destruct (dialError env); [done|].
  destruct (connected env); [|done]. simpl negb. cbv iota.
  destruct (detectServiceType (calls env 0%nat)) as [[|] kind]; [|done].
  simpl negb. cbv iota.
  assert (Hrefl : Integrity (snd (tryReflection r (reflection env)))).
  { destruct (reflection env) as [| | |[services|]]; simpl; try done.
    apply guarded_run; [done | apply reflection_guarded]. }
  destruct (tryReflection r (reflection env)) as [reflected r1]. simpl in Hrefl.
  set (r2 := if reflected then setScanMode r1 "reflection" else r1).
  assert (Hr2 : Integrity r2) by (unfold r2; destruct reflected; done).
  set (r3 := applyUpdates r2 (checkStandardServices (calls env) 1)).
  assert (Hr3 : Integrity r3).
  { apply guarded_run; [done | apply checkStandardServices_guarded]. }
  destruct (negb (ReflectionEnabled r3) || _).
  - destruct (negb (String.eqb wordlist "")).
    + unfold wordlistBruteForce.
      destruct (loadEnhancedWordlist (wordlistFile env)) as [[entries globals]|err];
        simpl; [|done].
      destruct (semaphore _ _) as [[[err|]| |]|]; simpl; try done.
      apply guarded_interleave; [done|].
      apply Forall_imap_guarded. intros i e. apply wordlistWorker_guarded.
    + unfold smartBruteForce.
      destruct (semaphore _ _) as [[[err|]| |]|]; simpl; try done.
      apply guarded_interleave; [done|].
      apply Forall_imap_guarded. intros i p. apply smartWorker_guarded.
  - destruct (String.eqb (ScanMode r3) ""); simpl; done.
Qed.

Lemma directServices_guarded calls methodList serviceList : forall k known,
  guardedBy known (directServices calls k serviceList methodList).
Proof.
  induction serviceList as [|service rest IH]; intros k known; simpl; [done|].
  destruct (String.eqb service ""); [apply IH|].
  destruct (if Z.of_nat (length methodList) =? 0 then _ else methodList)
    as [|first others]; [done|].
  destruct (checkService _ _ _); [|apply IH].
  apply guardedBy_AddService, guardedBy_app; [|apply IH].
  apply checkMethods_guarded. now left.
Qed.

Lemma handleDirectTesting_Integrity env services methods r :
  Integrity r -> from_option Integrity True (handleDirectTesting env services methods r).
Proof.
  intros Hr. unfold handleDirectTesting.
  destruct (dialError env); [done|]. destruct (connected env); [|done].
  simpl. apply guarded_run; [done | apply directServices_guarded].
Qed.

End ScannerIntegrity.

Section LegacyIntegrity.
Import Legacy.

Lemma appendService_elem_of (services : list string) (name x : string) :
  x ∈ (if negb (contains services name) then services ++ [name] else services)
  <-> x = name \/ x ∈ services.
Proof.
  destruct (contains services name) eqn:Hc; simpl.
  - apply contains_elem_of in Hc. split; [auto | intros [->|H]; done].
  - rewrite elem_of_app, list_elem_of_singleton. tauto.
Qed.

Lemma recordService_Integrity r servicePath found :
  LegacyIntegrity r -> LegacyIntegrity (recordService r servicePath found).
Proof.
  intros Hr. unfold recordService.
  pose proof (appendService_elem_of (AvailableServices r) servicePath) as Hs.
  destruct (negb (contains (AvailableServices r) servicePath));
    destruct (0 <? _); intros x; simpl;
    rewrite ?dom_insert_L, ?elem_of_union, ?elem_of_singleton;
    specialize (Hs x); specialize (Hr x); simpl in *; tauto.
Qed.

Lemma recordHealth_Integrity r : LegacyIntegrity r -> LegacyIntegrity (recordHealth r).
Proof.
  intros Hr. unfold recordHealth.
  pose proof (appendService_elem_of (AvailableServices r) "grpc.health.v1.Health") as Hs.
  destruct (negb (contains (AvailableServices r) "grpc.health.v1.Health"));
    destruct (negb (contains _ "Check")); intros x; simpl;
    rewrite ?dom_insert_L, ?elem_of_union, ?elem_of_singleton;
    specialize (Hs x); specialize (Hr x); simpl in *; tauto.
Qed.

Lemma mainReflection_Integrity stream r :
  LegacyIntegrity r -> LegacyIntegrity (mainReflection stream r).
Proof.
  intros Hr.
  assert (Hd : LegacyIntegrity (snd (discoverServicesViaReflection stream r))).
  { destruct stream as [| |err|[services|]]; simpl; try done.
    - destruct err as [|code message|text]; try done.
      destruct (_ && _); done.
    - destruct (0 <? _); [|done]. clear -Hr.
      revert r Hr. induction services as [|name l IH]; intros r Hr; [done|].
      simpl. apply IH.
      pose proof (appendService_elem_of (AvailableServices r) name) as Hs.
      destruct (negb (contains (AvailableServices r) name)); [|done].
      intros x Hx. simpl in *. apply Hs. right. now apply Hr. }
  unfold mainReflection.
  destruct stream as [| |err|listResp]; try done;
    destruct (discoverServicesViaReflection _ r) as [worked r']; exact Hd.
Qed.

Lemma legacy_applyUpdate_Integrity r u :
  LegacyIntegrity r -> LegacyIntegrity (applyUpdate r u).
Proof.
  destruct u; simpl;
    [apply recordService_Integrity | apply recordHealth_Integrity
     | apply mainReflection_Integrity].
Qed.

End LegacyIntegrity.

(** C6: when a scan completes, every key of [MethodsFound] is a member of
    [AvailableServices], whatever the server answers, whatever the wordlist
    holds and however the goroutines take turns at the result mutex: for
    [Run], for direct testing, and for every sequence of the stand-alone
    scanner's locked updates. *)
Theorem methods_keys_are_services :
  (forall wordlist env target timestamp,
      let r := snd (Scanner.Run wordlist env (Scanner.newScanResult target timestamp)) in
      KeysAreServices (Scanner.AvailableServices r) (Scanner.MethodsFound r)) /\
  (forall env services methods target timestamp,
      from_option Integrity True
        (Scanner.handleDirectTesting env services methods
           (Scanner.newScanResult target timestamp))) /\
  (forall target (us : list Legacy.Update),
      let r := foldl Legacy.applyUpdate (Legacy.newScanResult target) us in
      KeysAreServices (Legacy.AvailableServices r) (Legacy.MethodsFound r)).
Proof.
  assert (Hnew : forall target timestamp,
             Integrity (Scanner.newScanResult target timestamp)).
  { intros target timestamp service Hin. simpl in Hin.
    rewrite dom_empty_L in Hin. now apply not_elem_of_empty in Hin. }
  split; [|split].
  - intros. apply Run_Integrity, Hnew.
  - intros. apply handleDirectTesting_Integrity, Hnew.
  - intros target us.
    assert (H : forall r, LegacyIntegrity r ->
                          LegacyIntegrity (foldl Legacy.applyUpdate r us)).
    { induction us as [|u us IH]; intros r Hr; [done|].
      simpl. apply IH. now apply legacy_applyUpdate_Integrity. }
    apply H. intros service Hin. simpl in Hin.
    rewrite dom_empty_L in Hin. now apply not_elem_of_empty in Hin.
Qed.

(** The schedules reach every interleaving of the goroutines. *)
Lemma interleave_complete workers t :
  Interleaving workers t -> exists schedule, Scanner.interleave schedule workers = t.
Proof.
  induction 1 as [workers Hall|workers i u us t Hi _ [schedule IH]].
  - exists []. simpl. induction Hall as [|w workers -> _ IH]; [done|]. exact IH.
  - exists (i :: schedule). simpl. rewrite Hi. now f_equal.
Qed.

(** ** Version fuzzing *)

Section Strings.
Import strings.

Lemma append_String (x : ascii) (a b : string) :
  String x a +:+ b = String x (a +:+ b).
Proof. reflexivity. Qed.

Lemma append_empty (b : string) : "" +:+ b = b.
Proof. reflexivity. Qed.

Lemma append_assoc (a b c : string) : (a +:+ b) +:+ c = a +:+ b +:+ c.
Proof.
  induction a as [|x a IH]; [reflexivity|]. rewrite !append_String. now f_equal.
Qed.

Lemma HasPrefix_append (a b : string) : HasPrefix (a +:+ b) a = true.
Proof.
  induction a as [|x a IH]; [reflexivity|]. rewrite append_String. simpl.
  now rewrite Ascii.eqb_refl.
Qed.

Lemma skip_append (a b : string) : skip (String.length a) (a +:+ b) = b.
Proof.
  induction a as [|x a IH]; [now destruct b|]. rewrite append_String. exact IH.
Qed.

Lemma HasPrefix_split (s p : string) :
  HasPrefix s p = true -> s = p +:+ skip (String.length p) s.
Proof.
  revert s. induction p as [|x p IH]; intros s H; simpl in *.
  - now destruct s.
  - destruct s as [|c s]; [done|].
    destruct (Ascii.eqb_spec c x) as [->|]; [|done].
    rewrite append_String. f_equal. now apply IH.
Qed.

Lemma Contains_cons (c : ascii) (s p : string) :
  Contains (String c s) p = HasPrefix (String c s) p || Contains s p.
Proof. reflexivity. Qed.

Lemma Replace1_cons (c : ascii) (s old new : string) :
  Replace1 (String c s) old new
  = if HasPrefix (String c s) old
    then new +:+ skip (String.length old) (String c s)
    else String c (Replace1 s old new).
Proof. reflexivity. Qed.

Lemma Contains_append_r (a b p : string) :
  Contains b p = true -> Contains (a +:+ b) p = true.
Proof.
  intros H. induction a as [|x a IH]; [exact H|].
  rewrite append_String, Contains_cons, IH. apply orb_true_r.
Qed.

Lemma Contains_prefix (p b : string) : Contains (p +:+ b) p = true.
Proof.
  pose proof (HasPrefix_append p b) as H.
  destruct (p +:+ b); simpl; now rewrite H.
Qed.

Lemma Contains_occurrence (a b p : string) : Contains (a +:+ p +:+ b) p = true.
Proof. apply Contains_append_r, Contains_prefix. Qed.

(** A substring that occurs splits the string at its first occurrence. *)
Lemma Contains_split (s p : string) :
  Contains s p = true ->
  exists pre post, s = pre +:+ p +:+ post /\
                   forall new, Replace1 s p new = pre +:+ new +:+ post.
Proof.
  induction s as [|c s IH].
  - simpl. rewrite orb_false_r. intros H. exists "", "".
    destruct p; [|done]. split; [done|]. intros new. simpl.
    rewrite !append_empty. now destruct new.
  - intros H. destruct (HasPrefix (String c s) p) eqn:Hp.
    + exists "", (skip (String.length p) (String c s)). split.
      * now apply HasPrefix_split.
      * intros new. now rewrite Replace1_cons, Hp.
    + assert (Hs : Contains s p = true).
      { rewrite Contains_cons, Hp in H. exact H. }
      destruct (IH Hs) as (pre & post & -> & Hrep).
      exists (String c pre), post. split; [done|]. intros new.
      rewrite Replace1_cons, Hp, Hrep. done.
Qed.

Lemma countOccurrences_zero (s p : string) :
  countOccurrences s p = 0%nat <-> Contains s p = false.
Proof.
  induction s as [|c s IH]; simpl.
  - destruct (HasPrefix "" p); simpl; split; (done || lia).
  - destruct (HasPrefix (String c s) p); simpl; [split; (done || lia)|].
    exact IH.
Qed.

Lemma countOccurrences_cons (c : ascii) (s p : string) :
  countOccurrences (String c s) p
  = ((if HasPrefix (String c s) p then 1 else 0) + countOccurrences s p)%nat.
Proof. done. Qed.

End Strings.

Section VersionPatterns.
Import strings.
Local Open Scope nat_scope.

Lemma versionPattern_eq i :
  Legacy.versionPattern i = String "." (String "v" (Legacy.decimal i +:+ ".")).
Proof. reflexivity. Qed.

Lemma string_of_uint_noDot d : noDot (NilEmpty.string_of_uint d) = true.
Proof. induction d; simpl; auto. Qed.

Lemma decimal_inj i j : Legacy.decimal i = Legacy.decimal j -> i = j.
Proof.
  unfold Legacy.decimal. intros H. apply DecimalNat.Unsigned.to_uint_inj.
  pose proof (NilEmpty.usu (Nat.to_uint i)) as Hi.
  pose proof (NilEmpty.usu (Nat.to_uint j)) as Hj.
  rewrite H in Hi. congruence.
Qed.

(** Whether a pattern [body.] (no dot in [body]) starts a string does not
    depend on what follows the first dot at or after the start. *)
Lemma noDot_cons c s : noDot (String c s) = true <-> c <> "."%char /\ noDot s = true.
Proof.
  cbn [noDot]. rewrite andb_true_iff, negb_true_iff.
  destruct (Ascii.eqb_spec c "."); split; intros [? ?]; (done || split; done).
Qed.

Lemma HasPrefix_cons c s p q :
  HasPrefix (String c s) (String p q) = if Ascii.eqb c p then HasPrefix s q else false.
Proof. reflexivity. Qed.

Lemma HasPrefix_until_dot (pre : string) : forall body r r',
  noDot body = true ->
  HasPrefix (pre +:+ String "." r) (body +:+ ".")
  = HasPrefix (pre +:+ String "." r') (body +:+ ".").
Proof.
  induction pre as [|d pre IH]; intros body r r' Hbody.
  - rewrite !append_empty. destruct body as [|b body]; [reflexivity|].
    rewrite append_String, !HasPrefix_cons.
    apply noDot_cons in Hbody as [Hb _].
    destruct (Ascii.eqb_spec "."%char b); [congruence | reflexivity].
  - rewrite !append_String. destruct body as [|b body]; [reflexivity|].
    rewrite append_String, !HasPrefix_cons.
    destruct (Ascii.eqb d b); [|reflexivity].
    apply IH. now apply noDot_cons in Hbody.
Qed.

Lemma noDot_version_body i : noDot (String "v" (Legacy.decimal i)) = true.
Proof. apply noDot_cons. split; [done | apply string_of_uint_noDot]. Qed.

Lemma versionPattern_body i :
  Legacy.versionPattern i = String "." (String "v" (Legacy.decimal i) +:+ ".").
Proof. reflexivity. Qed.

Lemma versionPattern_append i post :
  Legacy.versionPattern i +:+ post = String "." (String "v" (Legacy.decimal i +:+ String "." post)).
Proof.
  rewrite versionPattern_eq, !append_String, append_assoc. reflexivity.
Qed.

(** Replacing the version of a segment that lies after a non-empty prefix
    does not change which patterns start the string. *)
Lemma HasPrefix_version_indep c pre post v n j :
  HasPrefix (String c pre +:+ Legacy.versionPattern v +:+ post) (Legacy.versionPattern j)
  = HasPrefix (String c pre +:+ Legacy.versionPattern n +:+ post) (Legacy.versionPattern j).
Proof.
  rewrite !append_String, (versionPattern_body j), !versionPattern_append.
  rewrite !HasPrefix_cons. destruct (Ascii.eqb c "."); [|reflexivity].
  apply HasPrefix_until_dot, noDot_version_body.
Qed.

Lemma decimal_prefix (a : string) : forall b post,
  noDot a = true -> noDot b = true ->
  HasPrefix (a +:+ String "." post) (b +:+ ".") = true -> a = b.
Proof.
  induction a as [|x a IH]; intros b post Ha Hb H.
  - rewrite append_empty in H. destruct b as [|y b]; [done|].
    rewrite append_String, HasPrefix_cons in H.
    apply noDot_cons in Hb as [Hy _].
    destruct (Ascii.eqb_spec "."%char y); [congruence | done].
  - rewrite append_String in H. apply noDot_cons in Ha as [Hx Ha].
    destruct b as [|y b].
    + rewrite append_empty, HasPrefix_cons in H.
      now destruct (Ascii.eqb_spec x "."%char).
    + rewrite append_String, HasPrefix_cons in H.
      apply noDot_cons in Hb as [_ Hb].
      destruct (Ascii.eqb_spec x y) as [->|]; [|done].
      f_equal. now apply (IH b post).
Qed.

Lemma versionPattern_prefix v j post :
  HasPrefix (Legacy.versionPattern v +:+ post) (Legacy.versionPattern j) = true -> j = v.
Proof.
  rewrite versionPattern_append, versionPattern_eq, !HasPrefix_cons.
  rewrite !Ascii.eqb_refl. intros H. symmetry. apply decimal_inj.
  eapply decimal_prefix; [apply string_of_uint_noDot.. | exact H].
Qed.

(** A pattern that starts with a dot does not start inside a dot-free run. *)
Lemma Contains_after_noDot (X : string) : forall Y q,
  noDot X = true ->
  Contains (X +:+ Y) (String "." q) = Contains Y (String "." q).
Proof.
  induction X as [|c X IH]; intros Y q HX; [reflexivity|].
  rewrite append_String, Contains_cons, HasPrefix_cons.
  apply noDot_cons in HX as [Hc HX].
  destruct (Ascii.eqb_spec c "."); [done|]. simpl. now apply IH.
Qed.

(** Sums over the versions. *)
Lemma sum_list_with_le {A} (f g : A -> nat) (l : list A) :
  (forall x, x ∈ l -> f x <= g x) -> sum_list_with f l <= sum_list_with g l.
Proof.
  induction l as [|a l IH]; intros H; simpl; [done|].
  pose proof (H a ltac:(now left)). 
  assert (sum_list_with f l <= sum_list_with g l).
  { apply IH. intros x Hx. apply H. now right. }
  lia.
Qed.

Lemma sum_list_with_lt {A} (f g : A -> nat) (l : list A) (x0 : A) :
  x0 ∈ l -> f x0 < g x0 -> (forall x, x ∈ l -> f x <= g x) ->
  sum_list_with f l < sum_list_with g l.
Proof.
  induction l as [|a l IH]; intros Hin Hlt H; [inversion Hin|].
  simpl. pose proof (H a ltac:(now left)) as Ha.
  assert (Hl : forall x, x ∈ l -> f x <= g x) by (intros x Hx; apply H; now right).
  apply elem_of_cons in Hin as [->|Hin].
  - pose proof (sum_list_with_le f g l Hl). lia.
  - pose proof (IH Hin Hlt Hl). lia.
Qed.

Lemma sum_list_with_elem {A} (f : A -> nat) (l : list A) (x0 : A) :
  x0 ∈ l -> f x0 <= sum_list_with f l.
Proof.
  induction l as [|a l IH]; intros Hin; [inversion Hin|].
  simpl. apply elem_of_cons in Hin as [->|Hin]; [lia|].
  pose proof (IH Hin). lia.
Qed.

End VersionPatterns.

Section SingleSegment.
Import strings.
Local Open Scope nat_scope.

Variable maxVersion : Z.

Lemma versionSegments_none s :
  versionSegments maxVersion s = 0 ->
  forall j, j ∈ Legacy.versionsUpTo maxVersion ->
            Contains s (Legacy.versionPattern j) = false.
Proof.
  intros H j Hj. apply countOccurrences_zero.
  pose proof (sum_list_with_elem
                (fun i => countOccurrences s (Legacy.versionPattern i)) _ j Hj) as Hle.
  unfold versionSegments in H. simpl in Hle. lia.
Qed.

Lemma versionSegments_cons_le c s :
  versionSegments maxVersion s <= versionSegments maxVersion (String c s).
Proof.
  apply sum_list_with_le. intros j _. rewrite countOccurrences_cons. lia.
Qed.

Lemma versionSegments_cons_lt c s j :
  j ∈ Legacy.versionsUpTo maxVersion ->
  HasPrefix (String c s) (Legacy.versionPattern j) = true ->
  versionSegments maxVersion s < versionSegments maxVersion (String c s).
Proof.
  intros Hj Hp. apply (sum_list_with_lt _ _ _ j Hj).
  - rewrite countOccurrences_cons, Hp. lia.
  - intros i _. rewrite countOccurrences_cons. lia.
Qed.

Lemma versionSegments_occurrence pre post n :
  n ∈ Legacy.versionsUpTo maxVersion ->
  1 <= versionSegments maxVersion (pre +:+ Legacy.versionPattern n +:+ post).
Proof.
  intros Hn.
  pose proof (sum_list_with_elem
                (fun i => countOccurrences (pre +:+ Legacy.versionPattern n +:+ post)
                                           (Legacy.versionPattern i)) _ n Hn) as Hle.
  simpl in Hle.
  destruct (countOccurrences (pre +:+ Legacy.versionPattern n +:+ post)
                             (Legacy.versionPattern n)) eqn:E.
  - apply countOccurrences_zero in E. now rewrite Contains_occurrence in E.
  - unfold versionSegments. lia.
Qed.

(** In a path with one version segment, putting another version [v] in
    its place gives a path whose only version segment is [.vV.], at the
    same place. *)
Lemma single_segment post n :
  n ∈ Legacy.versionsUpTo maxVersion ->
  forall pre,
    versionSegments maxVersion (pre +:+ Legacy.versionPattern n +:+ post) <= 1 ->
    forall v, v ∈ Legacy.versionsUpTo maxVersion ->
      (forall j, j ∈ Legacy.versionsUpTo maxVersion ->
                 Contains (pre +:+ Legacy.versionPattern v +:+ post)
                          (Legacy.versionPattern j) = true -> j = v) /\
      (forall new, Replace1 (pre +:+ Legacy.versionPattern v +:+ post)
                            (Legacy.versionPattern v) new
                   = pre +:+ new +:+ post).
Proof.
  intros Hn. induction pre as [|c pre IH]; intros Hone v Hv.
  - rewrite !append_empty in *.
    assert (Hafter : forall j, j ∈ Legacy.versionsUpTo maxVersion ->
                       Contains (String "." post) (Legacy.versionPattern j) = false).
    { pose proof (HasPrefix_append (Legacy.versionPattern n) post) as Hp.
      rewrite versionPattern_append in Hone, Hp.
      pose proof (versionSegments_cons_lt _ _ n Hn Hp) as Hlt.
      intros j Hj.
      assert (H0 : versionSegments maxVersion
                     (String "v" (Legacy.decimal n +:+ String "." post)) = 0) by lia.
      pose proof (versionSegments_none _ H0 j Hj) as Hnone.
      change (String "v" (Legacy.decimal n +:+ String "." post))
        with (String "v" (Legacy.decimal n) +:+ String "." post) in Hnone.
      rewrite versionPattern_eq in Hnone |- *.
      now rewrite Contains_after_noDot in Hnone by apply noDot_version_body. }
    split.
    + intros j Hj Hc.
      rewrite versionPattern_append, Contains_cons in Hc.
      apply orb_true_iff in Hc as [Hp|Hc].
      * apply (versionPattern_prefix v j post). now rewrite versionPattern_append.
      * exfalso. specialize (Hafter j Hj).
        change (String "v" (Legacy.decimal v +:+ String "." post))
          with (String "v" (Legacy.decimal v) +:+ String "." post) in Hc.
        rewrite versionPattern_eq in Hc, Hafter.
        rewrite Contains_after_noDot in Hc by apply noDot_version_body.
        congruence.
    + intros new.
      pose proof (HasPrefix_append (Legacy.versionPattern v) post) as Hp.
      pose proof (skip_append (Legacy.versionPattern v) post) as Hs.
      rewrite versionPattern_append in Hp, Hs |- *.
      now rewrite Replace1_cons, Hp, Hs.
  - assert (Hheads : forall j, j ∈ Legacy.versionsUpTo maxVersion ->
                       HasPrefix (String c pre +:+ Legacy.versionPattern n +:+ post)
                                 (Legacy.versionPattern j) = false).
    { intros j Hj.
      destruct (HasPrefix (String c pre +:+ Legacy.versionPattern n +:+ post)
                          (Legacy.versionPattern j)) eqn:Hp; [|done].
      rewrite append_String in Hone, Hp.
      pose proof (versionSegments_cons_lt _ _ j Hj Hp).
      pose proof (versionSegments_occurrence pre post n Hn). lia. }
    assert (Hrest : versionSegments maxVersion
                      (pre +:+ Legacy.versionPattern n +:+ post) <= 1).
    { rewrite append_String in Hone.
      pose proof (versionSegments_cons_le c (pre +:+ Legacy.versionPattern n +:+ post)).
      lia. }
    destruct (IH Hrest v Hv) as [IH1 IH2]. split.
    + intros j Hj Hc.
      assert (Hp : HasPrefix (String c pre +:+ Legacy.versionPattern v +:+ post)
                             (Legacy.versionPattern j) = false).
      { rewrite (HasPrefix_version_indep c pre post v n j). now apply Hheads. }
      rewrite append_String in Hc, Hp. rewrite Contains_cons, Hp in Hc.
      now apply IH1.
    + intros new.
      assert (Hp : HasPrefix (String c pre +:+ Legacy.versionPattern v +:+ post)
                             (Legacy.versionPattern v) = false).
      { rewrite (HasPrefix_version_indep c pre post v n v). now apply Hheads. }
      rewrite append_String in Hp |- *.
      now rewrite Replace1_cons, Hp, IH2.
Qed.

End SingleSegment.

Section FuzzIdempotence.
Import strings.

Variable maxVersion : Z.

Lemma replaceVersion_none s w candidates :
  (forall j, j ∈ candidates -> Contains s (Legacy.versionPattern j) = false) ->
  Legacy.replaceVersion s w candidates = s.
Proof.
  induction candidates as [|i rest IH]; intros H; simpl; [done|].
  rewrite (H i) by now left. apply IH. intros j Hj. apply H. now right.
Qed.

Lemma replaceVersion_one s v w candidates :
  v ∈ candidates ->
  (forall j, j ∈ candidates -> Contains s (Legacy.versionPattern j) = true -> j = v) ->
  Contains s (Legacy.versionPattern v) = true ->
  Legacy.replaceVersion s w candidates
  = Replace1 s (Legacy.versionPattern v) (Legacy.versionPattern w).
Proof.
  induction candidates as [|i rest IH]; intros Hv Honly Hc; [inversion Hv|].
  simpl. destruct (Contains s (Legacy.versionPattern i)) eqn:Hi.
  - now rewrite (Honly i ltac:(now left) Hi).
  - apply IH; [|intros j Hj; apply Honly; now right | done].
    apply elem_of_cons in Hv as [->|Hv]; [congruence | done].
Qed.

Lemma elem_of_versionedPaths s x vs :
  x ∈ Legacy.versionedPaths s maxVersion vs <->
  exists w, w ∈ vs /\
            x = Legacy.replaceVersion s w (Legacy.versionsUpTo maxVersion) /\ x <> s.
Proof.
  induction vs as [|v vs IH]; simpl.
  - split; [intros H; inversion H | intros (w & Hw & _); inversion Hw].
  - rewrite elem_of_app, IH. split.
    + intros [H|(w & Hw & Hx)].
      * destruct (String.eqb_spec
                    (Legacy.replaceVersion s v (Legacy.versionsUpTo maxVersion)) s)
          as [|Hne]; simpl in H; [inversion H|].
        apply list_elem_of_singleton in H as ->. exists v. split; [now left | done].
      * exists w. split; [now right | done].
    + intros (w & Hw & -> & Hne). apply elem_of_cons in Hw as [->|Hw].
      * left. destruct (String.eqb_spec
                          (Legacy.replaceVersion s v (Legacy.versionsUpTo maxVersion)) s);
          simpl; [done | now left].
      * right. exists w. done.
Qed.

(** The paths generated from [s] are [s] itself and its re-versioned
    variants. *)
Lemma generated_cases s x :
  x ∈ Legacy.generateVersionedServicePaths s maxVersion ->
  x = s \/
  exists w, w ∈ Legacy.versionsUpTo maxVersion /\
            x = Legacy.replaceVersion s w (Legacy.versionsUpTo maxVersion).
Proof.
  unfold Legacy.generateVersionedServicePaths. destruct (_ && _).
  - intros H. apply list_elem_of_singleton in H. now left.
  - rewrite elem_of_app, elem_of_versionedPaths, list_elem_of_singleton.
    intros [(w & Hw & Hx & _)|H]; [right; eauto | now left].
Qed.

Lemma generated_self s : s ∈ Legacy.generateVersionedServicePaths s maxVersion.
Proof.
  unfold Legacy.generateVersionedServicePaths. destruct (_ && _).
  - now left.
  - apply elem_of_app. right. now left.
Qed.

Lemma no_version_dichotomy s (candidates : list nat) :
  (forall j, j ∈ candidates -> Contains s (Legacy.versionPattern j) = false) \/
  (exists n, n ∈ candidates /\ Contains s (Legacy.versionPattern n) = true).
Proof.
  induction candidates as [|i rest [IH|(n & Hn & Hc)]].
  - left. intros j Hj. inversion Hj.
  - destruct (Contains s (Legacy.versionPattern i)) eqn:Hi.
    + right. exists i. split; [now left | done].
    + left. intros j Hj. apply elem_of_cons in Hj as [->|Hj]; auto.
  - right. exists n. split; [now right | done].
Qed.

Lemma generated_guarded s :
  negb (Contains s ".v1.") && negb (Contains s ".v2.") && negb (Contains s ".v3.") = true ->
  Legacy.generateVersionedServicePaths s maxVersion = [s].
Proof. intros H. unfold Legacy.generateVersionedServicePaths. now rewrite H. Qed.

Lemma generated_unguarded s :
  negb (Contains s ".v1.") && negb (Contains s ".v2.") && negb (Contains s ".v3.") = false ->
  Legacy.generateVersionedServicePaths s maxVersion
  = Legacy.versionedPaths s maxVersion (Legacy.versionsUpTo maxVersion) ++ [s].
Proof. intros H. unfold Legacy.generateVersionedServicePaths. now rewrite H. Qed.

(** Fuzzing a generated path of a single-versioned path gives nothing new. *)
Lemma generated_closed s t x :
  singleVersioned maxVersion s ->
  t ∈ Legacy.generateVersionedServicePaths s maxVersion ->
  x ∈ Legacy.generateVersionedServicePaths t maxVersion ->
  x ∈ Legacy.generateVersionedServicePaths s maxVersion.
Proof.
  intros Hone Ht Hx.
  destruct (negb (Contains s ".v1.") && negb (Contains s ".v2.")
            && negb (Contains s ".v3.")) eqn:Hguard.
  { (* none of .v1. .v2. .v3.: the path is returned alone *)
    rewrite (generated_guarded s Hguard) in Ht.
    apply list_elem_of_singleton in Ht. now subst t. }
  destruct (no_version_dichotomy s (Legacy.versionsUpTo maxVersion))
    as [Hnone|(n & Hn & Hc)].
  - (* no segment within range: nothing but [s] is generated *)
    apply generated_cases in Ht as [->|(w & _ & ->)]; [done|].
    now rewrite replaceVersion_none in Hx.
  - destruct (Contains_split _ _ Hc) as (pre & post & -> & _).
    pose proof (single_segment maxVersion post n Hn pre Hone) as Hseg.
    assert (Hrv : forall v w,
               v ∈ Legacy.versionsUpTo maxVersion ->
               Legacy.replaceVersion (pre +:+ Legacy.versionPattern v +:+ post) w
                                     (Legacy.versionsUpTo maxVersion)
               = pre +:+ Legacy.versionPattern w +:+ post).
    { intros v w Hv. destruct (Hseg v Hv) as [Honly Hrep].
      rewrite (replaceVersion_one _ v w _ Hv Honly (Contains_occurrence _ _ _)).
      apply Hrep. }
    assert (Ht' : exists v, v ∈ Legacy.versionsUpTo maxVersion /\
                            t = pre +:+ Legacy.versionPattern v +:+ post).
    { apply generated_cases in Ht as [->|(w & Hw & ->)]; [eauto|].
      exists w. split; [done | now apply Hrv]. }
    destruct Ht' as (v & Hv & ->).
    assert (Hx' : exists w, w ∈ Legacy.versionsUpTo maxVersion /\
                            x = pre +:+ Legacy.versionPattern w +:+ post).
    { apply generated_cases in Hx as [->|(w & Hw & ->)]; [eauto|].
      exists w. split; [done | now apply Hrv]. }
    destruct Hx' as (w & Hw & ->).
    rewrite (generated_unguarded _ Hguard). apply elem_of_app.
    destruct (decide (pre +:+ Legacy.versionPattern w +:+ post
                      = pre +:+ Legacy.versionPattern n +:+ post)) as [->|Hne].
    + right. now left.
    + left. apply elem_of_versionedPaths. exists w.
      split; [done|]. split; [|done]. symmetry. now apply Hrv.
Qed.

Lemma elem_of_fuzz paths x :
  x ∈ Legacy.fuzzServiceVersions paths maxVersion <->
  exists path, path ∈ paths /\ x ∈ Legacy.generateVersionedServicePaths path maxVersion.
Proof.
  induction paths as [|p paths IH]; simpl.
  - split; [intros H; inversion H | intros (path & H & _); inversion H].
  - rewrite elem_of_app, IH. split.
    + intros [H|(path & Hp & H)]; [exists p | exists path]; split; try done;
        [now left | now right].
    + intros (path & Hp & H). apply elem_of_cons in Hp as [->|Hp]; eauto.
Qed.

End FuzzIdempotence.

(** C7 (amended): for service paths that hold at most one version
    segment [.vN.] with [1 <= N <= maxVersion], fuzzing the versions twice
    gives the same set of candidate paths as fuzzing them once. *)
Theorem fuzzServiceVersions_idempotent (servicePaths : list string) (maxVersion : Z) :
  Forall (singleVersioned maxVersion) servicePaths ->
  candidateSet (Legacy.fuzzServiceVersions
                  (Legacy.fuzzServiceVersions servicePaths maxVersion) maxVersion)
  = candidateSet (Legacy.fuzzServiceVersions servicePaths maxVersion).
Proof.
  intros Hall. apply set_eq. intros x. unfold candidateSet.
  rewrite !elem_of_list_to_set, !elem_of_fuzz. split.
  - intros (t & Ht & Hx). apply elem_of_fuzz in Ht as (path & Hpath & Ht).
    exists path. split; [done|].
    apply (generated_closed maxVersion path t x); [|done|done].
    rewrite Forall_forall in Hall. now apply Hall.
  - intros (path & Hpath & Hx). exists x. split; [|apply generated_self].
    apply elem_of_fuzz. eauto.
Qed.

Lemma fuzzServiceVersions_idempotent_witness :
  candidateSet
    (Legacy.fuzzServiceVersions
       (Legacy.fuzzServiceVersions
          ["grpc.health.v1.Health"; "payment.v2.PaymentService"; "helloworld.Greeter"] 3) 3)
  = candidateSet
      (Legacy.fuzzServiceVersions
         ["grpc.health.v1.Health"; "payment.v2.PaymentService"; "helloworld.Greeter"] 3).
Proof.
  apply fuzzServiceVersions_idempotent.
  repeat constructor; unfold singleVersioned; vm_compute; lia.
Defined.

(** C7 as stated fails on a path with two version segments: the second
    pass re-versions the segment the first pass left alone. *)
Lemma fuzzServiceVersions_not_idempotent :
  candidateSet (Legacy.fuzzServiceVersions
                  (Legacy.fuzzServiceVersions ["a.v2.b.v1.c"] 3) 3)
  <> candidateSet (Legacy.fuzzServiceVersions ["a.v2.b.v1.c"] 3).
Proof.
  intros H.
  assert (Hin : "a.v1.b.v2.c" ∈ candidateSet
                  (Legacy.fuzzServiceVersions
                     (Legacy.fuzzServiceVersions ["a.v2.b.v1.c"] 3) 3)).
  { apply elem_of_list_to_set. apply (bool_decide_unpack _). vm_compute. exact I. }
  rewrite H in Hin. apply elem_of_list_to_set in Hin. revert Hin.
  apply (bool_decide_unpack _). vm_compute. exact I.
Qed.

(** * Further properties of the scanner *)

(** ** What the locked updates do to the lists *)

Section Updates.
Import Scanner.

Lemma addMethod_methodsOf r service method s m :
  m ∈ methodsOf (addMethod r service method) s <->
  m ∈ methodsOf r s \/ (s = service /\ m = method).
Proof.
  unfold methodsOf, addMethod.
  set (found := match MethodsFound r !! service with
                | Some _ => MethodsFound r
                | None => <[service := []]> (MethodsFound r)
                end).
  assert (Hfound : forall s', default [] (found !! s') = default [] (MethodsFound r !! s')).
  { intros s'. unfold found. destruct (MethodsFound r !! service) eqn:Hl; [done|].
    destruct (decide (s' = service)) as [->|Hne].
    - now rewrite lookup_insert_eq, Hl.
    - now rewrite lookup_insert_ne. }
  destruct (existsb _ _) eqn:Hex; simpl.
  - rewrite Hfound. split; [auto|]. intros [H|[-> ->]]; [done|].
    apply existsb_eqb_elem_of in Hex. now rewrite Hfound in Hex.
  - destruct (decide (s = service)) as [->|Hne].
    + rewrite lookup_insert_eq. simpl.
      rewrite elem_of_app, list_elem_of_singleton, Hfound. tauto.
    + rewrite lookup_insert_ne by done. rewrite Hfound. tauto.
Qed.

Lemma addService_methodsOf r service source s :
  methodsOf (addService r service source) s = methodsOf r s.
Proof. unfold methodsOf. now rewrite addService_methods. Qed.

Lemma services_after_updates us : forall r x,
  x ∈ AvailableServices (applyUpdates r us) <->
  x ∈ AvailableServices r \/ exists source, AddService x source ∈ us.
Proof.
  unfold applyUpdates.
  induction us as [|u us IH]; intros r x; simpl.
  - split; [auto | intros [H|[source H]]; [done | inversion H]].
  - rewrite IH. destruct u as [service source|service method]; simpl.
    + rewrite addService_services. split.
      * intros [[->|H]|[src H]]; eauto.
        -- right. exists source. now left.
        -- right. exists src. now right.
      * intros [H|[src H]]; [tauto|].
        apply elem_of_cons in H as [H|H]; [injection H as -> _; tauto | eauto].
    + rewrite addMethod_services. split.
      * intros [H|[src H]]; [tauto|]. right. exists src. now right.
      * intros [H|[src H]]; [tauto|].
        apply elem_of_cons in H as [H|H]; [discriminate | eauto].
Qed.

Lemma methods_after_updates us : forall r s m,
  m ∈ methodsOf (applyUpdates r us) s <->
  m ∈ methodsOf r s \/ AddMethod s m ∈ us.
Proof.
  unfold applyUpdates.
  induction us as [|u us IH]; intros r s m; simpl.
  - split; [auto | intros [H|H]; [done | inversion H]].
  - rewrite IH. destruct u as [service source|service method]; simpl.
    + rewrite addService_methodsOf. split.
      * intros [H|H]; [tauto | right; now right].
      * intros [H|H]; [tauto|].
        apply elem_of_cons in H as [H|H]; [discriminate | tauto].
    + rewrite addMethod_methodsOf. split.
      * intros [[H|[-> ->]]|H]; [tauto | right; now left | right; now right].
      * intros [H|H]; [tauto|].
        apply elem_of_cons in H as [H|H]; [injection H as -> ->; tauto | tauto].
Qed.

Lemma keys_after_updates us : forall r s,
  s ∈ dom (MethodsFound (applyUpdates r us)) <->
  s ∈ dom (MethodsFound r) \/ exists m, AddMethod s m ∈ us.
Proof.
  unfold applyUpdates.
  induction us as [|u us IH]; intros r s; simpl.
  - split; [auto | intros [H|[m H]]; [done | inversion H]].
  - rewrite IH. destruct u as [service source|service method]; simpl.
    + rewrite addService_methods. split.
      * intros [H|[m H]]; [tauto | right; exists m; now right].
      * intros [H|[m H]]; [tauto|].
        apply elem_of_cons in H as [H|H]; [discriminate | eauto].
    + rewrite addMethod_keys. split.
      * intros [[->|H]|[m H]]; [right; exists method; now left | tauto
                                | right; exists m; now right].
      * intros [H|[m H]]; [tauto|].
        apply elem_of_cons in H as [H|H]; [injection H as -> _; tauto | eauto].
Qed.

Lemma addService_prefix r service source :
  AvailableServices r `prefix_of` AvailableServices (addService r service source).
Proof.
  unfold addService. destruct (existsb _ _); simpl; [done|].
  now apply prefix_app_r.
Qed.

Lemma addMethod_prefix r service method s :
  methodsOf r s `prefix_of` methodsOf (addMethod r service method) s.
Proof.
  unfold methodsOf, addMethod.
  set (found := match MethodsFound r !! service with
                | Some _ => MethodsFound r
                | None => <[service := []]> (MethodsFound r)
                end).
  assert (Hfound : forall s', default [] (found !! s') = default [] (MethodsFound r !! s')).
  { intros s'. unfold found. destruct (MethodsFound r !! service) eqn:Hl; [done|].
    destruct (decide (s' = service)) as [->|Hne].
    - now rewrite lookup_insert_eq, Hl.
    - now rewrite lookup_insert_ne. }
  destruct (existsb _ _); simpl; [now rewrite Hfound|].
  destruct (decide (s = service)) as [->|Hne].
  - rewrite lookup_insert_eq. simpl. rewrite Hfound. now apply prefix_app_r.
  - rewrite lookup_insert_ne by done. now rewrite Hfound.
Qed.

Lemma applyUpdates_prefix us : forall r,
  AvailableServices r `prefix_of` AvailableServices (applyUpdates r us) /\
  forall s, methodsOf r s `prefix_of` methodsOf (applyUpdates r us) s.
Proof.
  unfold applyUpdates.
  induction us as [|u us IH]; intros r; simpl; [done|].
  destruct (IH (applyUpdate r u)) as [IHs IHm]. split.
  - etrans; [|exact IHs]. destruct u; simpl;
      [apply addService_prefix | now rewrite addMethod_services].
  - intros s. etrans; [|apply IHm]. destruct u; simpl;
      [now rewrite addService_methodsOf | apply addMethod_prefix].
Qed.

(** The updates read and write the two lists only. *)
Lemma applyUpdate_sameLists r r' u :
  sameLists r r' -> sameLists (applyUpdate r u) (applyUpdate r' u).
Proof.
  intros [Hs Hm]. destruct u as [service source|service method]; simpl.
  - unfold addService. rewrite Hs. destruct (existsb _ _); split; simpl; congruence.
  - unfold addMethod. rewrite Hm. destruct (existsb _ _); split; simpl; congruence.
Qed.

Lemma applyUpdates_sameLists us : forall r r',
  sameLists r r' -> sameLists (applyUpdates r us) (applyUpdates r' us).
Proof.
  unfold applyUpdates. induction us as [|u us IH]; intros r r' H; [done|].
  simpl. now apply IH, applyUpdate_sameLists.
Qed.

Lemma applyUpdates_app r us1 us2 :
  applyUpdates r (us1 ++ us2) = applyUpdates (applyUpdates r us1) us2.
Proof. unfold applyUpdates. apply foldl_app. Qed.

Lemma applyUpdates_ScanMode us : forall r,
  ScanMode (applyUpdates r us) = ScanMode r.
Proof.
  unfold applyUpdates. induction us as [|u us IH]; intros r; [done|].
  simpl. rewrite IH. destruct u; simpl.
  - unfold addService. now destruct (existsb _ _).
  - unfold addMethod. now destruct (existsb _ _).
Qed.

End Updates.

(** ** Goroutines: nothing is lost, only the order varies *)

Section Schedules.
Import Scanner.

Lemma concat_insert_head (workers : list (list Update)) : forall i u us,
  workers !! i = Some (u :: us) ->
  concat workers ≡ₚ u :: concat (<[i := us]> workers).
Proof.
  induction workers as [|w workers IH]; intros i u us Hi; [done|].
  destruct i as [|i]; simpl in *.
  - injection Hi as ->. done.
  - rewrite (IH i u us Hi). symmetry. apply Permutation_middle.
Qed.

Lemma interleave_Permutation schedule : forall workers,
  interleave schedule workers ≡ₚ concat workers.
Proof.
  induction schedule as [|i schedule IH]; intros workers; simpl; [done|].
  destruct (workers !! i) as [[|u us]|] eqn:Hi; try apply IH.
  rewrite IH. symmetry. now apply concat_insert_head.
Qed.

Lemma elem_of_concat {A} (ls : list (list A)) (x : A) :
  x ∈ concat ls <-> exists l, l ∈ ls /\ x ∈ l.
Proof.
  induction ls as [|l ls IH]; simpl.
  - split; [intros H; inversion H | intros (l & H & _); inversion H].
  - rewrite elem_of_app, IH. split.
    + intros [H|(l' & H1 & H2)]; [exists l | exists l']; split; try done;
        [now left | now right].
    + intros (l' & H1 & H2). apply elem_of_cons in H1 as [->|H1]; eauto.
Qed.

Lemma elem_of_interleave schedule workers u :
  u ∈ interleave schedule workers <-> exists w, w ∈ workers /\ u ∈ w.
Proof.
  now rewrite (interleave_Permutation schedule workers), elem_of_concat.
Qed.

Lemma updates_sameContents r us us' :
  (forall u, u ∈ us <-> u ∈ us') ->
  sameContents (applyUpdates r us) (applyUpdates r us').
Proof.
  intros H. repeat split.
  - rewrite services_after_updates. intros [?|[src Hu]]; apply services_after_updates;
      [tauto | right; exists src; now apply H].
  - rewrite services_after_updates. intros [?|[src Hu]]; apply services_after_updates;
      [tauto | right; exists src; now apply H].
  - rewrite keys_after_updates. intros [?|[m Hu]]; apply keys_after_updates;
      [tauto | right; exists m; now apply H].
  - rewrite keys_after_updates. intros [?|[m Hu]]; apply keys_after_updates;
      [tauto | right; exists m; now apply H].
  - rewrite methods_after_updates. intros [?|Hu]; apply methods_after_updates;
      [tauto | right; now apply H].
  - rewrite methods_after_updates. intros [?|Hu]; apply methods_after_updates;
      [tauto | right; now apply H].
Qed.

Lemma sameContents_refl r : sameContents r r.
Proof. repeat split; auto. Qed.

Lemma interleave_sameContents r schedule schedule' workers :
  sameContents (applyUpdates r (interleave schedule workers))
               (applyUpdates r (interleave schedule' workers)).
Proof.
  apply updates_sameContents. intros u. now rewrite !elem_of_interleave.
Qed.

End Schedules.

(** X1: whatever confirms a method confirms its service: when [checkMethod]
    returns true for an answer, so does [checkService]. *)
Theorem checkMethod_confirms_service (conn : ClientConn) (service method : string) :
  Scanner.checkMethod conn service method = true ->
  Scanner.checkService conn service method = true.
Proof.
  unfold Scanner.checkMethod, Scanner.checkService.
  destruct (conn (fullMethodOf service method)) as [|code message|text]; [done| |done].
  destruct code; simpl; try done.
Qed.

Lemma checkMethod_confirms_service_witness :
  Scanner.checkService sampleServer "user.UserService" "Login" = true.
Proof.
  apply (checkMethod_confirms_service sampleServer "user.UserService" "Login").
  reflexivity.
Defined.

Section Workers.
Import Scanner.

Lemma inconclusive_checkService conn service method :
  inconclusive (conn (fullMethodOf service method)) = true ->
  checkService conn service method = false.
Proof.
  unfold checkService.
  destruct (conn (fullMethodOf service method)) as [|code message|text]; try done.
  destruct code; done.
Qed.

Lemma tryPatterns_inconclusive calls methodsToTry patterns : forall k,
  (forall k path, inconclusive (calls k path) = true) ->
  tryPatterns calls k methodsToTry patterns = [].
Proof.
  intros k H. revert k.
  induction patterns as [|pattern rest IH]; intros k; simpl; [done|].
  destruct methodsToTry as [|first others]; [apply IH|].
  rewrite inconclusive_checkService by apply H. apply IH.
Qed.

Lemma checkMethods_shape calls methods : forall k service,
  exists found, checkMethods calls k service methods = map (AddMethod service) found /\
                found `sublist_of` methods.
Proof.
  induction methods as [|method rest IH]; intros k service.
  - exists []. done.
  - destruct (IH (S k) service) as (found & Heq & Hsub). simpl.
    destruct (checkMethod _ _ _).
    + exists (method :: found). simpl. rewrite Heq. split; [done|].
      now apply sublist_skip.
    + exists found. simpl. split; [done | now apply sublist_cons].
Qed.

Lemma tryPatterns_shape calls methodsToTry patterns : forall k,
  tryPatterns calls k methodsToTry patterns = [] \/
  exists pattern found,
    pattern ∈ patterns /\ found `sublist_of` methodsToTry /\
    tryPatterns calls k methodsToTry patterns
    = AddService pattern "wordlist" :: map (AddMethod pattern) found.
Proof.
  induction patterns as [|pattern rest IH]; intros k; simpl; [now left|].
  assert (Hrest : forall k',
             tryPatterns calls k' methodsToTry rest = [] \/
             exists p found,
               p ∈ pattern :: rest /\ found `sublist_of` methodsToTry /\
               tryPatterns calls k' methodsToTry rest
               = AddService p "wordlist" :: map (AddMethod p) found).
  { intros k'. destruct (IH k') as [H|(p & found & Hp & Hsub & Heq)]; [now left|].
    right. exists p, found. split; [now right | done]. }
  destruct methodsToTry as [|first others]; [apply Hrest|].
  destruct (checkService _ _ _); [|apply Hrest].
  right. destruct (checkMethods_shape calls (first :: others) (S k) pattern)
    as (found & Heq & Hsub).
  exists pattern, found. split; [now left|]. split; [done|]. now rewrite Heq.
Qed.

End Workers.

(** X2: answers that carry no gRPC status, or the status UNAVAILABLE, never
    change the result: a wordlist or smart-pattern goroutine that gets only
    such answers performs no update. *)
Theorem inconclusive_answers_record_nothing
        (calls : Scanner.Calls) (defaultMethods : list string)
        (e : Scanner.WordlistEntry) (p : Scanner.ServicePattern) :
  (forall k path, inconclusive (calls k path) = true) ->
  Scanner.wordlistWorker calls defaultMethods e = [] /\
  Scanner.smartWorker calls p = [].
Proof.
  intros H. split.
  - now apply tryPatterns_inconclusive.
  - unfold Scanner.smartWorker. destruct (Scanner.PMethods p); [done|].
    now rewrite inconclusive_checkService by apply H.
Qed.

Lemma inconclusive_answers_record_nothing_witness :
  Scanner.wordlistWorker (fun _ => constConn (PlainError "connection reset"))
    Scanner.builtinDefaultMethods (Scanner.mkWordlistEntry "User" []) = [] /\
  Scanner.smartWorker (fun _ => constConn (PlainError "connection reset"))
    (Scanner.mkServicePattern "user" ["Get"; "List"]) = [].
Proof.
  apply (inconclusive_answers_record_nothing
           (fun _ => constConn (PlainError "connection reset"))).
  reflexivity.
Defined.

(** The package part of a pattern is lower-cased over all of Unicode. *)
Example patternsOf_diaeresis :
  Scanner.patternsOf (capitalUDiaeresis +:+ "ber")
  = [ capitalUDiaeresis +:+ "ber";
      capitalUDiaeresis +:+ "berService";
      smallUDiaeresis +:+ "ber." +:+ capitalUDiaeresis +:+ "berService";
      "api." +:+ capitalUDiaeresis +:+ "ber";
      smallUDiaeresis +:+ "ber.v1." +:+ capitalUDiaeresis +:+ "berService" ].
Proof. reflexivity. Qed.

(** X3: a wordlist entry yields at most one service: its goroutine either
    records nothing, or records one of the entry's patterns (the first that
    answers) followed only by methods of that service, taken in order from
    the methods it was given to try. *)
Theorem wordlistWorker_one_service
        (calls : Scanner.Calls) (defaultMethods : list string)
        (e : Scanner.WordlistEntry) :
  Scanner.wordlistWorker calls defaultMethods e = [] \/
  exists pattern found,
    pattern ∈ Scanner.patternsOf (Scanner.Service e) /\
    found `sublist_of` (if Z.of_nat (length (Scanner.Methods e)) =? 0
                        then defaultMethods else Scanner.Methods e) /\
    Scanner.wordlistWorker calls defaultMethods e
    = Scanner.AddService pattern "wordlist" :: map (Scanner.AddMethod pattern) found.
Proof. apply tryPatterns_shape. Qed.

(** ** What [Run] returns *)

Section RunShape.
Import Scanner.

Lemma sameLists_trans r1 r2 r3 : sameLists r1 r2 -> sameLists r2 r3 -> sameLists r1 r3.
Proof. intros [? ?] [? ?]. split; congruence. Qed.

Lemma tryReflection_sameLists r stream :
  sameLists (snd (tryReflection r stream)) (applyUpdates r (reflectionUpdates stream)).
Proof.
  destruct stream as [| | |[services|]]; simpl; try done.
  now apply applyUpdates_sameLists.
Qed.

(** A successful [Run] applies the reflection updates, then those of the
    standard checks, then those of the goroutines. *)
Lemma semaphore_cases threads jobs :
  semaphore threads jobs = None \/
  semaphore threads jobs = Some Panics \/
  semaphore threads jobs = Some Blocks.
Proof.
  unfold semaphore. destruct (threads <? 0); [now (right; left)|].
  destruct (_ && _); [now (right; right) | now left].
Qed.

Lemma Run_shape wordlist env r :
  fst (Run wordlist env r) = Returns None ->
  exists us,
    sameLists (snd (Run wordlist env r))
              (applyUpdates r (reflectionUpdates (reflection env)
                               ++ checkStandardServices (calls env) 1 ++ us)).
Proof.
  unfold Run.
  destruct (dialError env); [done|].
  destruct (connected env); [|done]. simpl negb. cbv iota.
  destruct (detectServiceType (calls env 0%nat)) as [[|] kind]; [|done].
  simpl negb. cbv iota.
  pose proof (tryReflection_sameLists r (reflection env)) as Hrefl.
  destruct (tryReflection r (reflection env)) as [reflected r1]. simpl in Hrefl.
  set (r2 := if reflected then setScanMode r1 "reflection" else r1).
  assert (Hr2 : sameLists r2 (applyUpdates r (reflectionUpdates (reflection env)))).
  { unfold r2. destruct reflected; exact Hrefl. }
  set (std := checkStandardServices (calls env) 1).
  set (r3 := applyUpdates r2 std).
  assert (Hr3 : forall us,
             sameLists (applyUpdates r3 us)
                       (applyUpdates r (reflectionUpdates (reflection env) ++ std ++ us))).
  { intros us. rewrite !applyUpdates_app. unfold r3.
    now apply applyUpdates_sameLists, applyUpdates_sameLists. }
  destruct (negb (ReflectionEnabled r3) || _).
  - destruct (negb (String.eqb wordlist "")).
    + unfold wordlistBruteForce.
      destruct (loadEnhancedWordlist (wordlistFile env)) as [[entries globals]|err];
        simpl; [|done].
      destruct (semaphore_cases (threads env) (length entries)) as [Hs|[Hs|Hs]];
        rewrite Hs; simpl; [|done|done].
      intros _. eexists.
      eapply sameLists_trans; [|apply Hr3]. now apply applyUpdates_sameLists.
    + unfold smartBruteForce.
      destruct (semaphore_cases (threads env) (length generateSmartPatterns))
        as [Hs|[Hs|Hs]]; rewrite Hs; simpl; [|done|done].
      intros _. eexists.
      eapply sameLists_trans; [|apply Hr3]. now apply applyUpdates_sameLists.
  - intros _. exists [].
    destruct (String.eqb (ScanMode r3) ""); simpl;
      (eapply sameLists_trans; [|apply (Hr3 [])]); done.
Qed.

Lemma Run_with_schedule wordlist env schedule' r :
  fst (Run wordlist (withSchedule env schedule') r) = fst (Run wordlist env r) /\
  sameContents (snd (Run wordlist env r))
               (snd (Run wordlist (withSchedule env schedule') r)).
Proof.
  unfold Run, withSchedule. simpl.
  destruct (dialError env); [split; [done | apply sameContents_refl]|].
  destruct (connected env); [|split; [done | apply sameContents_refl]].
  simpl negb. cbv iota.
  destruct (detectServiceType (calls env 0%nat)) as [[|] kind];
    [|split; [done | apply sameContents_refl]].
  simpl negb. cbv iota.
  destruct (tryReflection r (reflection env)) as [reflected r1].
  set (r2 := if reflected then setScanMode r1 "reflection" else r1).
  set (r3 := applyUpdates r2 (checkStandardServices (calls env) 1)).
  destruct (negb (ReflectionEnabled r3) || _).
  - destruct (negb (String.eqb wordlist "")).
    + unfold wordlistBruteForce. simpl.
      destruct (loadEnhancedWordlist (wordlistFile env)) as [[entries globals]|err];
        simpl; [|split; [done | apply sameContents_refl]].
      destruct (semaphore_cases (threads env) (length entries)) as [Hs|[Hs|Hs]];
        rewrite Hs; simpl; [|split; [done | apply sameContents_refl]..].
      split; [done | apply interleave_sameContents].
    + unfold smartBruteForce. simpl.
      destruct (semaphore_cases (threads env) (length generateSmartPatterns))
        as [Hs|[Hs|Hs]]; rewrite Hs; simpl;
        [|split; [done | apply sameContents_refl]..].
      split; [done | apply interleave_sameContents].
  - destruct (String.eqb (ScanMode r3) ""); simpl;
      (split; [done | apply sameContents_refl]).
Qed.

Lemma Run_mode wordlist env r :
  ReflectionEnabled r = false -> ScanMode r = "" ->
  let r' := snd (Run wordlist env r) in
  ScanMode r' ∈ [""; "reflection"; "wordlist"; "bruteforce"] /\
  (fst (Run wordlist env r) = Returns None -> ScanMode r' <> "") /\
  (ScanMode r' = "reflection" ->
   ReflectionEnabled r' = true /\ (2 <= length (AvailableServices r'))%nat).
Proof.
  intros Hflag Hmode. unfold Run.
  destruct (dialError env);
    [simpl; rewrite Hmode; split; [now left|split; done]|].
  destruct (connected env);
    [|simpl; rewrite Hmode; split; [now left|split; done]].
  simpl negb. cbv iota.
  destruct (detectServiceType (calls env 0%nat)) as [[|] kind];
    [|simpl; rewrite Hmode; split; [now left|split; done]].
  simpl negb. cbv iota.
  assert (Hrefl : let '(reflected, r1) := tryReflection r (reflection env) in
                  ScanMode r1 = "" /\ ReflectionEnabled r1 = reflected).
  { destruct (reflection env) as [| | |[services|]]; simpl; try done.
    now rewrite applyUpdates_ScanMode, applyUpdates_ReflectionEnabled. }
  destruct (tryReflection r (reflection env)) as [reflected r1].
  destruct Hrefl as [Hm1 Hf1].
  set (r2 := if reflected then setScanMode r1 "reflection" else r1).
  set (r3 := applyUpdates r2 (checkStandardServices (calls env) 1)).
  assert (Hf3 : ReflectionEnabled r3 = reflected).
  { unfold r3. rewrite applyUpdates_ReflectionEnabled. unfold r2.
    now destruct reflected. }
  assert (Hm3 : ScanMode r3 = if reflected then "reflection" else "").
  { unfold r3. rewrite applyUpdates_ScanMode. unfold r2. now destruct reflected. }
  destruct (negb (ReflectionEnabled r3) || _) eqn:Hfallback.
  - destruct (negb (String.eqb wordlist "")).
    + unfold wordlistBruteForce.
      destruct (loadEnhancedWordlist (wordlistFile env)) as [[entries globals]|err];
        [destruct (semaphore_cases (threads env) (length entries)) as [Hs|[Hs|Hs]];
         rewrite Hs|];
        simpl; rewrite ?applyUpdates_ScanMode; simpl;
        (split; [rewrite !elem_of_cons; auto 6|split; done]).
    + unfold smartBruteForce.
      destruct (semaphore_cases (threads env) (length generateSmartPatterns))
        as [Hs|[Hs|Hs]]; rewrite Hs;
        simpl; rewrite ?applyUpdates_ScanMode; simpl;
        (split; [rewrite !elem_of_cons; auto 6|split; done]).
  - apply orb_false_iff in Hfallback as [Hen Hlen].
    apply negb_false_iff in Hen. rewrite Hf3 in Hen. rewrite Hen in Hm3.
    rewrite Hm3. simpl. rewrite Hm3.
    split; [rewrite !elem_of_cons; auto 6|]. split; [done|].
    intros _. split; [congruence|]. apply Z.leb_gt in Hlen. lia.
Qed.

End RunShape.

Lemma semaphore_ready threads jobs :
  1 <= threads -> Scanner.semaphore threads jobs = None.
Proof.
  intros H. unfold Scanner.semaphore.
  destruct (threads <? 0) eqn:E1; [apply Z.ltb_lt in E1; lia|].
  destruct (threads =? 0) eqn:E2; [apply Z.eqb_eq in E2; lia | done].
Qed.

Lemma semaphore_stopped threads jobs stopped :
  Scanner.semaphore threads jobs = Some stopped ->
  stopped = Scanner.Panics /\ threads < 0 \/
  stopped = Scanner.Blocks /\ threads = 0 /\ (0 < jobs)%nat.
Proof.
  unfold Scanner.semaphore.
  destruct (threads <? 0) eqn:E1.
  - intros [= <-]. left. split; [done | now apply Z.ltb_lt].
  - destruct (threads =? 0) eqn:E2; [|done].
    destruct (0 <? Z.of_nat jobs) eqn:E3; [|done].
    intros [= <-]. right. apply Z.eqb_eq in E2. apply Z.ltb_lt in E3.
    split; [done|]. split; [done | lia].
Qed.

Lemma semaphore_smart threads :
  threads <= 0 ->
  Scanner.semaphore threads (length Scanner.generateSmartPatterns) = Some Scanner.Panics \/
  Scanner.semaphore threads (length Scanner.generateSmartPatterns) = Some Scanner.Blocks.
Proof.
  intros H. unfold Scanner.semaphore.
  destruct (threads <? 0) eqn:E1; [now left|]. right.
  apply Z.ltb_ge in E1. replace threads with 0 by lia. reflexivity.
Qed.

(** X4: [Run] returns an error, and leaves the result as it was, when the
    dial fails, when the connection does not become ready and when the peer
    is not gRPC.  With at least one thread a scan without a wordlist has no
    other way not to return nil.  A scan panics only with a negative number
    of threads and waits for ever only with none; without a usable pool a
    scan without a wordlist returns nil only when reflection is enabled and
    lists two services or more, that is when brute force is not needed. *)
Theorem Run_errors (wordlist : string) (env : Scanner.Env) (r : Scanner.ScanResult) :
  (forall text, Scanner.dialError env = Some text ->
                Scanner.Run wordlist env r
                = (Scanner.Returns (Some ("failed to connect: " +:+ text)), r)) /\
  (Scanner.dialError env = None -> Scanner.connected env = false ->
   Scanner.Run wordlist env r = (Scanner.Returns (Some "connection failed"), r)) /\
  (Scanner.dialError env = None -> Scanner.connected env = true ->
   fst (Scanner.detectServiceType (Scanner.calls env 0%nat)) = false ->
   Scanner.Run wordlist env r = (Scanner.Returns (Some "not a gRPC service"), r)) /\
  (1 <= Scanner.threads env ->
   (fst (Scanner.Run "" env r) = Scanner.Returns None <->
    Scanner.dialError env = None /\ Scanner.connected env = true /\
    fst (Scanner.detectServiceType (Scanner.calls env 0%nat)) = true)) /\
  (fst (Scanner.Run wordlist env r) = Scanner.Panics -> Scanner.threads env < 0) /\
  (fst (Scanner.Run wordlist env r) = Scanner.Blocks -> Scanner.threads env = 0) /\
  (Scanner.threads env <= 0 ->
   fst (Scanner.Run "" env r) = Scanner.Returns None ->
   Scanner.ReflectionEnabled (snd (Scanner.Run "" env r)) = true /\
   (2 <= length (Scanner.AvailableServices (snd (Scanner.Run "" env r))))%nat).
Proof.
  split; [|split; [|split; [|split; [|split; [|split]]]]].
  - intros text Hd. unfold Scanner.Run. now rewrite Hd.
  - intros Hd Hc. unfold Scanner.Run. now rewrite Hd, Hc.
  - intros Hd Hc Hg. unfold Scanner.Run. rewrite Hd, Hc.
    destruct (Scanner.detectServiceType _) as [[|] kind]; [done|]. reflexivity.
  - intros Hthreads. unfold Scanner.Run. split.
    + destruct (Scanner.dialError env); [done|].
      destruct (Scanner.connected env); [|done]. simpl.
      destruct (Scanner.detectServiceType _) as [[|] kind]; done.
    + intros (-> & -> & Hgrpc). simpl.
      destruct (Scanner.detectServiceType _) as [[|] kind]; [|done]. simpl.
      destruct (Scanner.tryReflection r (Scanner.reflection env)) as [reflected r1].
      destruct (negb _ || _).
      * unfold Scanner.smartBruteForce. now rewrite semaphore_ready.
      * now destruct (String.eqb _ "").
  - unfold Scanner.Run.
    destruct (Scanner.dialError env); [done|].
    destruct (Scanner.connected env); [|done]. simpl.
    destruct (Scanner.detectServiceType _) as [[|] kind]; [|done]. simpl.
    destruct (Scanner.tryReflection r (Scanner.reflection env)) as [reflected r1].
    destruct (negb _ || _); [|now destruct (String.eqb _ "")].
    destruct (negb (String.eqb wordlist "")).
    + unfold Scanner.wordlistBruteForce.
      destruct (Scanner.loadEnhancedWordlist _) as [[entries globals]|err]; [|done].
      destruct (Scanner.semaphore _ _) as [stopped|] eqn:Hs; [|done].
      apply semaphore_stopped in Hs as [[-> H]|[-> _]]; done.
    + unfold Scanner.smartBruteForce.
      destruct (Scanner.semaphore _ _) as [stopped|] eqn:Hs; [|done].
      apply semaphore_stopped in Hs as [[-> H]|[-> _]]; done.
  - unfold Scanner.Run.
    destruct (Scanner.dialError env); [done|].
    destruct (Scanner.connected env); [|done]. simpl.
    destruct (Scanner.detectServiceType _) as [[|] kind]; [|done]. simpl.
    destruct (Scanner.tryReflection r (Scanner.reflection env)) as [reflected r1].
    destruct (negb _ || _); [|now destruct (String.eqb _ "")].
    destruct (negb (String.eqb wordlist "")).
    + unfold Scanner.wordlistBruteForce.
      destruct (Scanner.loadEnhancedWordlist _) as [[entries globals]|err]; [|done].
      destruct (Scanner.semaphore _ _) as [stopped|] eqn:Hs; [|done].
      apply semaphore_stopped in Hs as [[-> _]|[-> [H _]]]; done.
    + unfold Scanner.smartBruteForce.
      destruct (Scanner.semaphore _ _) as [stopped|] eqn:Hs; [|done].
      apply semaphore_stopped in Hs as [[-> _]|[-> [H _]]]; done.
  - intros Hthreads. unfold Scanner.Run.
    destruct (Scanner.dialError env); [done|].
    destruct (Scanner.connected env); [|done]. simpl.
    destruct (Scanner.detectServiceType _) as [[|] kind]; [|done]. simpl.
    destruct (Scanner.tryReflection r (Scanner.reflection env)) as [reflected r1].
    destruct (negb _ || _) eqn:Hfallback.
    + unfold Scanner.smartBruteForce.
      destruct (semaphore_smart _ Hthreads) as [Hs|Hs]; now rewrite Hs.
    + apply orb_false_iff in Hfallback as [Hen Hlen].
      apply negb_false_iff in Hen. apply Z.leb_gt in Hlen. intros _.
      destruct (String.eqb _ ""); simpl; (split; [exact Hen | lia]).
Qed.

(** X5: a scan started on a fresh result never ends in mode "standard";
    when it succeeds the mode is "reflection", "wordlist" or "bruteforce",
    and "reflection" only with reflection enabled and at least two
    services in the result. *)
Theorem Run_scan_modes (wordlist : string) (env : Scanner.Env) (target timestamp : string) :
  let run := Scanner.Run wordlist env (Scanner.newScanResult target timestamp) in
  Scanner.ScanMode (snd run) <> "standard" /\
  (fst run = Scanner.Returns None ->
   Scanner.ScanMode (snd run) ∈ ["reflection"; "wordlist"; "bruteforce"]) /\
  (Scanner.ScanMode (snd run) = "reflection" ->
   Scanner.ReflectionEnabled (snd run) = true /\
   (2 <= length (Scanner.AvailableServices (snd run)))%nat).
Proof.
  destruct (Run_mode wordlist env (Scanner.newScanResult target timestamp)
                     eq_refl eq_refl) as (Hin & Hok & Hrefl).
  split; [|split; [|exact Hrefl]].
  - intros E. rewrite E in Hin. rewrite !elem_of_cons in Hin.
    destruct Hin as [?|[?|[?|[?|H]]]]; try discriminate. inversion H.
  - intros Hnone. specialize (Hok Hnone). rewrite elem_of_cons in Hin.
    destruct Hin as [?|?]; done.
Qed.

(** X6: a scan only appends: the services present before [Run] stay at
    the front of the list in their order, and so do the methods recorded
    under every key. *)
Theorem Run_appends (wordlist : string) (env : Scanner.Env) (r : Scanner.ScanResult) :
  Scanner.AvailableServices r
    `prefix_of` Scanner.AvailableServices (snd (Scanner.Run wordlist env r)) /\
  forall service,
    methodsOf r service `prefix_of` methodsOf (snd (Scanner.Run wordlist env r)) service.
Proof.
  apply (Run_preserves
           (fun r' => Scanner.AvailableServices r `prefix_of` Scanner.AvailableServices r' /\
                      forall service, methodsOf r service `prefix_of` methodsOf r' service)).
  - intros r' us [Hs Hm]. destruct (applyUpdates_prefix us r') as [Hs' Hm']. split.
    + etrans; [exact Hs | exact Hs'].
    + intros service. etrans; [apply Hm | apply Hm'].
  - intros r' mode H. exact H.
  - intros r' b H. exact H.
  - split; [done|]. intros service. done.
Qed.

(** X7: the locked updates add exactly what they are called with: after any
    sequence of [addService] and [addMethod] calls the services are those
    present before and those passed to [addService], the keys of the
    method map are those present before and the services passed to
    [addMethod], and the methods under a key are those present before and
    those passed to [addMethod] for it. *)
Theorem updates_add_exactly (r : Scanner.ScanResult) (us : list Scanner.Update) :
  (forall x, x ∈ Scanner.AvailableServices (Scanner.applyUpdates r us) <->
             x ∈ Scanner.AvailableServices r \/
             exists source, Scanner.AddService x source ∈ us) /\
  (forall s, s ∈ dom (Scanner.MethodsFound (Scanner.applyUpdates r us)) <->
             s ∈ dom (Scanner.MethodsFound r) \/ exists m, Scanner.AddMethod s m ∈ us) /\
  (forall s m, m ∈ methodsOf (Scanner.applyUpdates r us) s <->
               m ∈ methodsOf r s \/ Scanner.AddMethod s m ∈ us).
Proof.
  split; [|split].
  - apply services_after_updates.
  - apply keys_after_updates.
  - apply methods_after_updates.
Qed.

(** X8: the order in which the goroutines take the result mutex changes
    neither whether [Run] fails nor what it finds: under any two schedules
    the results hold the same services, the same keys and the same
    methods under every key. *)
Theorem Run_schedule_independent
        (wordlist : string) (env : Scanner.Env) (schedule' : list nat)
        (r : Scanner.ScanResult) :
  fst (Scanner.Run wordlist (withSchedule env schedule') r)
  = fst (Scanner.Run wordlist env r) /\
  sameContents (snd (Scanner.Run wordlist env r))
               (snd (Scanner.Run wordlist (withSchedule env schedule') r)).
Proof. apply Run_with_schedule. Qed.

(** X9: a successful scan keeps every service the reflection stream
    listed. *)
Theorem Run_keeps_reflected_services
        (wordlist : string) (env : Scanner.Env) (r : Scanner.ScanResult)
        (services : list string) :
  fst (Scanner.Run wordlist env r) = Scanner.Returns None ->
  Scanner.reflection env = Received (Some services) ->
  services ⊆ Scanner.AvailableServices (snd (Scanner.Run wordlist env r)).
Proof.
  intros Hok Hrefl s Hs.
  destruct (Run_shape wordlist env r Hok) as (us & Hsame & _).
  rewrite Hsame, Hrefl. apply services_after_updates. right.
  exists "reflection". simpl. apply elem_of_app. left.
  apply list_elem_of_fmap. eauto.
Qed.

Lemma Run_keeps_reflected_services_witness :
  ["grpc.health.v1.Health"; "user.UserService"]
  ⊆ Scanner.AvailableServices
      (snd (Scanner.Run "" reflectingEnv (Scanner.newScanResult "localhost:50051" ""))).
Proof.
  apply Run_keeps_reflected_services; vm_compute; reflexivity.
Defined.

(** X10: when the health check of the standard checks succeeds, a
    successful scan lists [grpc.health.v1.Health] with the method [Check]. *)
Theorem Run_records_health
        (wordlist : string) (env : Scanner.Env) (r : Scanner.ScanResult) :
  fst (Scanner.Run wordlist env r) = Scanner.Returns None ->
  Scanner.calls env 1%nat "/grpc.health.v1.Health/Check" = NoError ->
  "grpc.health.v1.Health" ∈ Scanner.AvailableServices (snd (Scanner.Run wordlist env r)) /\
  "Check" ∈ methodsOf (snd (Scanner.Run wordlist env r)) "grpc.health.v1.Health".
Proof.
  intros Hok Hhealth.
  destruct (Run_shape wordlist env r Hok) as (us & Hs & Hm).
  unfold methodsOf. rewrite Hs, Hm.
  unfold Scanner.checkStandardServices. rewrite Hhealth. split.
  - apply services_after_updates. right. exists "standard".
    apply elem_of_app. right. now left.
  - apply methods_after_updates. right.
    apply elem_of_app. right. right. now left.
Qed.

Lemma Run_records_health_witness :
  let r := snd (Scanner.Run "users.txt" sampleEnv
                            (Scanner.newScanResult "localhost:50051" "")) in
  "grpc.health.v1.Health" ∈ Scanner.AvailableServices r /\
  "Check" ∈ methodsOf r "grpc.health.v1.Health".
Proof.
  apply Run_records_health; vm_compute; reflexivity.
Defined.

(** * Further properties of the loaders *)

Section Trimming.
Import strings.

Lemma length_skip n : forall s,
  String.length (skip n s) = (String.length s - n)%nat.
Proof.
  induction n as [|n IH]; intros s; [simpl; lia|].
  destruct s as [|c s]; [done|]. simpl. apply IH.
Qed.

Lemma length_upTo n : forall s,
  String.length (upTo n s) = Nat.min n (String.length s).
Proof.
  induction n as [|n IH]; intros s; [done|].
  destruct s as [|c s]; [done|]. simpl. now rewrite IH.
Qed.

Lemma skip_skip n : forall m s, skip m (skip n s) = skip (n + m) s.
Proof.
  induction n as [|n IH]; intros m s; [done|].
  destruct s as [|c s]; [now destruct m|]. simpl. apply IH.
Qed.

Lemma upTo_upTo n : forall m s, upTo m (upTo n s) = upTo (Nat.min m n) s.
Proof.
  induction n as [|n IH]; intros m s.
  - rewrite Nat.min_0_r. now destruct m.
  - destruct s as [|c s]; [now destruct m|].
    destruct m as [|m]; [done|]. simpl. now rewrite IH.
Qed.

Lemma HasPrefix_upTo p : forall n s,
  HasPrefix (upTo n s) p = true -> HasPrefix s p = true.
Proof.
  induction p as [|x p IH]; intros n s; [done|].
  destruct n as [|n]; [done|]. destruct s as [|c s]; [done|].
  cbn [upTo]. rewrite !HasPrefix_cons. destruct (Ascii.eqb c x); [apply IH | done].
Qed.

Lemma HasPrefix_refl s : HasPrefix s s = true.
Proof.
  induction s as [|c s IH]; [done|]. rewrite HasPrefix_cons.
  now rewrite Ascii.eqb_refl.
Qed.

Lemma HasSuffix_cons c s p :
  HasSuffix (String c s) p = String.eqb (String c s) p || HasSuffix s p.
Proof. reflexivity. Qed.

Lemma HasSuffix_length s p :
  HasSuffix s p = true -> (String.length p <= String.length s)%nat.
Proof.
  induction s as [|c s IH].
  - destruct p; [done | discriminate].
  - rewrite HasSuffix_cons. intros H. apply orb_true_iff in H as [H|H].
    + apply String.eqb_eq in H as <-. done.
    + apply IH in H. simpl. lia.
Qed.

Lemma HasSuffix_split s p :
  HasSuffix s p = true ->
  s = upTo (String.length s - String.length p) s +:+ p.
Proof.
  induction s as [|c s IH].
  - destruct p; [done | discriminate].
  - rewrite HasSuffix_cons. intros H. apply orb_true_iff in H as [H|H].
    + apply String.eqb_eq in H as <-. now rewrite Nat.sub_diag.
    + pose proof (HasSuffix_length _ _ H) as Hlen.
      replace (String.length (String c s) - String.length p)%nat
        with (S (String.length s - String.length p)) by (simpl; lia).
      cbn [upTo]. rewrite append_String. f_equal. now apply IH.
Qed.

Lemma whiteSpace_nonempty space : In space whiteSpace -> space <> "".
Proof.
  intros Hin ->. revert Hin. unfold whiteSpace. simpl.
  intuition discriminate.
Qed.

(** The table holds exactly the encodings of the runes that
    [unicode.IsSpace] accepts, each decoded again as that rune. *)
Lemma whiteSpace_IsSpace :
  whiteSpace
  = map utf8.EncodeRune
        (List.filter unicode.IsSpace (map Z.of_nat (seq 0 (Z.to_nat 12289)))) /\
  Forall (fun space =>
            unicode.IsSpace (fst (utf8.DecodeRuneInString space)) = true /\
            snd (utf8.DecodeRuneInString space) = String.length space)
         whiteSpace.
Proof.
  split; [vm_compute; reflexivity|].
  unfold whiteSpace. repeat constructor.
Qed.

Lemma leadingSpace_zero s :
  leadingSpace s = 0%nat <->
  forall space, In space whiteSpace -> HasPrefix s space = false.
Proof.
  unfold leadingSpace. destruct (List.find (HasPrefix s) whiteSpace) as [p|] eqn:E.
  - apply find_some in E as [Hin Hp]. split.
    + intros Hlen. destruct p; [|discriminate]. now apply whiteSpace_nonempty in Hin.
    + intros H. rewrite (H p Hin) in Hp. discriminate.
  - split; [|done]. intros _ space Hin. exact (find_none _ _ E space Hin).
Qed.

Lemma trailingSpace_zero s :
  trailingSpace s = 0%nat <->
  forall space, In space whiteSpace -> HasSuffix s space = false.
Proof.
  unfold trailingSpace. destruct (List.find (HasSuffix s) whiteSpace) as [p|] eqn:E.
  - apply find_some in E as [Hin Hp]. split.
    + intros Hlen. destruct p; [|discriminate]. now apply whiteSpace_nonempty in Hin.
    + intros H. rewrite (H p Hin) in Hp. discriminate.
  - split; [|done]. intros _ space Hin. exact (find_none _ _ E space Hin).
Qed.

Lemma trailingSpace_found s width :
  trailingSpace s = S width ->
  exists space, In space whiteSpace /\ HasSuffix s space = true /\
                String.length space = S width.
Proof.
  unfold trailingSpace. destruct (List.find (HasSuffix s) whiteSpace) as [p|] eqn:E;
    [|done].
  apply find_some in E as [Hin Hp]. intros Hlen. now exists p.
Qed.

Lemma startsSolid_upTo n s : startsSolid s -> startsSolid (upTo n s).
Proof.
  unfold startsSolid. rewrite !leadingSpace_zero. intros H space Hin.
  specialize (H space Hin).
  destruct (HasPrefix (upTo n s) space) eqn:E; [|done].
  apply HasPrefix_upTo in E. congruence.
Qed.

Lemma trimLeft_startsSolid fuel : forall s,
  (String.length s <= fuel)%nat -> startsSolid (trimLeft fuel s).
Proof.
  induction fuel as [|fuel IH]; intros s Hlen.
  - destruct s; [reflexivity | simpl in Hlen; lia].
  - cbn [trimLeft]. destruct (leadingSpace s) as [|width] eqn:E; [exact E|].
    apply IH. rewrite length_skip. lia.
Qed.

Lemma trimLeft_solid fuel s : startsSolid s -> trimLeft fuel s = s.
Proof. unfold startsSolid. intros H. destruct fuel; [done|]. simpl. now rewrite H. Qed.

Lemma trimLeft_skip fuel : forall s, exists n, trimLeft fuel s = skip n s.
Proof.
  induction fuel as [|fuel IH]; intros s; [now exists 0%nat|].
  cbn [trimLeft]. destruct (leadingSpace s) as [|width]; [now exists 0%nat|].
  destruct (IH (skip (S width) s)) as [n Hn]. exists (S width + n)%nat.
  now rewrite Hn, skip_skip.
Qed.

Lemma trimRight_ends fuel : forall s,
  (String.length s <= fuel)%nat -> trailingSpace (trimRight fuel s) = 0%nat.
Proof.
  induction fuel as [|fuel IH]; intros s Hlen.
  - destruct s; [reflexivity | simpl in Hlen; lia].
  - cbn [trimRight]. destruct (trailingSpace s) as [|width] eqn:E; [exact E|].
    apply IH. rewrite length_upTo. lia.
Qed.

Lemma trimRight_ended fuel s : trailingSpace s = 0%nat -> trimRight fuel s = s.
Proof. intros H. destruct fuel; [done|]. simpl. now rewrite H. Qed.

Lemma trimRight_upTo fuel : forall s, exists n, trimRight fuel s = upTo n s.
Proof.
  induction fuel as [|fuel IH]; intros s.
  - exists (String.length s). clear. induction s as [|c s IH]; [done|].
    simpl. now rewrite <- IH.
  - cbn [trimRight]. destruct (trailingSpace s) as [|width].
    + exists (String.length s). clear. induction s as [|c s IH]; [done|].
      simpl. now rewrite <- IH.
    + destruct (IH (upTo (String.length s - S width) s)) as [n Hn].
      eexists. rewrite Hn, upTo_upTo. reflexivity.
Qed.

Lemma trimRight_nonempty fuel : forall s,
  s <> "" -> startsSolid s -> trimRight fuel s <> "".
Proof.
  induction fuel as [|fuel IH]; intros s Hne Hsolid; [done|].
  cbn [trimRight]. destruct (trailingSpace s) as [|width] eqn:E; [done|].
  apply trailingSpace_found in E as (space & Hin & Hsuffix & Hlen).
  apply IH; [|now apply startsSolid_upTo].
  intros Hempty. pose proof (HasSuffix_split _ _ Hsuffix) as Hs.
  rewrite Hlen, Hempty, append_empty in Hs.
  unfold startsSolid in Hsolid. rewrite leadingSpace_zero in Hsolid.
  specialize (Hsolid space Hin). rewrite Hs, HasPrefix_refl in Hsolid. discriminate.
Qed.

Lemma TrimLeftSpace_startsSolid s : startsSolid (TrimLeftSpace s).
Proof. now apply trimLeft_startsSolid. Qed.

Lemma TrimLeftSpace_solid s : startsSolid s -> TrimLeftSpace s = s.
Proof. apply trimLeft_solid. Qed.

Lemma TrimRightSpace_startsSolid s : startsSolid s -> startsSolid (TrimRightSpace s).
Proof.
  intros H. unfold TrimRightSpace.
  destruct (trimRight_upTo (String.length s) s) as [n ->]. now apply startsSolid_upTo.
Qed.

Lemma TrimRightSpace_idem s : TrimRightSpace (TrimRightSpace s) = TrimRightSpace s.
Proof.
  unfold TrimRightSpace at 1. apply trimRight_ended. now apply trimRight_ends.
Qed.

Lemma TrimSpace_idem s : TrimSpace (TrimSpace s) = TrimSpace s.
Proof.
  unfold TrimSpace.
  rewrite (TrimLeftSpace_solid (TrimRightSpace (TrimLeftSpace s))).
  - apply TrimRightSpace_idem.
  - apply TrimRightSpace_startsSolid, TrimLeftSpace_startsSolid.
Qed.

Lemma TrimSpace_startsSolid s : startsSolid (TrimSpace s).
Proof. apply TrimRightSpace_startsSolid, TrimLeftSpace_startsSolid. Qed.

Lemma TrimSpace_solid_nonempty s :
  s <> "" -> startsSolid s -> TrimSpace s <> "".
Proof.
  intros Hne Hsolid. unfold TrimSpace. rewrite TrimLeftSpace_solid by exact Hsolid.
  now apply trimRight_nonempty.
Qed.

(** Occurrences of one byte. *)
Lemma Contains_byte c s x :
  Contains (String c s) (String x "") = Ascii.eqb c x || Contains s (String x "").
Proof. rewrite Contains_cons, HasPrefix_cons. now destruct (Ascii.eqb c x). Qed.

Lemma Contains_byte_empty x : Contains "" (String x "") = false.
Proof. reflexivity. Qed.

Lemma skip_byte n x : forall s,
  Contains s (String x "") = false -> Contains (skip n s) (String x "") = false.
Proof.
  induction n as [|n IH]; intros s; [done|].
  destruct s as [|c s]; [done|]. rewrite Contains_byte. cbn [skip].
  intros H. apply orb_false_iff in H as [_ H]. now apply IH.
Qed.

Lemma upTo_byte n x : forall s,
  Contains s (String x "") = false -> Contains (upTo n s) (String x "") = false.
Proof.
  induction n as [|n IH]; intros s; [now destruct s|].
  destruct s as [|c s]; [done|]. cbn [upTo]. rewrite !Contains_byte.
  intros H. apply orb_false_iff in H as [Hc H]. now rewrite Hc, IH.
Qed.

Lemma TrimSpace_byte s x :
  Contains s (String x "") = false -> Contains (TrimSpace s) (String x "") = false.
Proof.
  intros H. unfold TrimSpace, TrimRightSpace, TrimLeftSpace.
  destruct (trimLeft_skip (String.length s) s) as [n ->].
  destruct (trimRight_upTo (String.length (skip n s)) (skip n s)) as [m ->].
  now apply upTo_byte, skip_byte.
Qed.

Lemma Index_cons c s p :
  Index (String c s) p
  = if HasPrefix (String c s) p then 0
    else let i := Index s p in if i <? 0 then -1 else i + 1.
Proof. reflexivity. Qed.

Lemma Index_range s p : -1 <= Index s p.
Proof.
  induction s as [|c s IH].
  - simpl. destruct (HasPrefix "" p); lia.
  - rewrite Index_cons. destruct (HasPrefix _ p); [lia|].
    simpl. destruct (Index s p <? 0) eqn:E; [lia|]. apply Z.ltb_ge in E. lia.
Qed.

Lemma Index_absent s p : Index s p < 0 -> Contains s p = false.
Proof.
  induction s as [|c s IH].
  - simpl. destruct (HasPrefix "" p); [lia | done].
  - rewrite Index_cons, Contains_cons. destruct (HasPrefix _ p); [lia|].
    simpl. destruct (Index s p <? 0) eqn:E.
    + intros _. apply IH. now apply Z.ltb_lt.
    + apply Z.ltb_ge in E. lia.
Qed.

(** What lies before the first occurrence of a byte does not hold it. *)
Lemma upTo_Index_byte s x :
  0 <= Index s (String x "") ->
  Contains (upTo (Z.to_nat (Index s (String x ""))) s) (String x "") = false.
Proof.
  induction s as [|c s IH].
  - done.
  - rewrite Index_cons, HasPrefix_cons.
    destruct (Ascii.eqb c x) eqn:Hc; [done|]. simpl.
    destruct (Index s (String x "") <? 0) eqn:E; [lia|].
    apply Z.ltb_ge in E. intros _.
    replace (Z.to_nat (Index s (String x "") + 1))
      with (S (Z.to_nat (Index s (String x "")))) by lia.
    simpl upTo. rewrite Contains_byte, Hc. now apply IH.
Qed.

Lemma upTo_head c s n : (0 < n)%nat -> exists t, upTo n (String c s) = String c t.
Proof. destruct n; [lia|]. intros _. simpl. eauto. Qed.

End Trimming.

Section Loaders.
Import strings.

Lemma foldl_invariant {A B} (P : A -> Prop) (step : A -> B -> A) lines acc :
  (forall acc x, P acc -> P (step acc x)) -> P acc -> P (foldl step acc lines).
Proof.
  intros Hstep. revert acc. induction lines as [|x lines IH]; simpl; auto.
Qed.

Lemma foldl_length_bound {A B} (size : A -> nat) (step : A -> B -> A) lines acc :
  (forall acc x, (size (step acc x) <= S (size acc))%nat) ->
  (size (foldl step acc lines) <= size acc + length lines)%nat.
Proof.
  intros Hstep. revert acc. induction lines as [|x lines IH]; simpl; intros acc.
  - lia.
  - specialize (IH (step acc x)). specialize (Hstep acc x). lia.
Qed.

Lemma eqb_empty_false s : String.eqb s "" = false -> s <> "".
Proof. intros H ->. discriminate. Qed.

(** *** The service-path and method files of the stand-alone scanner *)

Lemma scanServiceLine_shape services text :
  Forall (fun p => p <> "" /\ TrimSpace p = p /\ Contains p "#" = false) services ->
  Forall (fun p => p <> "" /\ TrimSpace p = p /\ Contains p "#" = false)
         (Legacy.scanServiceLine services text).
Proof.
  intros Hall. unfold Legacy.scanServiceLine.
  pose proof (TrimSpace_startsSolid text) as Hsolid.
  pose proof (TrimSpace_idem text) as Hidem.
  destruct (String.eqb (TrimSpace text) "") eqn:He; [exact Hall|].
  destruct (HasPrefix (TrimSpace text) "#") eqn:Hp; [exact Hall|]. simpl.
  apply Forall_app. split; [exact Hall|]. apply Forall_singleton.
  apply eqb_empty_false in He.
  destruct (TrimSpace text) as [|c rest] eqn:Hline; [done|].
  destruct (0 <? Index (String c rest) "#") eqn:Hidx.
  - apply Z.ltb_lt in Hidx.
    destruct (upTo_head c rest (Z.to_nat (Index (String c rest) "#"))) as [t Ht];
      [lia|].
    split; [|split].
    + apply TrimSpace_solid_nonempty; [now rewrite Ht | now apply startsSolid_upTo].
    + apply TrimSpace_idem.
    + apply TrimSpace_byte, upTo_Index_byte. lia.
  - apply Z.ltb_ge in Hidx. split; [done|]. split; [exact Hidem|].
    apply Index_absent. rewrite Index_cons, Hp in *. simpl in *.
    destruct (Index rest "#" <? 0) eqn:E; [lia|]. apply Z.ltb_ge in E. lia.
Qed.

Lemma scanServiceLine_length services text :
  (length (Legacy.scanServiceLine services text) <= S (length services))%nat.
Proof.
  unfold Legacy.scanServiceLine.
  destruct (_ || _); [lia|]. rewrite length_app. simpl. lia.
Qed.

Lemma scanMethodLine_shape methods text :
  Forall (fun m => m <> "" /\ TrimSpace m = m /\ HasPrefix m "#" = false) methods ->
  Forall (fun m => m <> "" /\ TrimSpace m = m /\ HasPrefix m "#" = false)
         (Legacy.scanMethodLine methods text).
Proof.
  intros Hall. unfold Legacy.scanMethodLine.
  destruct (String.eqb (TrimSpace text) "") eqn:He; [exact Hall|].
  destruct (HasPrefix (TrimSpace text) "#") eqn:Hp; [exact Hall|]. simpl.
  apply Forall_app. split; [exact Hall|]. apply Forall_singleton.
  split; [now apply eqb_empty_false|]. split; [apply TrimSpace_idem | exact Hp].
Qed.

(** X11: every service path that [loadServicePathsFromFile] returns is
    non-empty, has no white space at either end and holds no [#]: blank
    lines and comment lines are dropped and a trailing comment is cut off.
    Every method that [loadCommonMethodsFromFile] returns is non-empty,
    trimmed and does not start with [#].  Neither list is longer than the
    file, and a read error discards all lines read so far. *)
Theorem legacy_loaders_clean_lines (lines : list string) (scanErr : option string) :
  match Legacy.loadServicePathsFromFile (FileLines lines scanErr) with
  | Ok services =>
      scanErr = None /\
      Forall (fun p => p <> "" /\ TrimSpace p = p /\ Contains p "#" = false) services /\
      (length services <= length lines)%nat
  | Failed _ => scanErr <> None
  end /\
  match Legacy.loadCommonMethodsFromFile (FileLines lines scanErr) with
  | Ok methods =>
      scanErr = None /\
      Forall (fun m => m <> "" /\ TrimSpace m = m /\ HasPrefix m "#" = false) methods /\
      (length methods <= length lines)%nat
  | Failed _ => scanErr <> None
  end.
Proof.
  unfold Legacy.loadServicePathsFromFile, Legacy.loadCommonMethodsFromFile.
  destruct scanErr as [err|]; [done|]. split.
  - split; [done|]. split.
    + apply foldl_invariant; [apply scanServiceLine_shape | constructor].
    + apply (foldl_length_bound (@length string) Legacy.scanServiceLine lines []).
      apply scanServiceLine_length.
  - split; [done|]. split.
    + apply foldl_invariant; [apply scanMethodLine_shape | constructor].
    + apply (foldl_length_bound (@length string) Legacy.scanMethodLine lines []).
      intros acc x. unfold Legacy.scanMethodLine.
      destruct (_ || _); [lia|]. rewrite length_app. simpl. lia.
Qed.

(** *** The enhanced wordlist *)

Lemma scanLine_acc entries globals text :
  Scanner.scanLine (entries, globals) text
  = (entries ++ (Scanner.scanLine ([], []) text).1,
     globals ++ (Scanner.scanLine ([], []) text).2).
Proof.
  unfold Scanner.scanLine.
  destruct (_ || _); [simpl; now rewrite !app_nil_r|].
  destruct (HasPrefix _ "*"); [simpl; now rewrite !app_nil_r|].
  destruct (Contains _ ":"); simpl; now rewrite !app_nil_r.
Qed.

Lemma foldl_scanLine_acc lines entries globals :
  foldl Scanner.scanLine (entries, globals) lines
  = (entries ++ (foldl Scanner.scanLine ([], []) lines).1,
     globals ++ (foldl Scanner.scanLine ([], []) lines).2).
Proof.
  revert entries globals. induction lines as [|text lines IH]; intros entries globals.
  - simpl. now rewrite !app_nil_r.
  - cbn [foldl]. rewrite (scanLine_acc entries globals), IH.
    destruct (Scanner.scanLine ([], []) text) as [entries' globals'].
    rewrite (IH entries' globals'). cbn [fst snd]. now rewrite !app_assoc.
Qed.

(** X12: parsing a wordlist is compositional: the entries and the global
    methods of two files read one after the other are those of the first
    followed by those of the second, so no line changes how another line is
    read. *)
Theorem loadEnhancedWordlist_app (lines1 lines2 : list string)
    (entries1 entries2 : list Scanner.WordlistEntry) (globals1 globals2 : list string)
    (H1 : Scanner.loadEnhancedWordlist (FileLines lines1 None) = Ok (entries1, globals1))
    (H2 : Scanner.loadEnhancedWordlist (FileLines lines2 None) = Ok (entries2, globals2)) :
  Scanner.loadEnhancedWordlist (FileLines (lines1 ++ lines2) None)
  = Ok (entries1 ++ entries2, globals1 ++ globals2).
Proof.
  unfold Scanner.loadEnhancedWordlist in *. rewrite foldl_app.
  injection H1 as H1. injection H2 as H2. rewrite H1, foldl_scanLine_acc, H2. done.
Qed.

Lemma loadEnhancedWordlist_app_witness :
  Scanner.loadEnhancedWordlist
    (FileLines (["# services"; "user.UserService:Get, List"] ++ ["*Ping"; "Health"]) None)
  = Ok ([Scanner.mkWordlistEntry "user.UserService" ["Get"; "List"]]
        ++ [Scanner.mkWordlistEntry "Health" []],
        [] ++ ["Ping"]).
Proof.
  apply (loadEnhancedWordlist_app
           ["# services"; "user.UserService:Get, List"] ["*Ping"; "Health"]);
    reflexivity.
Defined.

Lemma scanLine_shape acc text :
  Forall (fun e => TrimSpace (Scanner.Service e) = Scanner.Service e /\
                   Forall (fun m => m <> "" /\ TrimSpace m = m) (Scanner.Methods e))
         acc.1 ->
  Forall (fun e => TrimSpace (Scanner.Service e) = Scanner.Service e /\
                   Forall (fun m => m <> "" /\ TrimSpace m = m) (Scanner.Methods e))
         (Scanner.scanLine acc text).1.
Proof.
  destruct acc as [entries globals]. simpl. intros Hall. unfold Scanner.scanLine.
  destruct (_ || _); [exact Hall|].
  match goal with |- context [if ?b then (entries, _) else _] => destruct b end;
    [exact Hall|].
  destruct (Contains _ ":"); simpl; apply Forall_app; (split; [exact Hall|]);
    apply Forall_singleton; simpl.
  - split; [apply TrimSpace_idem|].
    apply Forall_forall. intros m Hm.
    apply list_elem_of_In, filter_In in Hm as [Hm Hne].
    apply in_map_iff in Hm as (raw & <- & _). split.
    + apply eqb_empty_false. now destruct (String.eqb (TrimSpace raw) "").
    + apply TrimSpace_idem.
  - split; [apply TrimSpace_idem | constructor].
Qed.

Lemma scanLine_length acc text :
  (length (Scanner.scanLine acc text).1 + length (Scanner.scanLine acc text).2
   <= S (length acc.1 + length acc.2))%nat.
Proof.
  destruct acc as [entries globals]. unfold Scanner.scanLine.
  destruct (_ || _); [simpl; lia|].
  match goal with |- context [if ?b then (entries, _) else _] => destruct b end;
    [simpl; rewrite length_app; simpl; lia|].
  destruct (Contains _ ":"); simpl; rewrite length_app; simpl; lia.
Qed.

(** X13: in a wordlist that [loadEnhancedWordlist] accepts, every service
    name is trimmed, every method of an entry is non-empty and trimmed (the
    empty items of a list such as [A,,B] are dropped), and each line of the
    file yields at most one entry or one global method.  A file that cannot
    be opened or read gives an error and no entries. *)
Theorem loadEnhancedWordlist_shape (file : TextFile) :
  match Scanner.loadEnhancedWordlist file with
  | Ok (entries, globals) =>
      exists lines,
        file = FileLines lines None /\
        Forall (fun e => TrimSpace (Scanner.Service e) = Scanner.Service e /\
                         Forall (fun m => m <> "" /\ TrimSpace m = m)
                                (Scanner.Methods e)) entries /\
        (length entries + length globals <= length lines)%nat
  | Failed _ => forall lines, file <> FileLines lines None
  end.
Proof.
  destruct file as [err | lines [err|] | path err]; simpl; [done | done | | done].
  destruct (foldl Scanner.scanLine ([], []) lines) as [entries globals] eqn:E.
  exists lines. split; [done|]. split.
  - change entries with (entries, globals).1. rewrite <- E.
    apply (foldl_invariant
             (fun acc => Forall (fun e => TrimSpace (Scanner.Service e) = Scanner.Service e /\
                         Forall (fun m => m <> "" /\ TrimSpace m = m)
                                (Scanner.Methods e)) acc.1)).
    + apply scanLine_shape.
    + constructor.
  - pose proof (foldl_length_bound
                  (fun acc : list Scanner.WordlistEntry * list string =>
                     (length acc.1 + length acc.2)%nat)
                  Scanner.scanLine lines ([], []) scanLine_length) as Hlen.
    rewrite E in Hlen. simpl in Hlen. lia.
Qed.

End Loaders.

(** * The call argument of [handleDirectCall] *)

Section ParseCall.
Import strings.

Lemma SplitN2_cons c s sep :
  SplitN2 (String c s) sep
  = if Ascii.eqb c sep then [EmptyString; s]
    else match SplitN2 s sep with
         | h :: t => String c h :: t
         | [] => [String c EmptyString]
         end.
Proof. reflexivity. Qed.

Lemma LastIndex_cons c s p :
  LastIndex (String c s) p
  = if 0 <=? LastIndex s p then LastIndex s p + 1
    else if HasPrefix (String c s) p then 0 else -1.
Proof. reflexivity. Qed.

Lemma Contains_byte_append a b x :
  Contains (a +:+ b) (String x "") = Contains a (String x "") || Contains b (String x "").
Proof.
  induction a as [|c a IH]; [done|].
  rewrite append_String, !Contains_byte, IH. now rewrite orb_assoc.
Qed.

Lemma SplitN2_first a b x :
  Contains a (String x "") = false -> SplitN2 (a +:+ String x b) x = [a; b].
Proof.
  induction a as [|c a IH].
  - intros _. rewrite append_empty, SplitN2_cons. now rewrite Ascii.eqb_refl.
  - rewrite Contains_byte. intros H. apply orb_false_iff in H as [Hc H].
    rewrite append_String, SplitN2_cons, Hc, (IH H). done.
Qed.

Lemma SplitN2_split s x :
  Contains s (String x "") = true ->
  exists a b, SplitN2 s x = [a; b] /\ s = a +:+ String x b /\
              Contains a (String x "") = false.
Proof.
  induction s as [|c s IH]; [done|].
  rewrite Contains_byte, SplitN2_cons.
  destruct (Ascii.eqb_spec c x) as [->|Hc]; simpl.
  - intros _. now exists "", s.
  - intros H. destruct (IH H) as (a & b & -> & -> & Ha).
    exists (String c a), b. split; [done|]. split; [done|].
    rewrite Contains_byte, Ha. now destruct (Ascii.eqb_spec c x).
Qed.

Lemma LastIndex_absent s x :
  Contains s (String x "") = false -> LastIndex s (String x "") = -1.
Proof.
  induction s as [|c s IH]; [done|].
  rewrite Contains_byte, LastIndex_cons, HasPrefix_cons.
  intros H. apply orb_false_iff in H as [Hc H]. now rewrite (IH H), Hc.
Qed.

Lemma LastIndex_last a b x :
  Contains b (String x "") = false ->
  LastIndex (a +:+ String x b) (String x "") = Z.of_nat (String.length a).
Proof.
  intros Hb. induction a as [|c a IH].
  - rewrite append_empty, LastIndex_cons, (LastIndex_absent _ _ Hb), HasPrefix_cons.
    now rewrite Ascii.eqb_refl.
  - rewrite append_String, LastIndex_cons, IH.
    destruct (0 <=? Z.of_nat (String.length a)) eqn:E.
    + simpl String.length. lia.
    + apply Z.leb_gt in E. lia.
Qed.

Lemma LastIndex_present s x :
  Contains s (String x "") = true -> 0 <= LastIndex s (String x "").
Proof.
  induction s as [|c s IH]; [done|].
  rewrite Contains_byte, LastIndex_cons, HasPrefix_cons.
  destruct (0 <=? LastIndex s (String x "")) eqn:E.
  - apply Z.leb_le in E. lia.
  - destruct (Ascii.eqb c x); [intros _; simpl; lia|]. simpl. intros H.
    apply IH in H. apply Z.leb_gt in E. lia.
Qed.

Lemma LastIndex_split s x :
  0 <= LastIndex s (String x "") ->
  s = upTo (Z.to_nat (LastIndex s (String x ""))) s
      +:+ String x (skip (Z.to_nat (LastIndex s (String x "") + 1)) s) /\
  Contains (skip (Z.to_nat (LastIndex s (String x "") + 1)) s) (String x "") = false.
Proof.
  induction s as [|c s IH]; [simpl; lia|].
  rewrite LastIndex_cons. destruct (0 <=? LastIndex s (String x "")) eqn:E.
  - apply Z.leb_le in E. intros _. destruct (IH E) as [Heq Hno].
    replace (Z.to_nat (LastIndex s (String x "") + 1))
      with (S (Z.to_nat (LastIndex s (String x "")))) in * by lia.
    replace (Z.to_nat (LastIndex s (String x "") + 1 + 1))
      with (S (S (Z.to_nat (LastIndex s (String x ""))))) by lia.
    cbn [upTo skip]. rewrite append_String. split; [now f_equal | exact Hno].
  - apply Z.leb_gt in E. rewrite HasPrefix_cons.
    destruct (Ascii.eqb_spec c x) as [->|Hc]; [|lia]. intros _.
    change (Z.to_nat 0) with 0%nat. change (Z.to_nat (0 + 1)) with 1%nat.
    cbn [upTo skip]. rewrite append_empty. split; [done|].
    destruct (Contains s (String x "")) eqn:Hs; [|done].
    apply LastIndex_present in Hs. lia.
Qed.

Lemma upTo_append a b : upTo (String.length a) (a +:+ b) = a.
Proof.
  induction a as [|c a IH]; [now destruct b|].
  rewrite append_String. simpl. now rewrite IH.
Qed.

(** X14: a call written as service, slash, method is parsed back into that
    service and method whenever the service holds no slash and the method
    is not empty (the method may hold further slashes); written with a dot
    instead, it is parsed back whenever in addition the method holds
    neither a slash nor a dot, the service being cut at the last dot. *)
Theorem parseCall_of_printed (service method : string)
    (Hservice : Contains service "/" = false) (Hmethod : method <> "") :
  Scanner.parseCall (service +:+ "/" +:+ method) = Ok (service, method) /\
  (Contains method "/" = false -> Contains method "." = false ->
   Scanner.parseCall (service +:+ "." +:+ method) = Ok (service, method)).
Proof.
  assert (Hne : String.eqb method "" = false).
  { destruct method; [done | reflexivity]. }
  unfold Scanner.parseCall. split.
  - rewrite append_String, append_empty.
    rewrite Contains_byte_append, Contains_byte, Ascii.eqb_refl, orb_true_r.
    rewrite (SplitN2_first _ _ _ Hservice). simpl. now rewrite Hne.
  - intros Hslash Hdot. rewrite append_String, append_empty.
    rewrite Contains_byte_append, Hservice, Contains_byte, Hslash.
    change (Ascii.eqb "." "/") with false. cbn [orb].
    rewrite Contains_byte_append, Contains_byte, Ascii.eqb_refl, orb_true_r.
    rewrite (LastIndex_last _ _ _ Hdot).
    rewrite Nat2Z.id, upTo_append.
    replace (Z.to_nat (Z.of_nat (String.length service) + 1))
      with (String.length (service +:+ ".")).
    + replace (service +:+ String "." method) with ((service +:+ ".") +:+ method)
        by now rewrite append_assoc.
      rewrite skip_append. now rewrite Hne.
    + clear. induction service as [|c s IH]; [done|].
      rewrite append_String. simpl String.length. rewrite IH. lia.
Qed.

Lemma parseCall_of_printed_witness :
  Scanner.parseCall ("user.v1.UserService" +:+ "/" +:+ "GetUser")
    = Ok ("user.v1.UserService", "GetUser") /\
  (Contains "GetUser" "/" = false -> Contains "GetUser" "." = false ->
   Scanner.parseCall ("user.v1.UserService" +:+ "." +:+ "GetUser")
     = Ok ("user.v1.UserService", "GetUser")).
Proof.
  apply (parseCall_of_printed "user.v1.UserService" "GetUser");
    [reflexivity | discriminate].
Defined.

(** X15: whatever [handleDirectCall] accepts is the call it was given: the
    method is never empty, and the call is the service, a slash and the
    method, cut at its first slash, or, when it holds no slash, the service,
    a dot and the method, cut at its last dot.  A call without slash and
    dot, or with nothing after the cut, is refused. *)
Theorem parseCall_accepts (call : string) :
  match Scanner.parseCall call with
  | Ok (service, method) =>
      method <> "" /\
      (call = service +:+ "/" +:+ method /\ Contains service "/" = false \/
       call = service +:+ "." +:+ method /\ Contains call "/" = false /\
       Contains method "." = false)
  | Failed _ =>
      Contains call "/" = false /\ Contains call "." = false \/
      exists service,
        call = service +:+ "/" /\ Contains service "/" = false \/
        call = service +:+ "." /\ Contains call "/" = false
  end.
Proof.
  unfold Scanner.parseCall.
  destruct (Contains call "/") eqn:Hslash.
  - destruct (SplitN2_split _ _ Hslash) as (a & b & -> & -> & Ha). simpl.
    destruct (String.eqb_spec b "") as [->|Hb].
    + right. exists a. left. done.
    + split; [done|]. left. done.
  - destruct (Contains call ".") eqn:Hdot; [|now left].
    pose proof (LastIndex_present _ _ Hdot) as Hidx.
    destruct (LastIndex_split _ _ Hidx) as [Heq Hno].
    destruct (String.eqb_spec (skip (Z.to_nat (LastIndex call "." + 1)) call) "")
      as [He|Hne].
    + right. exists (upTo (Z.to_nat (LastIndex call ".")) call). right.
      split; [|done]. rewrite He in Heq. exact Heq.
    + split; [done|]. right. done.
Qed.

End ParseCall.

(** * Selection and deduplication *)

Section Selection.

Lemma appendWhile_take keep limit methods : forall result,
  Legacy.appendWhile keep limit result methods
  = result ++ take (Z.to_nat limit - length result) (List.filter keep methods).
Proof.
  induction methods as [|method rest IH]; intros result.
  - simpl. now rewrite take_nil, app_nil_r.
  - cbn [Legacy.appendWhile List.filter].
    destruct (keep method); cbn [andb]; [|apply IH].
    destruct (Z.of_nat (length result) <? limit) eqn:E.
    + apply Z.ltb_lt in E. rewrite IH, length_app. cbn [length].
      replace (Z.to_nat limit - length result)%nat
        with (S (Z.to_nat limit - (length result + 1)))%nat by lia.
      cbn [take]. now rewrite <- app_assoc.
    + apply Z.ltb_ge in E. rewrite IH.
      replace (Z.to_nat limit - length result)%nat with 0%nat by lia.
      reflexivity.
Qed.

Lemma filter_partition_Permutation {A} (f : A -> bool) (l : list A) :
  List.filter f l ++ List.filter (fun x => negb (f x)) l ≡ₚ l.
Proof.
  induction l as [|x l IH]; [done|]. cbn [List.filter].
  destruct (f x); cbn [negb].
  - simpl. now constructor.
  - rewrite <- Permutation_middle. now constructor.
Qed.

Lemma filter_partition_length {A} (f : A -> bool) (l : list A) :
  length (List.filter f l ++ List.filter (fun x => negb (f x)) l) = length l.
Proof. now rewrite (filter_partition_Permutation f l). Qed.

(** X16: [getHighPriorityMethods] returns the first [limit] elements of the
    list made of the high-priority methods followed by the other methods,
    each group in its order in [methods]; so it returns
    [min limit (len methods)] methods (none for a limit that is not
    positive), and a rearrangement of all of them when the limit is not
    smaller than their number. *)
Theorem getHighPriorityMethods_take (methods : list string) (limit : Z) :
  let high := fun m : string => default false (Legacy.highPriority !! m) in
  Legacy.getHighPriorityMethods methods limit
  = take (Z.to_nat limit)
         (List.filter high methods ++ List.filter (fun m => negb (high m)) methods) /\
  length (Legacy.getHighPriorityMethods methods limit)
  = Nat.min (Z.to_nat limit) (length methods) /\
  (Z.of_nat (length methods) <= limit ->
   Legacy.getHighPriorityMethods methods limit ≡ₚ methods).
Proof.
  intros high.
  assert (Heq : Legacy.getHighPriorityMethods methods limit
    = take (Z.to_nat limit)
        (List.filter high methods ++ List.filter (fun m => negb (high m)) methods)).
  { unfold Legacy.getHighPriorityMethods. fold high.
    rewrite !appendWhile_take. cbn [app length]. rewrite Nat.sub_0_r.
    rewrite take_app.
    destruct (Z.of_nat (length (take (Z.to_nat limit) (List.filter high methods)))
              <? limit) eqn:E.
    - apply Z.ltb_lt in E. f_equal.
      rewrite length_take in *. f_equal. lia.
    - apply Z.ltb_ge in E. rewrite length_take in E.
      replace (Z.to_nat limit - length (List.filter high methods))%nat
        with 0%nat by lia.
      now rewrite take_0, app_nil_r. }
  split; [exact Heq|]. split.
  - rewrite Heq, length_take, filter_partition_length. done.
  - intros Hall. rewrite Heq, take_ge.
    + apply filter_partition_Permutation.
    + rewrite filter_partition_length. lia.
Qed.

Lemma dedupFrom_unseen patterns : forall (seen : gmap string bool) p,
  p ∈ Scanner.dedupFrom seen patterns ->
  default false (seen !! Scanner.PService p) = false.
Proof.
  induction patterns as [|q rest IH]; intros seen p; simpl; [inversion 1|].
  destruct (default false (seen !! Scanner.PService q)) eqn:Hq; simpl.
  - apply IH.
  - rewrite elem_of_cons. intros [->|Hp]; [exact Hq|].
    apply IH in Hp.
    destruct (decide (Scanner.PService q = Scanner.PService p)) as [Heq|Hne].
    + rewrite Heq, lookup_insert_eq in Hp. discriminate.
    + now rewrite lookup_insert_ne in Hp.
Qed.

Lemma dedupFrom_services patterns : forall seen : gmap string bool,
  map Scanner.PService (Scanner.dedupFrom seen patterns)
  = Legacy.uniqueFrom seen (map Scanner.PService patterns).
Proof.
  induction patterns as [|q rest IH]; intros seen; simpl; [done|].
  destruct (default false (seen !! Scanner.PService q)); simpl; [apply IH|].
  now rewrite IH.
Qed.

Lemma dedupFrom_sublist patterns : forall seen : gmap string bool,
  Scanner.dedupFrom seen patterns `sublist_of` patterns.
Proof.
  induction patterns as [|q rest IH]; intros seen; simpl; [constructor|].
  destruct (default false (seen !! Scanner.PService q)); simpl.
  - now apply sublist_cons.
  - now apply sublist_skip.
Qed.

Lemma dedupFrom_first patterns : forall (seen : gmap string bool) p,
  p ∈ Scanner.dedupFrom seen patterns ->
  List.find (fun q => String.eqb (Scanner.PService q) (Scanner.PService p)) patterns
  = Some p.
Proof.
  induction patterns as [|q rest IH]; intros seen p; simpl; [inversion 1|].
  destruct (default false (seen !! Scanner.PService q)) eqn:Hq; simpl.
  - intros Hp. pose proof (dedupFrom_unseen _ _ _ Hp) as Hun.
    destruct (String.eqb_spec (Scanner.PService q) (Scanner.PService p)) as [Heq|_].
    + rewrite Heq in Hq. congruence.
    + now apply (IH seen).
  - rewrite elem_of_cons. intros [->|Hp]; [now rewrite String.eqb_refl|].
    pose proof (dedupFrom_unseen _ _ _ Hp) as Hun.
    destruct (String.eqb_spec (Scanner.PService q) (Scanner.PService p)) as [Heq|_].
    + rewrite Heq, lookup_insert_eq in Hun. discriminate.
    + now apply (IH _ _ Hp).
Qed.

(** X17: [deduplicatePatterns] keeps, for every service name, the first
    pattern that carries it and no other: the result is a sub-sequence of
    the input, its service names are those of the input without repetition,
    in the order of their first occurrence, and every pattern kept is the
    first pattern of the input with its service name (later method lists
    for the same service are dropped, not merged). *)
Theorem deduplicatePatterns_keeps_first (patterns : list Scanner.ServicePattern) :
  Scanner.deduplicatePatterns patterns `sublist_of` patterns /\
  map Scanner.PService (Scanner.deduplicatePatterns patterns)
  = firstOccurrences (map Scanner.PService patterns) /\
  NoDup (map Scanner.PService (Scanner.deduplicatePatterns patterns)) /\
  forall p, p ∈ Scanner.deduplicatePatterns patterns ->
    List.find (fun q => String.eqb (Scanner.PService q) (Scanner.PService p)) patterns
    = Some p.
Proof.
  unfold Scanner.deduplicatePatterns. split; [apply dedupFrom_sublist|].
  rewrite dedupFrom_services.
  change (Legacy.uniqueFrom ∅ (map Scanner.PService patterns))
    with (Legacy.uniqueStrings (map Scanner.PService patterns)).
  split; [apply uniqueStrings_firstOccurrences|].
  split; [apply uniqueStrings_NoDup|]. apply dedupFrom_first.
Qed.

Lemma firstOccurrences_NoDup_id l : NoDup l -> firstOccurrences l = l.
Proof.
  induction 1 as [|x l Hx Hnd IH]; simpl; [done|]. rewrite IH. f_equal.
  clear -Hx. induction l as [|y l IH]; [done|].
  rewrite not_elem_of_cons in Hx. destruct Hx as [Hne Hx].
  rewrite filter_cons_True by congruence. f_equal. now apply IH.
Qed.

(** X18: [uniqueStrings] keeps every string of its input where it occurs
    first and drops the later repetitions; it returns a list without
    repetition unchanged, and applying it twice is the same as applying it
    once. *)
Theorem uniqueStrings_first_occurrences (input : list string) :
  Legacy.uniqueStrings input = firstOccurrences input /\
  Legacy.uniqueStrings input `sublist_of` input /\
  (NoDup input -> Legacy.uniqueStrings input = input) /\
  Legacy.uniqueStrings (Legacy.uniqueStrings input) = Legacy.uniqueStrings input.
Proof.
  split; [apply uniqueStrings_firstOccurrences|]. split; [|split].
  - rewrite uniqueStrings_firstOccurrences.
    induction input as [|x l IH]; simpl; [constructor|].
    apply sublist_skip. etrans; [apply sublist_filter | exact IH].
  - intros Hnd. rewrite uniqueStrings_firstOccurrences.
    now apply firstOccurrences_NoDup_id.
  - rewrite (uniqueStrings_firstOccurrences (Legacy.uniqueStrings input)).
    apply firstOccurrences_NoDup_id, uniqueStrings_NoDup.
Qed.

End Selection.

(** * Further properties of version fuzzing *)

Section VersionedPaths.
Import strings.

Lemma versionedPaths_fresh s maxVersion vs :
  (s ∉ Legacy.versionedPaths s maxVersion vs) /\
  (length (Legacy.versionedPaths s maxVersion vs) <= length vs)%nat.
Proof.
  induction vs as [|v vs [IHin IHlen]]; simpl; [split; [inversion 1 | lia]|].
  destruct (String.eqb_spec
              (Legacy.replaceVersion s v (Legacy.versionsUpTo maxVersion)) s)
    as [Heq|Hne]; simpl.
  - split; [exact IHin | lia].
  - split; [|lia]. rewrite not_elem_of_cons. split; [congruence | exact IHin].
Qed.

Lemma generated_variants s maxVersion :
  exists variants,
    Legacy.generateVersionedServicePaths s maxVersion = variants ++ [s] /\
    (length variants <= Z.to_nat maxVersion)%nat.
Proof.
  unfold Legacy.generateVersionedServicePaths. destruct (_ && _).
  - exists []. split; [done | simpl; lia].
  - exists (Legacy.versionedPaths s maxVersion (Legacy.versionsUpTo maxVersion)).
    split; [done|].
    destruct (versionedPaths_fresh s maxVersion (Legacy.versionsUpTo maxVersion))
      as [_ Hlen].
    unfold Legacy.versionsUpTo in Hlen. now rewrite length_seq in Hlen.
Qed.

(** X19: [generateVersionedServicePaths] returns the variants of the path
    followed by the path itself: the original is always the last element,
    it is never among the variants, and there are at most [maxVersion]
    variants.  There is none when [maxVersion] is not positive and none
    when the path holds none of [.v1.], [.v2.], [.v3.], whatever other
    version segment ([.v4.], ...) it holds. *)
Theorem generateVersionedServicePaths_original_last (servicePath : string)
    (maxVersion : Z) :
  exists variants,
    Legacy.generateVersionedServicePaths servicePath maxVersion
    = variants ++ [servicePath] /\
    (servicePath ∉ variants) /\
    (length variants <= Z.to_nat maxVersion)%nat /\
    (maxVersion <= 0 -> variants = []) /\
    (Contains servicePath ".v1." = false ->
     Contains servicePath ".v2." = false ->
     Contains servicePath ".v3." = false -> variants = []).
Proof.
  unfold Legacy.generateVersionedServicePaths.
  destruct (negb (Contains servicePath ".v1.") && negb (Contains servicePath ".v2.")
            && negb (Contains servicePath ".v3.")) eqn:Hguard.
  - exists []. split; [done|]. split; [inversion 1|]. split; [simpl; lia|]. done.
  - exists (Legacy.versionedPaths servicePath maxVersion
                                  (Legacy.versionsUpTo maxVersion)).
    destruct (versionedPaths_fresh servicePath maxVersion
                                   (Legacy.versionsUpTo maxVersion)) as [Hin Hlen].
    split; [done|]. split; [exact Hin|]. split.
    + unfold Legacy.versionsUpTo in Hlen. now rewrite length_seq in Hlen.
    + split.
      * intros Hle. unfold Legacy.versionsUpTo.
        replace (Z.to_nat maxVersion) with 0%nat by lia. done.
      * intros H1 H2 H3. rewrite H1, H2, H3 in Hguard. discriminate.
Qed.

Lemma fuzzServiceVersions_app_eq a b maxVersion :
  Legacy.fuzzServiceVersions (a ++ b) maxVersion
  = Legacy.fuzzServiceVersions a maxVersion ++ Legacy.fuzzServiceVersions b maxVersion.
Proof.
  induction a as [|p a IH]; simpl; [done|]. now rewrite IH, app_assoc.
Qed.

(** X20: [fuzzServiceVersions] expands every path on its own and in place:
    the expansion of two lists one after the other is the expansion of the
    first followed by that of the second, the given paths are all kept, in
    their order, and every path yields between one and [maxVersion + 1]
    candidates. *)
Theorem fuzzServiceVersions_keeps_paths (paths more : list string) (maxVersion : Z) :
  Legacy.fuzzServiceVersions (paths ++ more) maxVersion
  = Legacy.fuzzServiceVersions paths maxVersion
    ++ Legacy.fuzzServiceVersions more maxVersion /\
  paths `sublist_of` Legacy.fuzzServiceVersions paths maxVersion /\
  (length paths <= length (Legacy.fuzzServiceVersions paths maxVersion)
   <= (Z.to_nat maxVersion + 1) * length paths)%nat.
Proof.
  split; [apply fuzzServiceVersions_app_eq|].
  induction paths as [|p paths [IHsub IHlen]]; simpl; [split; [constructor | lia]|].
  destruct (generated_variants p maxVersion) as (variants & Heq & Hlen).
  rewrite Heq. split.
  - rewrite <- app_assoc. apply sublist_inserts_l. simpl. now apply sublist_skip.
  - rewrite !length_app. simpl. lia.
Qed.

Lemma replaceVersion_single maxVersion pre post n w :
  n ∈ Legacy.versionsUpTo maxVersion ->
  singleVersioned maxVersion (pre +:+ Legacy.versionPattern n +:+ post) ->
  Legacy.replaceVersion (pre +:+ Legacy.versionPattern n +:+ post) w
                        (Legacy.versionsUpTo maxVersion)
  = pre +:+ Legacy.versionPattern w +:+ post.
Proof.
  intros Hn Hone.
  destruct (single_segment maxVersion post n Hn pre Hone n Hn) as [Honly Hrep].
  rewrite (replaceVersion_one _ n w _ Hn Honly (Contains_occurrence _ _ _)).
  apply Hrep.
Qed.

Lemma versionedPaths_single maxVersion pre post n vs :
  n ∈ Legacy.versionsUpTo maxVersion ->
  singleVersioned maxVersion (pre +:+ Legacy.versionPattern n +:+ post) ->
  (forall v, v ∈ vs -> v ∈ Legacy.versionsUpTo maxVersion) ->
  Legacy.versionedPaths (pre +:+ Legacy.versionPattern n +:+ post) maxVersion vs
  = map (fun v => pre +:+ Legacy.versionPattern v +:+ post)
        (List.filter (fun v => negb (Nat.eqb v n)) vs).
Proof.
  intros Hn Hone. induction vs as [|v vs IH]; intros Hvs; [done|].
  cbn [Legacy.versionedPaths List.filter].
  rewrite (replaceVersion_single _ _ _ _ v Hn Hone).
  rewrite IH by (intros u Hu; apply Hvs; now right).
  destruct (Nat.eqb_spec v n) as [->|Hne]; cbn [negb].
  - now rewrite String.eqb_refl.
  - destruct (String.eqb_spec (pre +:+ Legacy.versionPattern v +:+ post)
                              (pre +:+ Legacy.versionPattern n +:+ post))
      as [Heq|_]; [|done].
    exfalso. apply Hne.
    assert (Hv : v ∈ Legacy.versionsUpTo maxVersion) by (apply Hvs; now left).
    destruct (single_segment maxVersion post n Hn pre Hone v Hv) as [Honly _].
    symmetry. apply (Honly n Hn). rewrite Heq. apply Contains_occurrence.
Qed.

(** X21: for a path with one version segment [.vN.], [N] being 1, 2 or 3
    and at most [maxVersion], and no other segment [.vI.] with
    [I <= maxVersion], the candidates are exactly the path with its segment
    set to every other version from 1 to [maxVersion], in increasing order,
    followed by the path itself. *)
Theorem generateVersionedServicePaths_single_segment
    (pre post : string) (n : nat) (maxVersion : Z)
    (Hn : (1 <= n <= 3)%nat) (Hmax : Z.of_nat n <= maxVersion)
    (Hone : singleVersioned maxVersion (pre +:+ Legacy.versionPattern n +:+ post)) :
  Legacy.generateVersionedServicePaths
    (pre +:+ Legacy.versionPattern n +:+ post) maxVersion
  = map (fun v => pre +:+ Legacy.versionPattern v +:+ post)
        (List.filter (fun v => negb (Nat.eqb v n)) (Legacy.versionsUpTo maxVersion))
    ++ [pre +:+ Legacy.versionPattern n +:+ post].
Proof.
  assert (Hin : n ∈ Legacy.versionsUpTo maxVersion).
  { unfold Legacy.versionsUpTo. apply list_elem_of_In, in_seq. lia. }
  rewrite generated_unguarded.
  - f_equal. now apply versionedPaths_single.
  - assert (Hc := Contains_occurrence pre post (Legacy.versionPattern n)).
    assert (Hcase : n = 1%nat \/ n = 2%nat \/ n = 3%nat) by lia.
    destruct Hcase as [-> | [-> | ->]];
      change (Legacy.versionPattern 1) with ".v1." in *;
      change (Legacy.versionPattern 2) with ".v2." in *;
      change (Legacy.versionPattern 3) with ".v3." in *;
      rewrite Hc; cbn [negb]; rewrite ?andb_false_r; reflexivity.
Qed.

Lemma generateVersionedServicePaths_single_segment_witness :
  Legacy.generateVersionedServicePaths
    ("payment" +:+ Legacy.versionPattern 2 +:+ "PaymentService") 4
  = map (fun v => "payment" +:+ Legacy.versionPattern v +:+ "PaymentService")
        (List.filter (fun v => negb (Nat.eqb v 2)) (Legacy.versionsUpTo 4))
    ++ ["payment" +:+ Legacy.versionPattern 2 +:+ "PaymentService"].
Proof.
  apply (generateVersionedServicePaths_single_segment "payment" "PaymentService" 2 4);
    [lia | lia | unfold singleVersioned; vm_compute; lia].
Defined.

End VersionedPaths.

(** * Further properties of the stand-alone scanner *)

Section StandardServices.
Import strings.

Lemma Contains_pattern_suffix s a b :
  Contains s (a +:+ b) = true -> Contains s b = true.
Proof.
  intros H. destruct (Contains_split _ _ H) as (pre & post & -> & _).
  rewrite append_assoc, <- (append_assoc pre a). apply Contains_occurrence.
Qed.

Lemma recordService_services r servicePath found :
  Legacy.AvailableServices (Legacy.recordService r servicePath found)
  = if Legacy.contains (Legacy.AvailableServices r) servicePath
    then Legacy.AvailableServices r
    else Legacy.AvailableServices r ++ [servicePath].
Proof.
  unfold Legacy.recordService.
  destruct (Legacy.contains (Legacy.AvailableServices r) servicePath);
    destruct (0 <? Z.of_nat (length found)); reflexivity.
Qed.

Lemma recordService_methods r servicePath found :
  Legacy.MethodsFound (Legacy.recordService r servicePath found)
  = if (0 <? Z.of_nat (length found))
    then <[servicePath :=
             Legacy.uniqueStrings
               (default [] (Legacy.MethodsFound r !! servicePath) ++ found)]>
           (Legacy.MethodsFound r)
    else Legacy.MethodsFound r.
Proof.
  unfold Legacy.recordService.
  destruct (Legacy.contains (Legacy.AvailableServices r) servicePath);
    destruct (0 <? Z.of_nat (length found)); reflexivity.
Qed.

Lemma recordService_rest r servicePath found :
  Legacy.Target (Legacy.recordService r servicePath found) = Legacy.Target r /\
  Legacy.HealthStatus (Legacy.recordService r servicePath found) = Legacy.HealthStatus r /\
  Legacy.ReflectionEnabled (Legacy.recordService r servicePath found)
  = Legacy.ReflectionEnabled r /\
  Legacy.Errors (Legacy.recordService r servicePath found) = Legacy.Errors r /\
  Legacy.Vulnerabilities (Legacy.recordService r servicePath found)
  = Legacy.Vulnerabilities r.
Proof.
  unfold Legacy.recordService.
  destruct (Legacy.contains (Legacy.AvailableServices r) servicePath);
    destruct (0 <? Z.of_nat (length found)); done.
Qed.

Lemma probeMethods_found calls servicePath methods : forall k p,
  exists found,
    Legacy.foundMethods (Legacy.probeMethods calls k servicePath methods p)
    = Legacy.foundMethods p ++ found /\
    found `sublist_of` methods.
Proof.
  induction methods as [|method rest IH]; intros k p.
  - exists []. simpl. now rewrite app_nil_r.
  - cbn [Legacy.probeMethods].
    assert (Hskip : forall q, Legacy.foundMethods q = Legacy.foundMethods p ->
      exists found,
        Legacy.foundMethods (Legacy.probeMethods calls (S k) servicePath rest q)
        = Legacy.foundMethods p ++ found /\ found `sublist_of` method :: rest).
    { intros q Hq. destruct (IH (S k) q) as (found & Heq & Hsub).
      exists found. rewrite Heq, Hq. split; [done | now apply sublist_cons]. }
    assert (Hkeep : forall q,
      Legacy.foundMethods q = Legacy.foundMethods p ++ [method] ->
      exists found,
        Legacy.foundMethods (Legacy.probeMethods calls (S k) servicePath rest q)
        = Legacy.foundMethods p ++ found /\ found `sublist_of` method :: rest).
    { intros q Hq. destruct (IH (S k) q) as (found & Heq & Hsub).
      exists (method :: found). rewrite Heq, Hq, <- app_assoc.
      split; [done | now apply sublist_skip]. }
    destruct (calls k (fullMethodOf servicePath method)) as [|code message|text].
    + exists [method]. split; [done|]. apply sublist_skip, sublist_nil_l.
    + destruct (_ && _ && _).
      { exists []. simpl. rewrite app_nil_r. split; [done | apply sublist_nil_l]. }
      destruct (_ && _ && _); [now apply Hskip|].
      destruct (codes.eqb code codes.Unavailable); [now apply Hskip|].
      destruct code; (now apply Hskip) || (now apply Hkeep).
    + now apply Hskip.
Qed.

Lemma probeMethods_inconclusive calls servicePath methods : forall k p,
  (forall k path, inconclusive (calls k path) = true) ->
  Legacy.probeMethods calls k servicePath methods p = p.
Proof.
  induction methods as [|method rest IH]; intros k p Hinc; [done|].
  cbn [Legacy.probeMethods].
  pose proof (Hinc k (fullMethodOf servicePath method)) as Hk.
  destruct (calls k (fullMethodOf servicePath method)) as [|code message|text];
    [done | | now apply IH].
  destruct code; try done. simpl. rewrite ?andb_false_r. simpl. now apply IH.
Qed.

(** X22: probing one service path of the standard list can only add that
    path to the services and methods among those probed to that path's
    entry; every other entry and every other field of the result is left
    as it was, and when every call is inconclusive (no gRPC status, or
    UNAVAILABLE) the result is not changed at all. *)
Theorem checkStandardService_frame (calls : nat -> ClientConn) (servicePath : string)
    (methods : list string) (r : Legacy.ScanResult) :
  let r' := Legacy.checkStandardService calls servicePath methods r in
  (Legacy.AvailableServices r' = Legacy.AvailableServices r \/
   (servicePath ∉ Legacy.AvailableServices r) /\
   Legacy.AvailableServices r' = Legacy.AvailableServices r ++ [servicePath]) /\
  (forall s, s <> servicePath ->
             Legacy.MethodsFound r' !! s = Legacy.MethodsFound r !! s) /\
  (forall m, m ∈ default [] (Legacy.MethodsFound r' !! servicePath) ->
             m ∈ default [] (Legacy.MethodsFound r !! servicePath) \/ m ∈ methods) /\
  (Legacy.Target r' = Legacy.Target r /\
   Legacy.HealthStatus r' = Legacy.HealthStatus r /\
   Legacy.ReflectionEnabled r' = Legacy.ReflectionEnabled r /\
   Legacy.Errors r' = Legacy.Errors r /\
   Legacy.Vulnerabilities r' = Legacy.Vulnerabilities r) /\
  ((forall k path, inconclusive (calls k path) = true) -> r' = r).
Proof.
  intros r'. subst r'. unfold Legacy.checkStandardService.
  destruct (probeMethods_found calls servicePath methods 0
              (Legacy.mkProbe false [] false)) as (found & Hfound & Hsub).
  simpl in Hfound.
  split; [|split; [|split; [|split]]].
  - destruct (Legacy.serviceExplicitlyNotFound _); [now left|].
    destruct (Legacy.serviceFound _); [|now left].
    rewrite recordService_services.
    destruct (Legacy.contains (Legacy.AvailableServices r) servicePath) eqn:Hc;
      [now left|].
    right. split; [|done]. rewrite <- contains_elem_of. now rewrite Hc.
  - intros s Hs.
    destruct (Legacy.serviceExplicitlyNotFound _); [done|].
    destruct (Legacy.serviceFound _); [|done].
    rewrite recordService_methods. destruct (0 <? _); [|done].
    now rewrite lookup_insert_ne.
  - intros m.
    destruct (Legacy.serviceExplicitlyNotFound _); [now left|].
    destruct (Legacy.serviceFound _); [|now left].
    rewrite recordService_methods. destruct (0 <? _); [|now left].
    rewrite lookup_insert_eq. simpl. rewrite uniqueStrings_elem_of, elem_of_app.
    rewrite Hfound. intros [Hm|Hm]; [now left|]. right.
    exact (elem_of_sublist _ _ _ Hm Hsub).
  - destruct (Legacy.serviceExplicitlyNotFound _); [done|].
    destruct (Legacy.serviceFound _); [|done]. apply recordService_rest.
  - intros Hinc. now rewrite probeMethods_inconclusive.
Qed.

Lemma probeMethods_unknown_service calls servicePath method after code message :
  forall before k p,
    (code = codes.Unimplemented \/ code = codes.NotFound) ->
    Contains (ToLower message) "unknown service" = true ->
    calls (k + length before)%nat (fullMethodOf servicePath method)
    = StatusError code message ->
    (forall i m, before !! i = Some m ->
                 calls (k + i)%nat (fullMethodOf servicePath m) <> NoError) ->
    Legacy.serviceExplicitlyNotFound
      (Legacy.probeMethods calls k servicePath (before ++ method :: after) p) = true.
Proof.
  intros before k p Hcode Hmsg. revert k p.
  assert (Hservice : Contains (ToLower message) "service" = true).
  { apply (Contains_pattern_suffix _ "unknown "). exact Hmsg. }
  induction before as [|b before IH]; intros k p Hanswer Hbefore.
  - simpl in Hanswer. rewrite Nat.add_0_r in Hanswer.
    cbn [app Legacy.probeMethods]. rewrite Hanswer, Hservice, Hmsg.
    now destruct Hcode as [-> | ->].
  - cbn [app Legacy.probeMethods].
    assert (Hnext : forall q,
      Legacy.serviceExplicitlyNotFound
        (Legacy.probeMethods calls (S k) servicePath (before ++ method :: after) q)
      = true).
    { intros q. apply IH.
      - rewrite <- Hanswer. f_equal. simpl. lia.
      - intros i m Hi. replace (S k + i)%nat with (k + S i)%nat by lia.
        now apply Hbefore. }
    pose proof (Hbefore 0%nat b eq_refl) as Hb. rewrite Nat.add_0_r in Hb.
    destruct (calls k (fullMethodOf servicePath b)) as [|c msg|text];
      [done | | apply Hnext].
    destruct (_ && _ && _); [done|].
    destruct (_ && _ && _); [apply Hnext|].
    destruct (codes.eqb c codes.Unavailable); [apply Hnext|].
    destruct c; apply Hnext.
Qed.

(** X23: an answer UNIMPLEMENTED or NOT_FOUND whose message holds
    "unknown service" ends the probing of a service path and discards what
    the earlier methods of that path had confirmed: whenever no earlier
    call succeeded outright, the result is left unchanged, whatever the
    earlier and later answers are. *)
Theorem unknown_service_discards_evidence (calls : nat -> ClientConn)
    (servicePath method : string) (before after : list string)
    (code : codes.Code) (message : string) (r : Legacy.ScanResult)
    (Hcode : code = codes.Unimplemented \/ code = codes.NotFound)
    (Hmessage : Contains (ToLower message) "unknown service" = true)
    (Hanswer : calls (length before) (fullMethodOf servicePath method)
               = StatusError code message)
    (Hbefore : forall i m, before !! i = Some m ->
                           calls i (fullMethodOf servicePath m) <> NoError) :
  Legacy.checkStandardService calls servicePath (before ++ method :: after) r = r.
Proof.
  unfold Legacy.checkStandardService.
  now rewrite (probeMethods_unknown_service calls servicePath method after code message
                 before 0 _ Hcode Hmessage Hanswer Hbefore).
Qed.

Lemma unknown_service_discards_evidence_witness :
  Legacy.checkStandardService
    (fun k _ => match k with
                | O => StatusError codes.InvalidArgument "missing field"
                | _ => StatusError codes.Unimplemented "unknown service pkg.Svc"
                end)
    "pkg.Svc" (["Get"] ++ "List" :: ["Create"]) (Legacy.newScanResult "localhost:50051")
  = Legacy.newScanResult "localhost:50051".
Proof.
  apply (unknown_service_discards_evidence _ "pkg.Svc" "List" ["Get"] ["Create"]
           codes.Unimplemented "unknown service pkg.Svc").
  - now left.
  - reflexivity.
  - reflexivity.
  - intros i m _. destruct i; discriminate.
Defined.

End StandardServices.

Section BruteForce.
Import strings.

Lemma bruteForceWorker_shape calls servicePath :
  Legacy.bruteForceWorker calls servicePath = [] \/
  exists m ms, Legacy.bruteForceWorker calls servicePath
               = [Legacy.RecordService servicePath (m :: ms)].
Proof.
  unfold Legacy.bruteForceWorker.
  destruct (Legacy.focusedLoop calls 0 servicePath Legacy.focusedMethods)
    as [serviceFound methodsFound].
  destruct serviceFound; [|now left].
  destruct methodsFound as [|m ms]; [now left|]. right.
  exists m, (ms ++ Legacy.specificLoop calls (length Legacy.focusedMethods) servicePath
                     (Legacy.specificMethodsFor servicePath)).
  reflexivity.
Qed.

Lemma recordService_keeps r servicePath found s m :
  m ∈ default [] (Legacy.MethodsFound r !! s) ->
  m ∈ default [] (Legacy.MethodsFound (Legacy.recordService r servicePath found) !! s).
Proof.
  rewrite recordService_methods. destruct (0 <? _); [|done].
  destruct (decide (s = servicePath)) as [->|Hne].
  - rewrite lookup_insert_eq. simpl. rewrite uniqueStrings_elem_of, elem_of_app. now left.
  - now rewrite lookup_insert_ne.
Qed.

Lemma recordService_nonempty r servicePath m ms :
  m ∈ default [] (Legacy.MethodsFound
                    (Legacy.recordService r servicePath (m :: ms)) !! servicePath).
Proof.
  rewrite recordService_methods. simpl. rewrite lookup_insert_eq. simpl.
  rewrite uniqueStrings_elem_of, elem_of_app. right. now left.
Qed.

Lemma recordService_prefix r servicePath found :
  Legacy.AvailableServices r
  `prefix_of` Legacy.AvailableServices (Legacy.recordService r servicePath found).
Proof.
  rewrite recordService_services. destruct (Legacy.contains _ _); [done|].
  now apply prefix_app_r.
Qed.

Lemma confirmed_updates (candidates : list string) (us : list Legacy.Update) :
  Forall (fun u => exists servicePath m ms,
                     u = Legacy.RecordService servicePath (m :: ms) /\
                     servicePath ∈ candidates) us ->
  forall r,
    Legacy.AvailableServices r
    `prefix_of` Legacy.AvailableServices (foldl Legacy.applyUpdate r us) /\
    (forall s, s ∈ Legacy.AvailableServices (foldl Legacy.applyUpdate r us) ->
               s ∈ Legacy.AvailableServices r \/
               s ∈ candidates /\
               default [] (Legacy.MethodsFound (foldl Legacy.applyUpdate r us) !! s)
               <> []) /\
    (forall s m, m ∈ default [] (Legacy.MethodsFound r !! s) ->
                 m ∈ default [] (Legacy.MethodsFound
                                   (foldl Legacy.applyUpdate r us) !! s)).
Proof.
  induction 1 as [|u us (servicePath & m0 & ms & -> & Hcand) _ IH]; intros r.
  - simpl. split; [done|]. split; [now left | done].
  - cbn [foldl Legacy.applyUpdate].
    destruct (IH (Legacy.recordService r servicePath (m0 :: ms)))
      as (Hpre & Hnew & Hkeep).
    split; [|split].
    + etrans; [apply recordService_prefix | exact Hpre].
    + intros s Hs. destruct (Hnew s Hs) as [Hin|Hin]; [|now right].
      rewrite recordService_services in Hin.
      destruct (Legacy.contains (Legacy.AvailableServices r) servicePath);
        [now left|].
      apply elem_of_app in Hin as [Hin|Hin]; [now left|].
      apply list_elem_of_singleton in Hin as ->. right. split; [done|].
      pose proof (Hkeep servicePath m0 (recordService_nonempty r servicePath m0 ms))
        as Hm.
      intros Hnil. rewrite Hnil in Hm. inversion Hm.
    + intros s m Hm. apply Hkeep. now apply recordService_keeps.
Qed.

(** X24: brute force adds a service only with a confirmed method: every
    service of the result that was not there before is one of the generated
    candidates and has a non-empty method list, whatever the server
    answers and in whatever order the goroutines reach their update; the
    services and methods found before are all kept. *)
Theorem bruteForceServices_records_confirmed (callsFor : nat -> nat -> ClientConn)
    (order : list nat) (wordlist : list string) (r : Legacy.ScanResult) :
  let r' := Legacy.bruteForceServices callsFor order wordlist r in
  Legacy.AvailableServices r `prefix_of` Legacy.AvailableServices r' /\
  (forall s, s ∈ Legacy.AvailableServices r' ->
             s ∈ Legacy.AvailableServices r \/
             s ∈ Legacy.generatePotentialServiceNames wordlist /\
             default [] (Legacy.MethodsFound r' !! s) <> []) /\
  (forall s m, m ∈ default [] (Legacy.MethodsFound r !! s) ->
               m ∈ default [] (Legacy.MethodsFound r' !! s)).
Proof.
  intros r'. subst r'. unfold Legacy.bruteForceServices.
  apply confirmed_updates. apply Forall_forall. intros u Hu.
  apply list_elem_of_In, in_flat_map in Hu as (i & _ & Hu).
  destruct (imap _ _ !! i) as [trace|] eqn:Hi; [|inversion Hu].
  apply list_lookup_imap_Some in Hi as (servicePath & Hlookup & ->).
  simpl in Hu.
  destruct (bruteForceWorker_shape (callsFor i) servicePath)
    as [Hnone|(m & ms & Hsome)].
  - rewrite Hnone in Hu. inversion Hu.
  - rewrite Hsome in Hu. destruct Hu as [<-|[]].
    exists servicePath, m, ms. split; [done|].
    now apply list_elem_of_lookup_2 in Hlookup.
Qed.

End BruteForce.

Section HealthAndFlags.
Import strings.

Lemma health_fold (health : string -> Result string) (services : list string) :
  forall r,
    let r' :=
      foldl (fun r serviceName =>
               match health serviceName with
               | Failed _ => r
               | Ok status =>
                   Legacy.setHealthStatus r
                     (<[serviceName := status]> (Legacy.HealthStatus r))
               end) r services in
    Legacy.AvailableServices r' = Legacy.AvailableServices r /\
    Legacy.MethodsFound r' = Legacy.MethodsFound r /\
    Legacy.Errors r' = Legacy.Errors r /\
    Legacy.ReflectionEnabled r' = Legacy.ReflectionEnabled r /\
    Legacy.Vulnerabilities r' = Legacy.Vulnerabilities r /\
    forall s, Legacy.HealthStatus r' !! s
              = match health s with
                | Ok status => if bool_decide (s ∈ services) then Some status
                               else Legacy.HealthStatus r !! s
                | Failed _ => Legacy.HealthStatus r !! s
                end.
Proof.
  induction services as [|x services IH]; intros r.
  - simpl. repeat split. intros s. now destruct (health s).
  - cbn [foldl]. cbv zeta in IH.
    destruct (health x) as [status|err] eqn:Hx.
    + destruct (IH (Legacy.setHealthStatus r (<[x := status]> (Legacy.HealthStatus r))))
        as (H1 & H2 & H3 & H4 & H5 & H6).
      cbv zeta. rewrite H1, H2, H3, H4, H5. repeat split. intros s. rewrite H6.
      destruct (health s) as [st|e] eqn:Hs.
      * destruct (decide (s = x)) as [->|Hne].
        -- rewrite (bool_decide_eq_true_2 (x ∈ x :: services)) by now left.
           simpl. rewrite lookup_insert_eq.
           assert (st = status) as -> by congruence. now destruct (bool_decide _).
        -- simpl. rewrite lookup_insert_ne by done.
           destruct (decide (s ∈ services)) as [Hin|Hnin].
           ++ rewrite !bool_decide_eq_true_2; [done | now right | done].
           ++ rewrite !bool_decide_eq_false_2; [done | | done].
              rewrite elem_of_cons. tauto.
      * simpl. destruct (decide (s = x)) as [->|Hne]; [congruence|].
        now rewrite lookup_insert_ne.
    + destruct (IH r) as (H1 & H2 & H3 & H4 & H5 & H6).
      cbv zeta. repeat split; try done. intros s. rewrite H6.
      destruct (health s) as [st|e] eqn:Hs; [|done].
      destruct (decide (s ∈ services)) as [Hin|Hnin].
      * rewrite !bool_decide_eq_true_2; [done | now right | done].
      * rewrite !bool_decide_eq_false_2; [done | | done].
        rewrite elem_of_cons. intros [->|]; [congruence | done].
Qed.

Lemma recordHealth_fields r :
  Legacy.AvailableServices (Legacy.recordHealth r)
  = (if Legacy.contains (Legacy.AvailableServices r) "grpc.health.v1.Health"
     then Legacy.AvailableServices r
     else Legacy.AvailableServices r ++ ["grpc.health.v1.Health"]) /\
  Legacy.HealthStatus (Legacy.recordHealth r) = Legacy.HealthStatus r /\
  Legacy.Errors (Legacy.recordHealth r) = Legacy.Errors r /\
  Legacy.ReflectionEnabled (Legacy.recordHealth r) = Legacy.ReflectionEnabled r /\
  Legacy.Vulnerabilities (Legacy.recordHealth r) = Legacy.Vulnerabilities r.
Proof.
  unfold Legacy.recordHealth.
  destruct (Legacy.contains (Legacy.AvailableServices r) "grpc.health.v1.Health");
    simpl; destruct (Legacy.contains _ "Check"); done.
Qed.

(** X25: [checkHealthService] records the overall health under the empty
    name and, for every service of the result, its own health, each only
    when its check succeeds (the answers being a function of the service
    name); a failed overall check is recorded as the error [health_check]
    and adds no service, a successful one adds [grpc.health.v1.Health] when
    it is missing.  Reflection flag and vulnerabilities are untouched. *)
Theorem checkHealthService_records (health : string -> Result string)
    (r : Legacy.ScanResult) :
  let r' := Legacy.checkHealthService health r in
  Legacy.AvailableServices r'
  = (match health "" with
     | Ok _ => if Legacy.contains (Legacy.AvailableServices r) "grpc.health.v1.Health"
               then Legacy.AvailableServices r
               else Legacy.AvailableServices r ++ ["grpc.health.v1.Health"]
     | Failed _ => Legacy.AvailableServices r
     end) /\
  Legacy.Errors r'
  = (match health "" with
     | Ok _ => Legacy.Errors r
     | Failed err => <["health_check" := err]> (Legacy.Errors r)
     end) /\
  (forall s, Legacy.HealthStatus r' !! s
             = match health s with
               | Ok status =>
                   if bool_decide (s = "" \/ s ∈ Legacy.AvailableServices r')
                   then Some status else Legacy.HealthStatus r !! s
               | Failed _ => Legacy.HealthStatus r !! s
               end) /\
  Legacy.ReflectionEnabled r' = Legacy.ReflectionEnabled r /\
  Legacy.Vulnerabilities r' = Legacy.Vulnerabilities r.
Proof.
  intros r'. subst r'. unfold Legacy.checkHealthService.
  destruct (health "") as [overall|err] eqn:Hoverall.
  - pose proof (health_fold health
                  (Legacy.AvailableServices
                     (Legacy.recordHealth
                        (Legacy.setHealthStatus r
                           (<["" := overall]> (Legacy.HealthStatus r)))))
                  (Legacy.recordHealth
                     (Legacy.setHealthStatus r
                        (<["" := overall]> (Legacy.HealthStatus r))))) as Hfold.
    cbv zeta in Hfold. destruct Hfold as (H1 & H2 & H3 & H4 & H5 & H6).
    destruct (recordHealth_fields
                (Legacy.setHealthStatus r (<["" := overall]> (Legacy.HealthStatus r))))
      as (G1 & G2 & G3 & G4 & G5).
    split; [now rewrite H1, G1|]. split; [now rewrite H3, G3|].
    split; [|now rewrite H4, H5, G4, G5].
    intros s. rewrite H6, H1, G1, G2. simpl.
    destruct (health s) as [st|e] eqn:Hs.
    + destruct (decide (s = "")) as [->|Hne].
      * assert (st = overall) as -> by congruence.
        rewrite lookup_insert_eq.
        rewrite (bool_decide_eq_true_2 ("" = "" \/ _)) by now left.
        now destruct (bool_decide _).
      * rewrite lookup_insert_ne by done.
        apply (f_equal (fun b : bool => if b then Some st else Legacy.HealthStatus r !! s)).
        apply bool_decide_ext. tauto.
    + destruct (decide (s = "")) as [->|Hne]; [congruence|].
      now rewrite lookup_insert_ne.
  - pose proof (health_fold health
                  (Legacy.AvailableServices
                     (Legacy.setErrors r (<["health_check" := err]> (Legacy.Errors r))))
                  (Legacy.setErrors r (<["health_check" := err]> (Legacy.Errors r))))
      as Hfold.
    cbv zeta in Hfold. destruct Hfold as (H1 & H2 & H3 & H4 & H5 & H6).
    split; [now rewrite H1|]. split; [now rewrite H3|].
    split; [|now rewrite H4, H5].
    intros s. rewrite H6, H1. simpl.
    destruct (health s) as [st|e] eqn:Hs; [|done].
    apply (f_equal (fun b : bool => if b then Some st else Legacy.HealthStatus r !! s)).
    apply bool_decide_ext. split; [tauto|]. intros [->|]; [congruence | done].
Qed.

(** A service name is lower-cased over all of Unicode before it is
    searched: U+0130 becomes [i]. *)
Example sensitive_dot_above :
  Legacy.sensitive ("adm" +:+ capitalIDotAbove +:+ "n") = true.
Proof. reflexivity. Qed.

(** X26: [checkForVulnerabilities] only appends to the list of findings and
    touches nothing else; it appends one finding per service whose
    lower-cased name holds "debug", "admin" or "internal", one when
    reflection is enabled, and one per health entry that is not SERVING.
    So, the health entries being visited in any order, the list is left as
    it was exactly when no service is sensitive, reflection is off and
    every recorded health status is SERVING. *)
Theorem checkForVulnerabilities_appends (healthOrder : list (string * string))
    (r : Legacy.ScanResult)
    (Horder : healthOrder ≡ₚ map_to_list (Legacy.HealthStatus r)) :
  let r' := Legacy.checkForVulnerabilities healthOrder r in
  Legacy.Vulnerabilities r `prefix_of` Legacy.Vulnerabilities r' /\
  length (Legacy.Vulnerabilities r')
  = (length (Legacy.Vulnerabilities r)
     + length (List.filter Legacy.sensitive (Legacy.AvailableServices r))
     + (if Legacy.ReflectionEnabled r then 1 else 0)
     + length (List.filter (fun entry => negb (String.eqb (snd entry) "SERVING"))
                           healthOrder))%nat /\
  (Legacy.Vulnerabilities r' = Legacy.Vulnerabilities r <->
   Forall (fun service => Legacy.sensitive service = false)
          (Legacy.AvailableServices r) /\
   Legacy.ReflectionEnabled r = false /\
   map_Forall (fun _ status => status = "SERVING") (Legacy.HealthStatus r)) /\
  Legacy.AvailableServices r' = Legacy.AvailableServices r /\
  Legacy.MethodsFound r' = Legacy.MethodsFound r /\
  Legacy.HealthStatus r' = Legacy.HealthStatus r /\
  Legacy.ReflectionEnabled r' = Legacy.ReflectionEnabled r /\
  Legacy.Errors r' = Legacy.Errors r.
Proof.
  intros r'. subst r'. unfold Legacy.checkForVulnerabilities. simpl.
  split; [now apply prefix_app_r|]. split.
  { rewrite !length_app, !length_map. destruct (Legacy.ReflectionEnabled r); simpl; lia. }
  split; [|done].
  assert (Hfilter_nil : forall {A} (f : A -> bool) (l : list A),
             List.filter f l = [] <-> Forall (fun x => f x = false) l).
  { intros A f l. induction l as [|x l IH]; simpl; [split; [constructor | done]|].
    destruct (f x) eqn:Hx.
    - split; [done|]. intros H. inversion H; congruence.
    - rewrite IH. split; [now constructor | now inversion 1]. }
  split.
  - intros Heq.
    assert (Hnil : map (fun service => "Potentially sensitive service exposed: " +:+ service)
                     (List.filter Legacy.sensitive (Legacy.AvailableServices r))
                   ++ (if Legacy.ReflectionEnabled r
                       then ["Server reflection is enabled, which may expose service details"]
                       else [])
                   ++ map (fun entry =>
                             (if String.eqb (fst entry) "" then "Overall server"
                              else fst entry)
                             +:+ " reported non-serving health status: " +:+ snd entry)
                          (List.filter (fun entry => negb (String.eqb (snd entry) "SERVING"))
                                       healthOrder) = []).
    { apply (app_inv_head (Legacy.Vulnerabilities r)). now rewrite app_nil_r. }
    apply app_eq_nil in Hnil as [Hexposed Hnil].
    apply app_eq_nil in Hnil as [Hrefl Hhealth].
    apply map_eq_nil in Hexposed. apply map_eq_nil in Hhealth.
    split; [now apply Hfilter_nil|]. split.
    + now destruct (Legacy.ReflectionEnabled r).
    + apply Hfilter_nil in Hhealth. intros service status Hlookup.
      apply elem_of_map_to_list in Hlookup. rewrite <- Horder in Hlookup.
      rewrite Forall_forall in Hhealth. specialize (Hhealth _ Hlookup). simpl in Hhealth.
      destruct (String.eqb_spec status "SERVING"); [done | discriminate].
  - intros (Hexposed & Hrefl & Hhealth).
    apply Hfilter_nil in Hexposed. rewrite Hexposed, Hrefl. simpl.
    replace (List.filter (fun entry : string * string =>
                            negb (String.eqb (snd entry) "SERVING")) healthOrder)
      with (@nil (string * string)); [simpl; now rewrite app_nil_r|].
    symmetry. apply Hfilter_nil, Forall_forall. intros [service status] Hin.
    rewrite Horder in Hin. apply elem_of_map_to_list in Hin.
    simpl. rewrite (Hhealth _ _ Hin). reflexivity.
Qed.

Lemma checkForVulnerabilities_appends_witness :
  let r := Legacy.mkScanResult "localhost:50051" ["admin.AdminService"]
             (<["" := "NOT_SERVING"]> ∅) true ∅ ∅ [] in
  let r' := Legacy.checkForVulnerabilities [("", "NOT_SERVING")] r in
  Legacy.Vulnerabilities r `prefix_of` Legacy.Vulnerabilities r' /\
  length (Legacy.Vulnerabilities r')
  = (length (Legacy.Vulnerabilities r)
     + length (List.filter Legacy.sensitive (Legacy.AvailableServices r))
     + (if Legacy.ReflectionEnabled r then 1 else 0)
     + length (List.filter (fun entry => negb (String.eqb (snd entry) "SERVING"))
                           [("", "NOT_SERVING")]))%nat /\
  (Legacy.Vulnerabilities r' = Legacy.Vulnerabilities r <->
   Forall (fun service => Legacy.sensitive service = false)
          (Legacy.AvailableServices r) /\
   Legacy.ReflectionEnabled r = false /\
   map_Forall (fun _ status => status = "SERVING") (Legacy.HealthStatus r)) /\
  Legacy.AvailableServices r' = Legacy.AvailableServices r /\
  Legacy.MethodsFound r' = Legacy.MethodsFound r /\
  Legacy.HealthStatus r' = Legacy.HealthStatus r /\
  Legacy.ReflectionEnabled r' = Legacy.ReflectionEnabled r /\
  Legacy.Errors r' = Legacy.Errors r.
Proof.
  intros r.
  apply (checkForVulnerabilities_appends [("", "NOT_SERVING")] r).
  vm_compute. reflexivity.
Defined.

End HealthAndFlags.

Section Candidates.
Import strings.

Lemma append_nil_r (s : string) : s +:+ "" = s.
Proof. induction s as [|c s IH]; [done|]. rewrite append_String. now f_equal. Qed.

Lemma firstOccurrences_app_prefix (a b : list string) :
  firstOccurrences a `prefix_of` firstOccurrences (a ++ b).
Proof.
  induction a as [|x a [k IH]]; simpl; [apply prefix_nil|].
  rewrite IH, filter_app. apply prefix_cons, prefix_app_r. done.
Qed.

Lemma knownServices_NoDup : NoDup Legacy.knownServices.
Proof. apply (bool_decide_unpack _). vm_compute. exact I. Qed.

Lemma elem_of_flat_map {A B} (f : A -> list B) (l : list A) (y : B) :
  y ∈ flat_map f l <-> exists x, x ∈ l /\ y ∈ f x.
Proof.
  rewrite list_elem_of_In, in_flat_map. split; intros (x & Hx & Hy); exists x.
  - now rewrite !list_elem_of_In.
  - now rewrite <- !list_elem_of_In.
Qed.

Lemma candidatesOfWord_forms (word : string) :
  word ∈ Legacy.candidatesOfWord word /\
  (word +:+ "Service") ∈ Legacy.candidatesOfWord word /\
  ("grpc." +:+ word +:+ "Service") ∈ Legacy.candidatesOfWord word /\
  (word +:+ ".v1." +:+ Legacy.capitalized word +:+ "Service")
  ∈ Legacy.candidatesOfWord word.
Proof.
  unfold Legacy.candidatesOfWord. split; [|split; [|split]].
  - apply elem_of_app. left. cbn [map Legacy.serviceSuffixes].
    rewrite append_nil_r. now left.
  - apply elem_of_app. left. cbn [map Legacy.serviceSuffixes]. right. now left.
  - apply elem_of_app. right. apply elem_of_app. left.
    apply elem_of_flat_map. exists "grpc.". split.
    + unfold Legacy.packagePrefixes. right. now left.
    + apply elem_of_flat_map. exists "Service". split.
      * unfold Legacy.serviceSuffixes. right. now left.
      * now left.
  - apply elem_of_app. right. apply elem_of_app. right. apply elem_of_app. left.
    now left.
Qed.

(** X27: the candidate names of brute force hold no name twice, start with
    the sixteen well-known services in their fixed order, and are exactly
    the well-known services, the domain-specific services and the
    candidates of the non-empty words of the wordlist (empty words give
    nothing).  For every such word the candidates hold the word itself, the
    word followed by [Service], [grpc.] followed by both, and the versioned
    form [word.v1.WordService]. *)
Theorem generatePotentialServiceNames_candidates (wordlist : list string) :
  NoDup (Legacy.generatePotentialServiceNames wordlist) /\
  Legacy.knownServices `prefix_of` Legacy.generatePotentialServiceNames wordlist /\
  (forall x, x ∈ Legacy.generatePotentialServiceNames wordlist <->
             x ∈ Legacy.knownServices \/
             x ∈ Legacy.generateDomainSpecificServices \/
             exists word, word ∈ wordlist /\ word <> "" /\
                          x ∈ Legacy.candidatesOfWord word) /\
  (forall word, word ∈ wordlist -> word <> "" ->
     word ∈ Legacy.generatePotentialServiceNames wordlist /\
     (word +:+ "Service") ∈ Legacy.generatePotentialServiceNames wordlist /\
     ("grpc." +:+ word +:+ "Service") ∈ Legacy.generatePotentialServiceNames wordlist /\
     (word +:+ ".v1." +:+ Legacy.capitalized word +:+ "Service")
     ∈ Legacy.generatePotentialServiceNames wordlist).
Proof.
  assert (Hiff : forall x, x ∈ Legacy.generatePotentialServiceNames wordlist <->
             x ∈ Legacy.knownServices \/
             x ∈ Legacy.generateDomainSpecificServices \/
             exists word, word ∈ wordlist /\ word <> "" /\
                          x ∈ Legacy.candidatesOfWord word).
  { intros x. unfold Legacy.generatePotentialServiceNames.
    rewrite uniqueStrings_elem_of, !elem_of_app, elem_of_flat_map. split.
    - intros [H|[(word & Hw & Hx)|H]]; [now left | | now (right; left)].
      right. right. exists word.
      destruct (String.eqb_spec word "") as [->|Hne]; [inversion Hx | done].
    - intros [H|[H|(word & Hw & Hne & Hx)]]; [now left | now (right; right) |].
      right. left. exists word. split; [done|].
      now destruct (String.eqb_spec word ""). }
  split; [apply uniqueStrings_NoDup|]. split; [|split; [exact Hiff|]].
  - unfold Legacy.generatePotentialServiceNames.
    rewrite uniqueStrings_firstOccurrences.
    rewrite <- (firstOccurrences_NoDup_id _ knownServices_NoDup) at 1.
    apply firstOccurrences_app_prefix.
  - intros word Hw Hne.
    destruct (candidatesOfWord_forms word) as (H1 & H2 & H3 & H4).
    repeat split; apply Hiff; right; right; exists word; done.
Qed.

End Candidates.

Section Targets.
Import strings.

Lemma scanTargetLine_shape single targets text :
  Forall (fun t => t = single \/
                   t <> "" /\ TrimSpace t = t /\ HasPrefix t "#" = false) targets ->
  Forall (fun t => t = single \/
                   t <> "" /\ TrimSpace t = t /\ HasPrefix t "#" = false)
         (Detect.scanTargetLine targets text).
Proof.
  intros Hall. unfold Detect.scanTargetLine.
  destruct (String.eqb (TrimSpace text) "") eqn:He; [exact Hall|].
  destruct (HasPrefix (TrimSpace text) "#") eqn:Hp; [exact Hall|]. simpl.
  apply Forall_app. split; [exact Hall|]. apply Forall_singleton. right.
  split; [now apply eqb_empty_false|]. split; [apply TrimSpace_idem | exact Hp].
Qed.

Lemma scanTargetLine_prefix targets text :
  targets `prefix_of` Detect.scanTargetLine targets text.
Proof.
  unfold Detect.scanTargetLine. destruct (_ && _); [now apply prefix_app_r | done].
Qed.

Lemma foldl_scanTargetLine_prefix lines : forall targets,
  targets `prefix_of` foldl Detect.scanTargetLine targets lines.
Proof.
  induction lines as [|text lines IH]; intros targets; [done|]. simpl.
  etrans; [apply scanTargetLine_prefix | apply IH].
Qed.

(** X28: the targets [runDetectCommand] goes on with are never an empty
    list; the single target, when given, comes first and as it was typed;
    every other target is a trimmed, non-empty line that does not start
    with [#].  Standard input is looked at only when neither a single
    target nor a targets file is given. *)
Theorem collectTargets_targets (singleTarget targetsFile : string)
    (file stdin : TextFile) :
  match Detect.collectTargets singleTarget targetsFile file stdin with
  | Ok targets =>
      targets <> [] /\
      (singleTarget <> "" -> head targets = Some singleTarget) /\
      Forall (fun t => t = singleTarget \/
                       t <> "" /\ TrimSpace t = t /\ HasPrefix t "#" = false) targets
  | Failed _ => True
  end /\
  (singleTarget <> "" \/ targetsFile <> "" ->
   forall stdin',
     Detect.collectTargets singleTarget targetsFile file stdin
     = Detect.collectTargets singleTarget targetsFile file stdin').
Proof.
  split.
  - unfold Detect.collectTargets.
    set (start := if negb (String.eqb singleTarget "") then [singleTarget] else []).
    assert (Hstart : Forall (fun t => t = singleTarget \/
                       t <> "" /\ TrimSpace t = t /\ HasPrefix t "#" = false) start).
    { subst start. destruct (String.eqb singleTarget ""); repeat constructor. }
    assert (Hhead : forall targets, start `prefix_of` targets ->
                      singleTarget <> "" -> head targets = Some singleTarget).
    { intros targets [k ->] Hne. subst start.
      destruct (String.eqb_spec singleTarget ""); done. }
    assert (Hfold : forall lines targets,
              Forall (fun t => t = singleTarget \/
                       t <> "" /\ TrimSpace t = t /\ HasPrefix t "#" = false) targets ->
              Forall (fun t => t = singleTarget \/
                       t <> "" /\ TrimSpace t = t /\ HasPrefix t "#" = false)
                     (foldl Detect.scanTargetLine targets lines)).
    { intros lines targets H.
      apply (foldl_invariant
               (Forall (fun t => t = singleTarget \/
                          t <> "" /\ TrimSpace t = t /\ HasPrefix t "#" = false)));
        [intros acc x; apply scanTargetLine_shape | exact H]. }
    assert (Hfinal : forall targets,
              start `prefix_of` targets ->
              Forall (fun t => t = singleTarget \/
                       t <> "" /\ TrimSpace t = t /\ HasPrefix t "#" = false) targets ->
              match
                (let fromStdin :=
                   if (Z.of_nat (length targets) =? 0)
                      && String.eqb targetsFile "" && String.eqb singleTarget ""
                   then
                     match stdin with
                     | CannotOpen err => Failed ("Error reading from stdin: " +:+ err)
                     | NotFound _ err => Failed ("Error reading from stdin: " +:+ err)
                     | FileLines lines (Some err) =>
                         Failed ("Error reading from stdin: " +:+ err)
                     | FileLines lines None =>
                         Ok (foldl Detect.scanTargetLine targets lines)
                     end
                   else Ok targets in
                 match fromStdin with
                 | Failed err => Failed err
                 | Ok targets =>
                     if (Z.of_nat (length targets) =? 0)
                     then Failed "No targets provided. Use -target, -targets, or provide input via stdin"
                     else Ok targets
                 end)
              with
              | Ok targets =>
                  targets <> [] /\
                  (singleTarget <> "" -> head targets = Some singleTarget) /\
                  Forall (fun t => t = singleTarget \/
                           t <> "" /\ TrimSpace t = t /\ HasPrefix t "#" = false) targets
              | Failed _ => True
              end).
    { intros targets Hpre Hall. cbv zeta.
      assert (Hdone : forall final,
                start `prefix_of` final ->
                Forall (fun t => t = singleTarget \/
                         t <> "" /\ TrimSpace t = t /\ HasPrefix t "#" = false) final ->
                match (if (Z.of_nat (length final) =? 0)
                       then Failed "No targets provided. Use -target, -targets, or provide input via stdin"
                       else Ok final) with
                | Ok targets =>
                    targets <> [] /\
                    (singleTarget <> "" -> head targets = Some singleTarget) /\
                    Forall (fun t => t = singleTarget \/
                             t <> "" /\ TrimSpace t = t /\ HasPrefix t "#" = false)
                           targets
                | Failed _ => True
                end).
      { intros final Hp Hf. destruct final as [|t final]; [done|]. simpl.
        split; [done|]. split; [exact (Hhead (t :: final) Hp) | done]. }
      destruct (_ && _ && _).
      - destruct stdin as [err | lines [err|] | path err]; [done | done | | done].
        apply Hdone; [|now apply Hfold].
        etrans; [exact Hpre | apply foldl_scanTargetLine_prefix].
      - now apply Hdone. }
    destruct (negb (String.eqb targetsFile "")).
    + destruct file as [err | lines [err|] | path err]; [done | done | | done].
      apply Hfinal; [apply foldl_scanTargetLine_prefix | now apply Hfold].
    + now apply Hfinal.
  - intros Hgiven stdin'. unfold Detect.collectTargets.
    assert (Hoff : forall targets : list string,
              (Z.of_nat (length targets) =? 0)
              && String.eqb targetsFile "" && String.eqb singleTarget "" = false).
    { intros targets. destruct Hgiven as [H|H].
      - destruct (String.eqb_spec singleTarget ""); [done|]. apply andb_false_r.
      - destruct (String.eqb_spec targetsFile ""); [done|].
        now rewrite andb_false_r. }
    destruct (negb (String.eqb targetsFile "")).
    + destruct file as [err | lines [err|] | path err]; [done | done | | done].
      cbv zeta. now rewrite Hoff.
    + cbv zeta. now rewrite Hoff.
Qed.

End Targets.

Section StandardLoop.
Import strings.

Lemma appendBasicMethods_prefix serviceName methods :
  methods `prefix_of` Legacy.appendBasicMethodsForServiceName serviceName methods.
Proof. unfold Legacy.appendBasicMethodsForServiceName. now apply prefix_app_r. Qed.

(** X29: the methods probed for a service path are never an empty list:
    the path's entry in the table of standard methods when it has one that
    is not empty (and then exactly that entry when method fuzzing is off),
    and otherwise a list that starts with [Get].  With method fuzzing on
    and common methods given, the list holds no method twice and keeps the
    table's or fallback methods. *)
Theorem methodsToProbe_nonempty (servicePath : string)
    (standardMethods : gmap string (list string))
    (rangeOrder : list (string * list string))
    (commonMethods : list string) (fuzzMethods : bool) (methodLimit : Z) :
  let table :=
    Legacy.mapMethodsForVersionedService servicePath standardMethods rangeOrder in
  let methods :=
    Legacy.methodsToProbe servicePath standardMethods rangeOrder
                          commonMethods fuzzMethods methodLimit in
  methods <> [] /\
  (forall entry, standardMethods !! servicePath = Some entry -> table = entry) /\
  (table <> [] -> forall m, m ∈ table -> m ∈ methods) /\
  (table = [] -> "Get" ∈ methods) /\
  (fuzzMethods = false \/ commonMethods = [] ->
   methods = table \/ table = [] /\ ["Get"] `prefix_of` methods) /\
  (fuzzMethods = true -> commonMethods <> [] -> NoDup methods).
Proof.
  intros table methods.
  set (base :=
         if (Z.of_nat (length table) =? 0)
         then
           if Contains servicePath ".v"
           then Legacy.appendBasicMethodsForServiceName
                  (TrimSuffix (lastField servicePath "."%char) "Service") ["Get"]
           else ["Get"]
         else table).
  assert (Hbase : (table <> [] /\ base = table) \/
                  (table = [] /\ ["Get"] `prefix_of` base)).
  { subst base. destruct table as [|m ms]; [right | left; done].
    split; [done|]. simpl. destruct (Contains servicePath ".v"); [|done].
    apply appendBasicMethods_prefix. }
  assert (Hne : base <> []).
  { destruct Hbase as [[H ->]|[_ [k ->]]]; done. }
  assert (Hmethods : methods
    = if fuzzMethods && (0 <? Z.of_nat (length commonMethods))
      then Legacy.uniqueStrings
             (base ++
              (if (0 <? methodLimit) && (methodLimit <? Z.of_nat (length commonMethods))
               then Legacy.getHighPriorityMethods commonMethods methodLimit
               else commonMethods))
      else base) by reflexivity.
  assert (Hin : forall m, m ∈ base -> m ∈ methods).
  { intros m Hm. rewrite Hmethods. destruct (_ && _); [|done].
    rewrite uniqueStrings_elem_of, elem_of_app. now left. }
  split; [|split; [|split; [|split; [|split]]]].
  - destruct base as [|m ms] eqn:E; [done|].
    intros Hnil. specialize (Hin m ltac:(now left)). rewrite Hnil in Hin. inversion Hin.
  - intros entry Hentry. subst table.
    unfold Legacy.mapMethodsForVersionedService. now rewrite Hentry.
  - intros Htable m Hm. apply Hin. destruct Hbase as [[_ ->]|[H _]]; done.
  - intros Htable. apply Hin. destruct Hbase as [[H _]|[_ [k ->]]]; [done | now left].
  - intros Hoff.
    assert (Hcond : fuzzMethods && (0 <? Z.of_nat (length commonMethods)) = false).
    { destruct Hoff as [-> | ->]; [done | apply andb_false_r]. }
    rewrite Hmethods, Hcond. destruct Hbase as [[_ ->]|H]; [now left | now right].
  - intros -> Hcommon. rewrite Hmethods.
    destruct commonMethods as [|c cs]; [done|]. cbn [andb length].
    replace (0 <? Z.of_nat (S (length cs))) with true
      by (symmetry; apply Z.ltb_lt; lia).
    apply uniqueStrings_NoDup.
Qed.

Lemma checkStandardService_services calls servicePath methods r :
  Legacy.AvailableServices (Legacy.checkStandardService calls servicePath methods r)
  = Legacy.AvailableServices r \/
  Legacy.AvailableServices (Legacy.checkStandardService calls servicePath methods r)
  = Legacy.AvailableServices r ++ [servicePath].
Proof.
  unfold Legacy.checkStandardService.
  destruct (Legacy.serviceExplicitlyNotFound _); [now left|].
  destruct (Legacy.serviceFound _); [|now left].
  rewrite recordService_services. destruct (Legacy.contains _ _); [now left | now right].
Qed.

Lemma checkStandardService_other calls servicePath methods r s :
  s <> servicePath ->
  Legacy.MethodsFound (Legacy.checkStandardService calls servicePath methods r) !! s
  = Legacy.MethodsFound r !! s.
Proof.
  intros Hs. unfold Legacy.checkStandardService.
  destruct (Legacy.serviceExplicitlyNotFound _); [done|].
  destruct (Legacy.serviceFound _); [|done].
  rewrite recordService_methods. destruct (0 <? _); [|done].
  now rewrite lookup_insert_ne.
Qed.

Lemma standardServicesFrom_effect callsFor standardMethods rangeOrder
      commonMethods fuzzMethods methodLimit paths : forall i r,
  let r' := Legacy.standardServicesFrom i callsFor paths standardMethods rangeOrder
              commonMethods fuzzMethods methodLimit r in
  Legacy.AvailableServices r `prefix_of` Legacy.AvailableServices r' /\
  (forall s, s ∈ Legacy.AvailableServices r' ->
             s ∈ Legacy.AvailableServices r \/ s ∈ paths) /\
  (forall s, s ∉ paths -> Legacy.MethodsFound r' !! s = Legacy.MethodsFound r !! s) /\
  ((forall i k path, inconclusive (callsFor i k path) = true) -> r' = r).
Proof.
  induction paths as [|servicePath rest IH]; intros i r; cbv zeta.
  - simpl. split; [done|]. split; [now left | done].
  - cbn [Legacy.standardServicesFrom].
    set (r1 := Legacy.checkStandardService (callsFor i) servicePath
                 (Legacy.methodsToProbe servicePath standardMethods rangeOrder
                    commonMethods fuzzMethods methodLimit) r).
    destruct (IH (S i) r1) as (Hpre & Hsub & Hother & Hinc).
    assert (Hstep :
      Legacy.AvailableServices r1 = Legacy.AvailableServices r \/
      Legacy.AvailableServices r1 = Legacy.AvailableServices r ++ [servicePath])
      by apply checkStandardService_services.
    split; [|split; [|split]].
    + etrans; [|exact Hpre]. destruct Hstep as [-> | ->]; [done|].
      now apply prefix_app_r.
    + intros s Hs. destruct (Hsub s Hs) as [Hin|Hin]; [|right; now right].
      destruct Hstep as [Heq|Heq]; rewrite Heq in Hin; [now left|].
      apply elem_of_app in Hin as [Hin|Hin]; [now left|].
      apply list_elem_of_singleton in Hin as ->. right. now left.
    + intros s Hs. apply not_elem_of_cons in Hs as [Hne Hs].
      rewrite (Hother s Hs). now apply checkStandardService_other.
    + intros Hall. rewrite (Hinc Hall). subst r1.
      unfold Legacy.checkStandardService.
      rewrite probeMethods_inconclusive; [done|]. intros k path. apply Hall.
Qed.

(** X30: the stand-alone scanner's check of the standard services keeps
    every service found before, in place, adds only paths of the list it
    is given, changes the methods of no service outside that list, and
    leaves the result as it was when every call is inconclusive (no gRPC
    status, or UNAVAILABLE). *)
Theorem checkStandardServices_adds_listed (callsFor : nat -> nat -> ClientConn)
    (standardServicePaths : list string)
    (standardMethods : gmap string (list string))
    (rangeOrder : list (string * list string))
    (commonMethods : list string) (fuzzMethods : bool) (methodLimit : Z)
    (r : Legacy.ScanResult) :
  let r' := Legacy.checkStandardServices callsFor standardServicePaths standardMethods
              rangeOrder commonMethods fuzzMethods methodLimit r in
  Legacy.AvailableServices r `prefix_of` Legacy.AvailableServices r' /\
  (forall s, s ∈ Legacy.AvailableServices r' ->
             s ∈ Legacy.AvailableServices r \/ s ∈ standardServicePaths) /\
  (forall s, s ∉ standardServicePaths ->
             Legacy.MethodsFound r' !! s = Legacy.MethodsFound r !! s) /\
  ((forall i k path, inconclusive (callsFor i k path) = true) -> r' = r).
Proof. apply standardServicesFrom_effect. Qed.

End StandardLoop.
